(** * Lookup tables of the Quantum Synchrotron engine

    A shallow embedding of
    [src/multi_physics/QED/src/physics/quantum_sync/quantum_sync_engine_tables.hpp]:
    the dN/dt lookup table and the photon emission lookup table, with their
    constructors, views, interpolation, value import and serialization. *)

From Stdlib Require Import ZArith Reals Lra Lia Bool String.
From Stdlib Require Import Init.Byte Strings.Byte.
From Stdlib Require Floats.
From stdpp Require Import base tactics option list.
From Equations Require Import Equations.

Local Open Scope Z_scope.

(** ** Outcomes of a call

    A C++ call returns a value, throws, or has undefined behaviour (a read or
    a write outside an object). *)

Inductive exception : Type :=
| runtime_error (what : string).

Inductive outcome (A : Type) : Type :=
| Ok (a : A)
| Throw (e : exception)
| Undefined.
Arguments Ok {A} a.
Arguments Throw {A} e.
Arguments Undefined {A}.

#[export] Instance outcome_ret : MRet outcome := fun A a => Ok a.

#[export] Instance outcome_bind : MBind outcome := fun A B k c =>
  match c with
  | Ok a => k a
  | Throw e => Throw e
  | Undefined => Undefined
  end.

(** ** The scalar type [RealType]

    The tables are templates over the floating point type. Its operations are
    an interface: the structural properties of the tables hold for every
    implementation of it. *)

Class RealOps (T : Type) : Type := {
  r_lt : T -> T -> bool;          (* operator<  *)
  r_add : T -> T -> T;
  r_sub : T -> T -> T;
  r_mul : T -> T -> T;
  r_div : T -> T -> T;
  r_of_int : Z -> T;              (* conversion of an int *)
  r_zero : T;
  r_one : T;                      (* math::one<RealType> *)
  m_log : T -> T;                 (* math::m_log *)
  m_exp : T -> T;                 (* math::m_exp *)
  r_isinf : T -> bool;            (* std::isinf *)
  r_lowest : T                    (* std::numeric_limits<RealType>::lowest() *)
}.

(** [operator==] of the scalar type. *)
Class OpEq (T : Type) : Type := r_eq : T -> T -> bool.

(** ** Containers: [std::vector] and [picsar_span]

    A [picsar_span] is a size and a pointer; [span_data] is the array the
    pointer refers to. Both containers are read through their content. *)

Abbreviation std_vector T := (list T) (only parsing).

Record picsar_span (T : Type) : Type := mk_span {
  span_size : nat;
  span_data : list T
}.
Arguments mk_span {T} _ _.
Arguments span_size {T} _.
Arguments span_data {T} _.

Class VectorType (T V : Type) : Type := v_content : V -> list T.

#[export] Instance std_vector_VectorType (T : Type) : VectorType T (std_vector T) :=
  fun v => v.

#[export] Instance picsar_span_VectorType (T : Type) : VectorType T (picsar_span T) :=
  fun s => take (span_size s) (span_data s).

(** ** The bool the [is_out] pointer refers to

    The heap holds the caller's bools; a pointer is null or an address.
    Writing through a null pointer, or outside the heap, is undefined. *)

Abbreviation heap := (list bool).
Definition bool_ptr : Type := option nat.
Definition nullptr : bool_ptr := None.

Definition is_nullptr (p : bool_ptr) : bool :=
  match p with None => true | Some _ => false end.

Definition store (p : bool_ptr) (b : bool) (h : heap) : outcome heap :=
  match p with
  | None => Undefined
  | Some a => if decide (a < length h)%nat then Ok (<[a:=b]> h) else Undefined
  end.

(** The statement [if (is_out != nullptr) *is_out = true;]. *)
Definition flag_out (is_out : bool_ptr) (h : heap) : outcome heap :=
  if negb (is_nullptr is_out) then store is_out true h else Ok h.

(** ** utils/picsar_algo.hpp *)

Section algo.
Context {T : Type} `{RealOps T}.

(** Modelled from the spec: [utils::linear_interp] of picsar_algo.hpp is not
    among the sources; "log-space linear interpolation between two
    bracketing points" [(x0,y0)] and [(x1,y1)], evaluated at [x], with the
    argument order of its call in [photon_emission_lookup_table::interp]. *)
Definition linear_interp (x0 x1 y0 y1 x : T) : T :=
  r_add y0 (r_mul (r_div (r_sub y1 y0) (r_sub x1 x0)) (r_sub x x0)).

(** Modelled from the spec: [utils::picsar_upper_bound_functor] of
    picsar_algo.hpp is not among the sources; "an upper-bound binary search
    over a monotone function evaluated lazily per index", the bisection of
    [std::upper_bound]: the half that is kept starts after the probe when
    the value is not below [f] at the probe. [count] is the number of
    indices that are left. *)
Equations? upper_bound_loop (val : T) (f : Z -> T) (first : Z) (count : nat) : Z
  by wf count lt :=
  upper_bound_loop val f first O := first;
  upper_bound_loop val f first (S n) :=
    if negb (r_lt val (f (first + Z.of_nat (S n / 2))))
    then upper_bound_loop val f (first + Z.of_nat (S n / 2) + 1)
           (S n - (S n / 2 + 1))
    else upper_bound_loop val f first (S n / 2).
Proof.
  - lia.
  - pose proof (Nat.div_lt (S n) 2 ltac:(lia) ltac:(lia)) as Hhalf.
    simpl in Hhalf. lia.
Qed.

(** Modelled from the spec: the search over the indices from [first] to
    [last], [last] excluded; of a [last] before [first] the model keeps no
    index. *)
Definition picsar_upper_bound_functor (first last : Z) (val : T) (f : Z -> T) : Z :=
  upper_bound_loop val f first (Z.to_nat (last - first)).
End algo.

(** ** utils/serialization.hpp *)

(** Modelled from the spec: serialization.hpp is not among the sources; it
    has the "generic byte-buffer put/get for POD values". A POD value is
    copied as the [sizeof] bytes it has in memory. *)
Class Pod (A : Type) : Type := {
  sizeof : nat;
  to_bytes : A -> list byte;
  from_bytes : list byte -> A;
  pod_ok : A -> Prop              (* the values of the model the type can hold *)
}.
Arguments sizeof A {_}.

(** What a byte copy guarantees: [sizeof] bytes are written, and reading them
    back gives the value. *)
Class PodLaws (A : Type) `{Pod A} : Prop := {
  length_to_bytes : forall a : A, length (to_bytes a) = sizeof A;
  from_to_bytes : forall a : A, pod_ok a -> from_bytes (to_bytes a) = a
}.

(** Modelled from the spec: [serialization::put_in(val, vec)], the "put" of a
    POD value: its bytes are appended to the vector. *)
Definition put_in {A : Type} `{Pod A} (val : A) (vec : list byte) : list byte :=
  vec ++ to_bytes val.

(** Modelled from the spec: [serialization::get_out<A>(it)], the "get" of a
    POD value: [sizeof] bytes are read at the iterator, which advances. An
    iterator is the part of the buffer that is still to be read; reading
    past the end of the buffer is undefined. *)
Definition get_out (A : Type) `{Pod A} (it : list byte) : outcome (A * list byte) :=
  if decide (length it < sizeof A)%nat then Undefined
  else Ok (from_bytes (take (sizeof A) it), drop (sizeof A) it).

(** Modelled from the spec: [n] values read one after the other, for "the
    raw sample sequence". *)
Fixpoint get_n_out (A : Type) `{Pod A} (it : list byte) (n : nat)
  : outcome (list A * list byte) :=
  match n with
  | O => Ok ([], it)
  | S n' =>
      '(a, it1) ← get_out A it;
      '(l, it2) ← get_n_out A it1 n';
      Ok (a :: l, it2)
  end.

Definition byte_of_Z (z : Z) : byte :=
  match Byte.of_N (Z.to_N (z mod 256)) with
  | Some b => b
  | None => x00
  end.

Definition Z_of_byte (b : byte) : Z := Z.of_N (Byte.to_N b).

(** [char] *)
#[export] Instance char_Pod : Pod byte := {|
  sizeof := 1;
  to_bytes := fun b => [b];
  from_bytes := fun l => match l with b :: _ => b | [] => x00 end;
  pod_ok := fun _ => True
|}.

(** [int]: 32 bits, two's complement, least significant byte first. *)
Definition int_to_bytes (z : Z) : list byte :=
  [byte_of_Z z; byte_of_Z (z / 2 ^ 8); byte_of_Z (z / 2 ^ 16); byte_of_Z (z / 2 ^ 24)].

Definition int_from_bytes (l : list byte) : Z :=
  match l with
  | b0 :: b1 :: b2 :: b3 :: _ =>
      let u := Z_of_byte b0 + 2 ^ 8 * Z_of_byte b1
               + 2 ^ 16 * Z_of_byte b2 + 2 ^ 24 * Z_of_byte b3 in
      if u <? 2 ^ 31 then u else u - 2 ^ 32
  | _ => 0
  end.

Definition int_range (z : Z) : Prop := - 2 ^ 31 <= z < 2 ^ 31.

#[export] Instance int_Pod : Pod Z := {|
  sizeof := 4;
  to_bytes := int_to_bytes;
  from_bytes := int_from_bytes;
  pod_ok := int_range
|}.

(** The tag that opens a serialized table:
    [static_cast<char>(sizeof(RealType))]. *)
Definition realtype_tag (T : Type) `{Pod T} : byte := byte_of_Z (Z.of_nat (sizeof T)).

(** Tail padding of a struct whose fields take [used] bytes, for the
    alignment [align]. *)
Definition tail_padding (used align : nat) : nat :=
  ((align - used mod align) mod align)%nat.


(** ** containers/picsar_tables.hpp

    The equispaced tables that hold the samples are not among the sources.
    Their interpolation routines are an interface; the rest is modelled from
    the spec. *)

(** [equispaced_1d_table::interp] and
    [equispaced_2d_table::interp_first_coord], as functions of the bounds,
    the resolutions and the samples of the table. *)
Class GridInterp (T : Type) : Type := {
  interp_1d : T -> T -> list T -> T -> T;
  interp_first_coord_2d : T -> T -> T -> T -> Z -> Z -> list T -> T -> Z -> T
}.

(** Modelled from the spec: the "full sample sequences" of two tables are
    equal when they have the same length and their elements are equal under
    [operator==], one by one. *)
Fixpoint values_eq {T : Type} `{OpEq T} (l1 l2 : list T) : bool :=
  match l1, l2 with
  | [], [] => true
  | a :: l1', b :: l2' => r_eq a b && values_eq l1' l2'
  | _, _ => false
  end.

Module t1d.
(** Modelled from the spec: [equispaced_1d_table] "owns a fixed-size ordered
    sequence of sample values on a log-spaced axis between two bounds"; it
    is built from the two bounds and the samples. *)
Record equispaced_1d_table (T V : Type) : Type := mk {
  m_x_min : T;
  m_x_max : T;
  m_values : V
}.
Arguments mk {T V} _ _ _.
Arguments m_x_min {T V} _.
Arguments m_x_max {T V} _.
Arguments m_values {T V} _.

Section ops.
Context {T V : Type} `{VectorType T V}.

(** Modelled from the spec: "[get_values_reference()] returns the backing
    sample storage". *)
Definition get_values_reference (tb : equispaced_1d_table T V) : V := m_values tb.

(** Modelled from the spec: the resolution of the grid, the number of the
    samples it owns. *)
Definition get_how_many_x (tb : equispaced_1d_table T V) : Z :=
  Z.of_nat (length (v_content (m_values tb))).

(** [interp(where_x)], through the interface. *)
Definition interp `{GridInterp T} (tb : equispaced_1d_table T V) (where_x : T) : T :=
  interp_1d (m_x_min tb) (m_x_max tb) (v_content (m_values tb)) where_x.

(** Modelled from the spec: "two tables are equal iff their parameters
    and full sample sequences are all equal". *)
Definition op_eq `{OpEq T} (a b : equispaced_1d_table T V) : bool :=
  r_eq (m_x_min a) (m_x_min b) && r_eq (m_x_max a) (m_x_max b)
  && values_eq (v_content (m_values a)) (v_content (m_values b)).

(** Modelled from the spec: the "coordinate lookup" of the table: the
    log-space coordinate of the sample [i], the axis being equispaced between
    its two bounds. *)
Definition get_x_coord `{RealOps T} (tb : equispaced_1d_table T V) (i : Z) : T :=
  r_add (m_x_min tb)
    (r_div (r_mul (r_of_int i) (r_sub (m_x_max tb) (m_x_min tb)))
           (r_of_int (get_how_many_x tb - 1))).

(** Modelled from the spec: [get_all_coordinates()], the log-space coordinate
    of every sample, in the order of the storage. *)
Definition get_all_coordinates `{RealOps T} (tb : equispaced_1d_table T V) : list T :=
  map (fun i => get_x_coord tb (Z.of_nat i)) (seq 0 (Z.to_nat (get_how_many_x tb))).
End ops.

Section owned.
Context {T : Type}.

(** Modelled from the spec: "[set_val(index, value)]: overwrite one
    sample; valid index range is [0, N)". *)
Definition set_val (tb : equispaced_1d_table T (std_vector T)) (i : nat) (v : T)
  : outcome (equispaced_1d_table T (std_vector T)) :=
  if decide (i < length (m_values tb))%nat
  then Ok (mk (m_x_min tb) (m_x_max tb) (<[i:=v]> (m_values tb)))
  else Undefined.

(** Modelled from the spec: the serialized grid table "begins with its
    axis bounds/resolution followed by the raw sample sequence". *)
Definition serialize `{Pod T} (tb : equispaced_1d_table T (std_vector T)) : list byte :=
  to_bytes (m_x_min tb) ++ to_bytes (m_x_max tb)
  ++ to_bytes (Z.of_nat (length (m_values tb)))
  ++ concat (map to_bytes (m_values tb)).

(** Modelled from the spec: the byte-buffer constructor of the grid table
    reads what [serialize] writes: the bounds, the resolution and as many
    samples. *)
Definition of_bytes `{Pod T} (raw_data : list byte)
  : outcome (equispaced_1d_table T (std_vector T)) :=
  '(x_min, it) ← get_out T raw_data;
  '(x_max, it) ← get_out T it;
  '(how_many_x, it) ← get_out Z it;
  '(vals, it) ← get_n_out T it (Z.to_nat how_many_x);
  Ok (mk x_min x_max vals).
End owned.
End t1d.

Module t2d.
(** Modelled from the spec: [equispaced_2d_table] owns "a fixed-size
    row-major grid over two independent log-spaced axes"; it is built from
    the four bounds, the two resolutions and the samples. *)
Record equispaced_2d_table (T V : Type) : Type := mk {
  m_x_min : T;
  m_x_max : T;
  m_y_min : T;
  m_y_max : T;
  m_how_many_x : Z;
  m_how_many_y : Z;
  m_values : V
}.
Arguments mk {T V} _ _ _ _ _ _ _.
Arguments m_x_min {T V} _.
Arguments m_x_max {T V} _.
Arguments m_y_min {T V} _.
Arguments m_y_max {T V} _.
Arguments m_how_many_x {T V} _.
Arguments m_how_many_y {T V} _.
Arguments m_values {T V} _.

Section ops.
Context {T V : Type} `{VectorType T V}.

(** Modelled from the spec: "[get_values_reference()] returns the backing
    sample storage". *)
Definition get_values_reference (tb : equispaced_2d_table T V) : V := m_values tb.

(** Modelled from the spec: "[get_how_many_x()/get_how_many_y()]: grid
    resolutions". *)
Definition get_how_many_x (tb : equispaced_2d_table T V) : Z := m_how_many_x tb.
Definition get_how_many_y (tb : equispaced_2d_table T V) : Z := m_how_many_y tb.

(** [interp_first_coord(where_x, j)], through the interface. *)
Definition interp_first_coord `{GridInterp T}
    (tb : equispaced_2d_table T V) (where_x : T) (j : Z) : T :=
  interp_first_coord_2d (m_x_min tb) (m_x_max tb) (m_y_min tb) (m_y_max tb)
    (m_how_many_x tb) (m_how_many_y tb) (v_content (m_values tb)) where_x j.

(** Modelled from the spec: "[get_y_coord(index)] returns the log-space
    coordinate of axis-2 sample [index]", the axis being equispaced
    between its two bounds. *)
Definition get_y_coord `{RealOps T} (tb : equispaced_2d_table T V) (j : Z) : T :=
  r_add (m_y_min tb)
    (r_div (r_mul (r_of_int j) (r_sub (m_y_max tb) (m_y_min tb)))
           (r_of_int (m_how_many_y tb - 1))).

(** Modelled from the spec: "two tables are equal iff their parameters
    and full sample sequences are all equal". *)
Definition op_eq `{OpEq T} (a b : equispaced_2d_table T V) : bool :=
  r_eq (m_x_min a) (m_x_min b) && r_eq (m_x_max a) (m_x_max b)
  && r_eq (m_y_min a) (m_y_min b) && r_eq (m_y_max a) (m_y_max b)
  && (m_how_many_x a =? m_how_many_x b) && (m_how_many_y a =? m_how_many_y b)
  && values_eq (v_content (m_values a)) (v_content (m_values b)).

(** Modelled from the spec: the log-space coordinate of the axis-1 sample
    [i], as [get_y_coord] for the axis 2. *)
Definition get_x_coord `{RealOps T} (tb : equispaced_2d_table T V) (i : Z) : T :=
  r_add (m_x_min tb)
    (r_div (r_mul (r_of_int i) (r_sub (m_x_max tb) (m_x_min tb)))
           (r_of_int (m_how_many_x tb - 1))).

(** Modelled from the spec: "[get_all_coordinates()] produces every (axis1,
    axis2) pair as log-space coordinates in row-major order, matching the
    layout of the value storage". *)
Definition get_all_coordinates `{RealOps T} (tb : equispaced_2d_table T V) : list (T * T) :=
  flat_map
    (fun i => map (fun j => (get_x_coord tb (Z.of_nat i), get_y_coord tb (Z.of_nat j)))
                  (seq 0 (Z.to_nat (m_how_many_y tb))))
    (seq 0 (Z.to_nat (m_how_many_x tb))).
End ops.

Section owned.
Context {T : Type}.

(** Modelled from the spec: [set_val(index, value)] overwrites one sample
    of the row-major grid; the valid indices are those of its samples. *)
Definition set_val (tb : equispaced_2d_table T (std_vector T)) (i : nat) (v : T)
  : outcome (equispaced_2d_table T (std_vector T)) :=
  if decide (i < length (m_values tb))%nat
  then Ok (mk (m_x_min tb) (m_x_max tb) (m_y_min tb) (m_y_max tb)
              (m_how_many_x tb) (m_how_many_y tb) (<[i:=v]> (m_values tb)))
  else Undefined.

(** Modelled from the spec: the serialized grid table "begins with its
    axis bounds/resolution followed by the raw sample sequence in row-major
    order". *)
Definition serialize `{Pod T} (tb : equispaced_2d_table T (std_vector T)) : list byte :=
  to_bytes (m_x_min tb) ++ to_bytes (m_x_max tb)
  ++ to_bytes (m_y_min tb) ++ to_bytes (m_y_max tb)
  ++ to_bytes (m_how_many_x tb) ++ to_bytes (m_how_many_y tb)
  ++ concat (map to_bytes (m_values tb)).

(** Modelled from the spec: the byte-buffer constructor of the grid table
    reads what [serialize] writes. *)
Definition of_bytes `{Pod T} (raw_data : list byte)
  : outcome (equispaced_2d_table T (std_vector T)) :=
  '(x_min, it) ← get_out T raw_data;
  '(x_max, it) ← get_out T it;
  '(y_min, it) ← get_out T it;
  '(y_max, it) ← get_out T it;
  '(how_many_x, it) ← get_out Z it;
  '(how_many_y, it) ← get_out Z it;
  '(vals, it) ← get_n_out T it (Z.to_nat (how_many_x * how_many_y));
  Ok (mk x_min x_max y_min y_max how_many_x how_many_y vals).
End owned.
End t2d.


(** ** Conversions of [int] *)

(** The conversion of an [int] to [size_t]. Products of two [int] are taken
    in [Z]: an overflow of [int] is undefined. *)
Definition size_t_of_int (n : Z) : nat := Z.to_nat (n mod 2 ^ 64).

(** * quantum_sync_engine_tables.hpp *)

(** ** The dN/dt table *)

Module dndt.

Record dndt_lookup_table_params (T : Type) : Type := mk_params {
  chi_part_min : T;       (* Minimum particle chi parameter *)
  chi_part_max : T;       (* Maximum particle chi parameter *)
  chi_part_how_many : Z   (* Number of grid points for particle chi *)
}.
Arguments mk_params {T} _ _ _.
Arguments chi_part_min {T} _.
Arguments chi_part_max {T} _.
Arguments chi_part_how_many {T} _.

Record dndt_lookup_table (T V : Type) : Type := mk_table {
  m_params : dndt_lookup_table_params T;       (* Table parameters *)
  m_init_flag : bool;                          (* Initialization flag *)
  m_table : t1d.equispaced_1d_table T V        (* Table data *)
}.
Arguments mk_table {T V} _ _ _.
Arguments m_params {T V} _.
Arguments m_init_flag {T V} _.
Arguments m_table {T V} _.

(** The table that owns its samples, and its view. *)
Abbreviation owner_type T := (dndt_lookup_table T (std_vector T)).
Abbreviation view_type T := (dndt_lookup_table T (picsar_span T)).

Definition too_small_what : string :=
  "Binary data is too small                     to be a Quantum Synchrotron G-function lookup-table.".
Definition mismatch_what : string :=
  "Mismatch between RealType used                     to write and to read the Quantum Synchrotron G-function lookup-table".
Definition view_what : string :=
  "Can't generate a view of an                     uninitialized table".
Definition serialize_what : string :=
  "Cannot serialize                     an uninitialized table".

Section params.
Context {T : Type}.

(** [dndt_lookup_table_params::operator==] *)
Definition params_eq `{OpEq T} (a b : dndt_lookup_table_params T) : bool :=
  r_eq (chi_part_min a) (chi_part_min b)
  && r_eq (chi_part_max a) (chi_part_max b)
  && (chi_part_how_many a =? chi_part_how_many b).

(** The bytes of the parameter record: its fields in order, then the
    tail padding the alignment of the scalar asks for. The code copies the
    padding bytes as the record holds them, whatever they are; here they are
    written as zero. The constructor from bytes does not read them. *)
Definition params_used `{Pod T} : nat := (sizeof T + sizeof T + sizeof Z)%nat.
Definition params_padding `{Pod T} : nat :=
  tail_padding params_used (Nat.max (sizeof T) (sizeof Z)).

#[global] Instance params_Pod `{Pod T} : Pod (dndt_lookup_table_params T) := {|
  sizeof := (params_used + params_padding)%nat;
  to_bytes := fun p =>
    to_bytes (chi_part_min p) ++ to_bytes (chi_part_max p)
    ++ to_bytes (chi_part_how_many p) ++ replicate params_padding x00;
  from_bytes := fun l =>
    mk_params
      (from_bytes (take (sizeof T) l))
      (from_bytes (take (sizeof T) (drop (sizeof T) l)))
      (from_bytes (take (sizeof Z) (drop (sizeof T + sizeof T) l)));
  pod_ok := fun p =>
    pod_ok (chi_part_min p) /\ pod_ok (chi_part_max p)
    /\ pod_ok (chi_part_how_many p)
|}.
End params.

Section table.
Context {T : Type}.

(** [dndt_lookup_table(params)]: the table is uninitialized. The vector
    is built with [chi_part_how_many] elements, the count converted to
    [size_t]; memory is not bounded in the model. *)
Definition make `{RealOps T} (params : dndt_lookup_table_params T) : owner_type T :=
  mk_table params false
    (t1d.mk (m_log (chi_part_min params)) (m_log (chi_part_max params))
            (replicate (size_t_of_int (chi_part_how_many params)) r_zero)).

(** [dndt_lookup_table(params, vals)] *)
Definition make_with_vals `{RealOps T} {V : Type}
    (params : dndt_lookup_table_params T) (vals : V) : dndt_lookup_table T V :=
  mk_table params true
    (t1d.mk (m_log (chi_part_min params)) (m_log (chi_part_max params)) vals).

(** [dndt_lookup_table(raw_data)] *)
Definition of_bytes `{Pod T} (raw_data : list byte) : outcome (owner_type T) :=
  let min_size := (sizeof byte + sizeof (dndt_lookup_table_params T))%nat in
  if decide (length raw_data < min_size)%nat
  then Throw (runtime_error too_small_what)
  else
    '(tag, it_raw_data) ← get_out byte raw_data;
    if negb (Byte.eqb tag (realtype_tag T))
    then Throw (runtime_error mismatch_what)
    else
      '(params, it_raw_data) ← get_out (dndt_lookup_table_params T) it_raw_data;
      table ← t1d.of_bytes it_raw_data;
      Ok (mk_table params true table).

(** [operator==] *)
Definition op_eq `{OpEq T} {V : Type} `{VectorType T V}
    (lhs rhs : dndt_lookup_table T V) : bool :=
  params_eq (m_params lhs) (m_params rhs)
  && Bool.eqb (m_init_flag lhs) (m_init_flag rhs)
  && t1d.op_eq (m_table lhs) (m_table rhs).

(** [get_view] *)
Definition get_view `{RealOps T} (tb : owner_type T) : outcome (view_type T) :=
  if negb (m_init_flag tb)
  then Throw (runtime_error view_what)
  else
    let span :=
      mk_span (size_t_of_int (chi_part_how_many (m_params tb)))
              (t1d.get_values_reference (m_table tb)) in
    let view := make_with_vals (m_params tb) span in
    Ok view.

(** [interp(chi_part, is_out)] *)
Definition interp `{RealOps T} `{GridInterp T} {V : Type} `{VectorType T V}
    (tb : dndt_lookup_table T V) (chi_part : T) (is_out : bool_ptr) (h : heap)
  : outcome (T * heap) :=
  '(chi_part, h) ←
    (if r_lt chi_part (chi_part_min (m_params tb)) then
       h ← flag_out is_out h;
       Ok (chi_part_min (m_params tb), h)
     else if r_lt (chi_part_max (m_params tb)) chi_part then
       h ← flag_out is_out h;
       Ok (chi_part_max (m_params tb), h)
     else Ok (chi_part, h));
  Ok (m_exp (t1d.interp (m_table tb) (m_log chi_part)), h).

(** The loop of [set_all_vals]: [todo] holds [vals[i]], [vals[i+1]], ... *)
Fixpoint set_all_vals_loop `{RealOps T}
    (table : t1d.equispaced_1d_table T (std_vector T)) (i : nat) (todo : list T)
  : outcome (t1d.equispaced_1d_table T (std_vector T)) :=
  match todo with
  | [] => Ok table
  | v :: todo' =>
      table' ← t1d.set_val table i (m_log v);
      set_all_vals_loop table' (S i) todo'
  end.

(** [set_all_vals(vals)]: the result and the table after the call. *)
Definition set_all_vals `{RealOps T} (tb : owner_type T) (vals : list T)
  : outcome (bool * owner_type T) :=
  if decide (Z.of_nat (length vals) = t1d.get_how_many_x (m_table tb))
  then
    table ← set_all_vals_loop (m_table tb) 0 vals;
    Ok (true, mk_table (m_params tb) true table)
  else Ok (false, tb).

(** [is_init] *)
Definition is_init {V : Type} (tb : dndt_lookup_table T V) : bool := m_init_flag tb.

(** [serialize]: the result and the table after the call. *)
Definition serialize `{Pod T} (tb : owner_type T) : outcome (list byte) * owner_type T :=
  if negb (m_init_flag tb)
  then (Throw (runtime_error serialize_what), tb)
  else
    let res := [] in
    let res := put_in (realtype_tag T) res in
    let res := put_in (m_params tb) res in
    let tdata := t1d.serialize (m_table tb) in
    (Ok (res ++ tdata), tb).

(** [get_all_coordinates] *)
Definition get_all_coordinates `{RealOps T} {V : Type} `{VectorType T V}
    (tb : dndt_lookup_table T V) : list T :=
  let all_coords := t1d.get_all_coordinates (m_table tb) in
  map (fun a => m_exp a) all_coords.
End table.
End dndt.


(** ** The photon emission table *)

Module photon_emission.

Record photon_emission_lookup_table_params (T : Type) : Type := mk_params {
  chi_part_min : T;       (* Minimum particle chi parameter *)
  chi_part_max : T;       (* Maximum particle chi parameter *)
  frac_min : T;           (* Minimum chi photon fraction to be stored *)
  chi_part_how_many : Z;  (* Number of grid points for particle chi *)
  frac_how_many : Z       (* Number of grid points for photon chi fraction *)
}.
Arguments mk_params {T} _ _ _ _ _.
Arguments chi_part_min {T} _.
Arguments chi_part_max {T} _.
Arguments frac_min {T} _.
Arguments chi_part_how_many {T} _.
Arguments frac_how_many {T} _.

Record photon_emission_lookup_table (T V : Type) : Type := mk_table {
  m_params : photon_emission_lookup_table_params T;   (* Table parameters *)
  m_init_flag : bool;                                 (* Initialization flag *)
  m_table : t2d.equispaced_2d_table T V               (* Table data *)
}.
Arguments mk_table {T V} _ _ _.
Arguments m_params {T V} _.
Arguments m_init_flag {T V} _.
Arguments m_table {T V} _.

Abbreviation owner_type T := (photon_emission_lookup_table T (std_vector T)).
Abbreviation view_type T := (photon_emission_lookup_table T (picsar_span T)).

Definition too_small_what : string :=
  "Binary data is too small                     to be a Quantum Synchrotron emisson lookup-table.".
Definition mismatch_what : string :=
  "Mismatch between RealType                     used to write and to read the Quantum Synchrotron lookup-table".
Definition view_what : string :=
  "Can't generate a view of an                     uninitialized table".
Definition serialize_what : string :=
  "Cannot serialize an unitialized table".

Section params.
Context {T : Type}.

(** [photon_emission_lookup_table_params::operator==] *)
Definition params_eq `{OpEq T} (a b : photon_emission_lookup_table_params T) : bool :=
  r_eq (chi_part_min a) (chi_part_min b)
  && r_eq (chi_part_max a) (chi_part_max b)
  && r_eq (frac_min a) (frac_min b)
  && (chi_part_how_many a =? chi_part_how_many b)
  && (frac_how_many a =? frac_how_many b).

Definition params_used `{Pod T} : nat :=
  (sizeof T + sizeof T + sizeof T + sizeof Z + sizeof Z)%nat.
Definition params_padding `{Pod T} : nat :=
  tail_padding params_used (Nat.max (sizeof T) (sizeof Z)).

#[global] Instance params_Pod `{Pod T} : Pod (photon_emission_lookup_table_params T) := {|
  sizeof := (params_used + params_padding)%nat;
  to_bytes := fun p =>
    to_bytes (chi_part_min p) ++ to_bytes (chi_part_max p)
    ++ to_bytes (frac_min p)
    ++ to_bytes (chi_part_how_many p) ++ to_bytes (frac_how_many p)
    ++ replicate params_padding x00;
  from_bytes := fun l =>
    mk_params
      (from_bytes (take (sizeof T) l))
      (from_bytes (take (sizeof T) (drop (sizeof T) l)))
      (from_bytes (take (sizeof T) (drop (sizeof T + sizeof T) l)))
      (from_bytes (take (sizeof Z) (drop (sizeof T + sizeof T + sizeof T) l)))
      (from_bytes (take (sizeof Z)
                     (drop (sizeof T + sizeof T + sizeof T + sizeof Z) l)));
  pod_ok := fun p =>
    pod_ok (chi_part_min p) /\ pod_ok (chi_part_max p) /\ pod_ok (frac_min p)
    /\ pod_ok (chi_part_how_many p) /\ pod_ok (frac_how_many p)
|}.
End params.

Section table.
Context {T : Type}.

(** [photon_emission_lookup_table(params)]: the table is uninitialized. The
    product of the two counts is taken in [Z]: it is the product of the code
    when it is a value of [int]. *)
Definition make `{RealOps T}
    (params : photon_emission_lookup_table_params T) : owner_type T :=
  mk_table params false
    (t2d.mk (m_log (chi_part_min params)) (m_log (chi_part_max params))
            (m_log (frac_min params)) (m_log r_one)
            (chi_part_how_many params) (frac_how_many params)
            (replicate (size_t_of_int (chi_part_how_many params * frac_how_many params))
                       r_zero)).

(** [photon_emission_lookup_table(params, vals)] *)
Definition make_with_vals `{RealOps T} {V : Type}
    (params : photon_emission_lookup_table_params T) (vals : V)
  : photon_emission_lookup_table T V :=
  mk_table params true
    (t2d.mk (m_log (chi_part_min params)) (m_log (chi_part_max params))
            (m_log (frac_min params)) (m_log r_one)
            (chi_part_how_many params) (frac_how_many params) vals).

(** [photon_emission_lookup_table(raw_data)] *)
Definition of_bytes `{Pod T} (raw_data : list byte) : outcome (owner_type T) :=
  let min_size :=
    (sizeof byte + sizeof (photon_emission_lookup_table_params T))%nat in
  if decide (length raw_data < min_size)%nat
  then Throw (runtime_error too_small_what)
  else
    '(tag, it_raw_data) ← get_out byte raw_data;
    if negb (Byte.eqb tag (realtype_tag T))
    then Throw (runtime_error mismatch_what)
    else
      '(params, it_raw_data) ←
        get_out (photon_emission_lookup_table_params T) it_raw_data;
      table ← t2d.of_bytes it_raw_data;
      Ok (mk_table params true table).

(** [operator==] *)
Definition op_eq `{OpEq T} {V : Type} `{VectorType T V}
    (lhs rhs : photon_emission_lookup_table T V) : bool :=
  params_eq (m_params lhs) (m_params rhs)
  && Bool.eqb (m_init_flag lhs) (m_init_flag rhs)
  && t2d.op_eq (m_table lhs) (m_table rhs).

(** [get_view]. The product of the two counts is taken in [Z]: it is the
    product of the code when it is a value of [int]. *)
Definition get_view `{RealOps T} (tb : owner_type T) : outcome (view_type T) :=
  if negb (m_init_flag tb)
  then Throw (runtime_error view_what)
  else
    let span :=
      mk_span (size_t_of_int (chi_part_how_many (m_params tb)
                              * frac_how_many (m_params tb)))
              (t2d.get_values_reference (m_table tb)) in
    Ok (make_with_vals (m_params tb) span).

(** [interp(chi_part, unf_zero_one_minus_epsi, is_out)] *)
Definition interp `{RealOps T} `{GridInterp T} {V : Type} `{VectorType T V}
    (tb : photon_emission_lookup_table T V)
    (chi_part unf_zero_one_minus_epsi : T) (is_out : bool_ptr) (h : heap)
  : outcome (T * heap) :=
  '(e_chi_part, h) ←
    (if r_lt chi_part (chi_part_min (m_params tb)) then
       h ← flag_out is_out h;
       Ok (chi_part_min (m_params tb), h)
     else if r_lt (chi_part_max (m_params tb)) chi_part then
       h ← flag_out is_out h;
       Ok (chi_part_max (m_params tb), h)
     else Ok (chi_part, h));
  let log_e_chi_part := m_log e_chi_part in
  let log_prob := m_log (r_sub r_one unf_zero_one_minus_epsi) in
  let upper_frac_index :=
    picsar_upper_bound_functor 0 (frac_how_many (m_params tb)) log_prob
      (fun i => t2d.interp_first_coord (m_table tb) log_e_chi_part i) in
  if upper_frac_index =? 0 then
    Ok (r_mul (frac_min (m_params tb)) chi_part, h)
  else if upper_frac_index =? frac_how_many (m_params tb) then
    Ok (chi_part, h)
  else
    let lower_frac_index := upper_frac_index - 1 in
    let upper_log_frac := t2d.get_y_coord (m_table tb) upper_frac_index in
    let lower_log_frac := t2d.get_y_coord (m_table tb) lower_frac_index in
    let lower_log_prob :=
      t2d.interp_first_coord (m_table tb) log_e_chi_part lower_frac_index in
    let upper_log_prob :=
      t2d.interp_first_coord (m_table tb) log_e_chi_part upper_frac_index in
    let log_frac :=
      linear_interp lower_log_prob upper_log_prob lower_log_frac upper_log_frac
        log_prob in
    Ok (r_mul (m_exp log_frac) chi_part, h).

(** The loop of [set_all_vals]: [todo] holds [vals[i]], [vals[i+1]], ... *)
Fixpoint set_all_vals_loop `{RealOps T}
    (table : t2d.equispaced_2d_table T (std_vector T)) (i : nat) (todo : list T)
  : outcome (t2d.equispaced_2d_table T (std_vector T)) :=
  match todo with
  | [] => Ok table
  | v :: todo' =>
      let val := m_log v in
      let val := if r_isinf val then r_lowest else val in
      table' ← t2d.set_val table i val;
      set_all_vals_loop table' (S i) todo'
  end.

(** [set_all_vals(vals)]: the result and the table after the call. The
    product of the two resolutions is taken in [Z]: it is the product of the
    code when it is a value of [int]. *)
Definition set_all_vals `{RealOps T} (tb : owner_type T) (vals : list T)
  : outcome (bool * owner_type T) :=
  if decide (Z.of_nat (length vals)
             = t2d.get_how_many_x (m_table tb) * t2d.get_how_many_y (m_table tb))
  then
    table ← set_all_vals_loop (m_table tb) 0 vals;
    Ok (true, mk_table (m_params tb) true table)
  else Ok (false, tb).

(** [is_init] *)
Definition is_init {V : Type} (tb : photon_emission_lookup_table T V) : bool :=
  m_init_flag tb.

(** [serialize]: the result and the table after the call. *)
Definition serialize `{Pod T} (tb : owner_type T) : outcome (list byte) * owner_type T :=
  if negb (m_init_flag tb)
  then (Throw (runtime_error serialize_what), tb)
  else
    let res := [] in
    let res := put_in (realtype_tag T) res in
    let res := put_in (m_params tb) res in
    let tdata := t2d.serialize (m_table tb) in
    (Ok (res ++ tdata), tb).

(** [get_all_coordinates]: the pairs (chi_particle, chi_photon). *)
Definition get_all_coordinates `{RealOps T} {V : Type} `{VectorType T V}
    (tb : photon_emission_lookup_table T V) : list (T * T) :=
  let all_coords := t2d.get_all_coordinates (m_table tb) in
  map (fun a => (m_exp (fst a), r_mul (m_exp (snd a)) (m_exp (fst a)))) all_coords.
End table.
End photon_emission.


(** ** The data model

    What the constructors from parameters establish and [set_all_vals] keeps:
    the bounds of the grid are the logarithms of the bounds of the
    parameters, and the grid has as many samples as the parameters say. The
    counts are values of [int]. *)

Module dndt_model.
Import dndt.

Section wf.
Context {T V : Type} `{RealOps T} `{VectorType T V}.

(** [chi_part_min < chi_part_max], and a positive number of points. *)
Definition params_wf (p : dndt_lookup_table_params T) : Prop :=
  r_lt (chi_part_min p) (chi_part_max p) = true
  /\ 0 < chi_part_how_many p /\ int_range (chi_part_how_many p).

Definition storage_wf (tb : dndt_lookup_table T V) : Prop :=
  t1d.m_x_min (m_table tb) = m_log (chi_part_min (m_params tb))
  /\ t1d.m_x_max (m_table tb) = m_log (chi_part_max (m_params tb))
  /\ Z.of_nat (length (v_content (t1d.m_values (m_table tb))))
     = chi_part_how_many (m_params tb)
  /\ int_range (chi_part_how_many (m_params tb)).
End wf.
End dndt_model.

Module photon_emission_model.
Import photon_emission.

Section wf.
Context {T V : Type} `{RealOps T} `{VectorType T V}.

(** [chi_part_min < chi_part_max], [0 < frac_min < 1], and positive
    numbers of points. *)
Definition params_wf (p : photon_emission_lookup_table_params T) : Prop :=
  r_lt (chi_part_min p) (chi_part_max p) = true
  /\ r_lt r_zero (frac_min p) = true /\ r_lt (frac_min p) r_one = true
  /\ 0 < chi_part_how_many p /\ 0 < frac_how_many p
  /\ int_range (chi_part_how_many p) /\ int_range (frac_how_many p)
  /\ int_range (chi_part_how_many p * frac_how_many p).

Definition storage_wf (tb : photon_emission_lookup_table T V) : Prop :=
  t2d.m_x_min (m_table tb) = m_log (chi_part_min (m_params tb))
  /\ t2d.m_x_max (m_table tb) = m_log (chi_part_max (m_params tb))
  /\ t2d.m_y_min (m_table tb) = m_log (frac_min (m_params tb))
  /\ t2d.m_y_max (m_table tb) = m_log r_one
  /\ t2d.m_how_many_x (m_table tb) = chi_part_how_many (m_params tb)
  /\ t2d.m_how_many_y (m_table tb) = frac_how_many (m_params tb)
  /\ Z.of_nat (length (v_content (t2d.m_values (m_table tb))))
     = chi_part_how_many (m_params tb) * frac_how_many (m_params tb)
  /\ int_range (chi_part_how_many (m_params tb))
  /\ int_range (frac_how_many (m_params tb))
  /\ int_range (chi_part_how_many (m_params tb) * frac_how_many (m_params tb)).
End wf.
End photon_emission_model.

(** The order of the scalar type: [<] is a strict order (two values may be
    unordered, as a NaN is with every value). *)
Class RealOrder (T : Type) `{RealOps T} : Prop := {
  r_lt_irrefl : forall x : T, r_lt x x = false;
  r_lt_trans : forall x y z : T, r_lt x y = true -> r_lt y z = true -> r_lt x z = true
}.

(** ** Exact arithmetic

    The scalar type read as the real numbers: no rounding, no overflow, no
    special values. What is proved at this type only is said to hold in
    exact arithmetic; [double] below rounds. *)

(** Modelled from the spec: [math::m_log] and [math::m_exp] of
    cmath_overloads.hpp are not among the sources; they are the "natural
    logarithm" and its inverse, here [ln] and [exp] of the real numbers. *)

Module ideal.
Definition Rltb (x y : R) : bool := if Rlt_dec x y then true else false.
Definition Reqb (x y : R) : bool := if Req_dec_T x y then true else false.

(** [lowest()] of [double]. *)
Definition lowest : R := (- ((2 - / 2 ^ 52) * 2 ^ 1023))%R.

#[global] Instance real_RealOps : RealOps R := {|
  r_lt := Rltb;
  r_add := Rplus;
  r_sub := Rminus;
  r_mul := Rmult;
  r_div := Rdiv;
  r_of_int := IZR;
  r_zero := 0%R;
  r_one := 1%R;
  m_log := ln;
  m_exp := exp;
  r_isinf := fun _ => false;
  r_lowest := lowest
|}.

#[global] Instance real_OpEq : OpEq R := Reqb.

(** Modelled from the spec: the interpolation of the equispaced tables
    "locates the two bracketing grid points by uniform-spacing arithmetic
    (no search needed since spacing is constant), linearly interpolates
    between their stored values". [row] is the sequence of [n] samples along
    the axis between [x_min] and [x_max]. *)
Definition x_coord (x_min x_max : R) (n i : Z) : R :=
  (IZR i * (x_max - x_min) / IZR (n - 1) + x_min)%R.

Definition interp_row (x_min x_max : R) (n : Z) (row : Z -> R) (where_x : R) : R :=
  let idx_left := Int_part (IZR (n - 1) * (where_x - x_min) / (x_max - x_min)) in
  if idx_left =? n - 1 then row idx_left
  else
    let idx_right := idx_left + 1 in
    linear_interp (x_coord x_min x_max n idx_left) (x_coord x_min x_max n idx_right)
                  (row idx_left) (row idx_right) where_x.

Definition sample (vals : list R) (i : Z) : R := nth (Z.to_nat i) vals 0%R.

#[global] Instance real_GridInterp : GridInterp R := {|
  interp_1d := fun x_min x_max vals where_x =>
    interp_row x_min x_max (Z.of_nat (length vals)) (sample vals) where_x;
  interp_first_coord_2d := fun x_min x_max y_min y_max nx ny vals where_x j =>
    interp_row x_min x_max nx (fun i => sample vals (i * ny + j)) where_x
|}.
End ideal.


(** ** Notions the statements use *)

(** The value [interp] evaluates the table at: [chi_part] brought into
    [[chi_min, chi_max]] the way both [interp] do it. *)
Definition clamped {T : Type} `{RealOps T} (chi_min chi_max chi_part : T) : T :=
  if r_lt chi_part chi_min then chi_min
  else if r_lt chi_max chi_part then chi_max
  else chi_part.

(** An [is_out] pointer the caller may pass: null, or the address of one of
    its bools. *)
Definition valid_ptr (is_out : bool_ptr) (h : heap) : Prop :=
  match is_out with
  | None => True
  | Some a => (a < length h)%nat
  end.

(** The caller's bools after a call that found [chi_part] out of the table. *)
Definition flagged (is_out : bool_ptr) (h : heap) : heap :=
  match is_out with
  | None => h
  | Some a => <[a:=true]> h
  end.

Module photon_emission_terms.
Import photon_emission.

Section terms.
Context {T V : Type} `{RealOps T} `{GridInterp T} `{VectorType T V}.

(** The index the search of [interp] returns when the table is evaluated
    at [e_chi_part]. *)
Definition upper_frac_index (tb : photon_emission_lookup_table T V)
    (e_chi_part unf_zero_one_minus_epsi : T) : Z :=
  picsar_upper_bound_functor 0 (frac_how_many (m_params tb))
    (m_log (r_sub r_one unf_zero_one_minus_epsi))
    (fun i => t2d.interp_first_coord (m_table tb) (m_log e_chi_part) i).

(** [log_frac] of [interp], for the upper index [k]. *)
Definition log_frac (tb : photon_emission_lookup_table T V)
    (e_chi_part unf_zero_one_minus_epsi : T) (k : Z) : T :=
  linear_interp
    (t2d.interp_first_coord (m_table tb) (m_log e_chi_part) (k - 1))
    (t2d.interp_first_coord (m_table tb) (m_log e_chi_part) k)
    (t2d.get_y_coord (m_table tb) (k - 1))
    (t2d.get_y_coord (m_table tb) k)
    (m_log (r_sub r_one unf_zero_one_minus_epsi)).
End terms.
End photon_emission_terms.


(** ** Tables used as examples *)

Module examples.
Local Open Scope R_scope.

(** A dN/dt table over the reals, with eight samples. *)
Definition rate_params : dndt.dndt_lookup_table_params R :=
  dndt.mk_params (/ 1000) 1000 8.

Definition rate_table : dndt.owner_type R :=
  dndt.make_with_vals rate_params [1; 2; 3; 4; 5; 6; 7; 8].

(** A photon emission table over the reals: two rows of four samples. *)
Definition emission_params : photon_emission.photon_emission_lookup_table_params R :=
  photon_emission.mk_params (/ 1000) 1000 (/ 10 ^ 12) 2 4.

Definition emission_table : photon_emission.owner_type R :=
  photon_emission.make_with_vals emission_params
    [-3; -2; -1; 0; -3; -2; -1; 0].
End examples.


(** ** Exact arithmetic with the special values

    The real numbers with the two infinities and NaN: the special values of
    the floating point types over exact finite values (no rounding, no signed
    zero). *)

Module extended.

Inductive xreal : Type :=
| Fin (r : R)
| PInf
| NInf
| NaN.

Definition signed_inf (positive : bool) : xreal := if positive then PInf else NInf.

(** An infinity of the given sign times (or divided by) the finite [x]. *)
Definition inf_times (positive : bool) (x : R) : xreal :=
  if Req_dec_T x 0 then NaN
  else if Rlt_dec 0 x then signed_inf positive
  else signed_inf (negb positive).

Definition lt (a b : xreal) : bool :=
  match a, b with
  | Fin x, Fin y => ideal.Rltb x y
  | NInf, Fin _ | NInf, PInf | Fin _, PInf => true
  | _, _ => false
  end.

Definition eq (a b : xreal) : bool :=
  match a, b with
  | Fin x, Fin y => ideal.Reqb x y
  | PInf, PInf | NInf, NInf => true
  | _, _ => false
  end.

Definition opp (a : xreal) : xreal :=
  match a with
  | Fin x => Fin (- x)
  | PInf => NInf
  | NInf => PInf
  | NaN => NaN
  end.

Definition add (a b : xreal) : xreal :=
  match a, b with
  | NaN, _ | _, NaN => NaN
  | Fin x, Fin y => Fin (x + y)
  | PInf, NInf | NInf, PInf => NaN
  | PInf, _ | _, PInf => PInf
  | NInf, _ | _, NInf => NInf
  end.

Definition sub (a b : xreal) : xreal := add a (opp b).

Definition mul (a b : xreal) : xreal :=
  match a, b with
  | NaN, _ | _, NaN => NaN
  | Fin x, Fin y => Fin (x * y)
  | Fin x, PInf | PInf, Fin x => inf_times true x
  | Fin x, NInf | NInf, Fin x => inf_times false x
  | PInf, PInf | NInf, NInf => PInf
  | PInf, NInf | NInf, PInf => NInf
  end.

Definition div (a b : xreal) : xreal :=
  match a, b with
  | NaN, _ | _, NaN => NaN
  | Fin x, Fin y => if Req_dec_T y 0 then inf_times true x else Fin (x / y)
  | Fin _, PInf | Fin _, NInf => Fin 0
  | PInf, Fin y => if Req_dec_T y 0 then PInf else inf_times true y
  | NInf, Fin y => if Req_dec_T y 0 then NInf else inf_times false y
  | _, _ => NaN
  end.

(** Modelled from the spec: [math::m_log] of cmath_overloads.hpp is not among
    the sources; it is the "natural log", with the values of the C library
    at zero, at the infinities and at NaN. *)
Definition log (a : xreal) : xreal :=
  match a with
  | Fin x => if Req_dec_T x 0 then NInf else if Rlt_dec 0 x then Fin (ln x) else NaN
  | PInf => PInf
  | NInf | NaN => NaN
  end.

(** Modelled from the spec: [math::m_exp] of cmath_overloads.hpp is not among
    the sources; it is the exponential, the inverse of the natural log. *)
Definition exp (a : xreal) : xreal :=
  match a with
  | Fin x => Fin (Rtrigo_def.exp x)
  | PInf => PInf
  | NInf => Fin 0
  | NaN => NaN
  end.

Definition isinf (a : xreal) : bool :=
  match a with
  | PInf | NInf => true
  | _ => false
  end.

#[global] Instance xreal_RealOps : RealOps xreal := {|
  r_lt := lt;
  r_add := add;
  r_sub := sub;
  r_mul := mul;
  r_div := div;
  r_of_int := fun z => Fin (IZR z);
  r_zero := Fin 0;
  r_one := Fin 1;
  m_log := log;
  m_exp := exp;
  r_isinf := isinf;
  r_lowest := Fin ideal.lowest
|}.

#[global] Instance xreal_OpEq : OpEq xreal := eq.

(** An uninitialized photon emission table with one row of two samples. *)
Definition small_params : photon_emission.photon_emission_lookup_table_params xreal :=
  photon_emission.mk_params (Fin (/ 1000)) (Fin 1000) (Fin (/ 10 ^ 12)) 1 2.

Definition small_table : photon_emission.owner_type xreal :=
  photon_emission.make small_params.

End extended.


(** ** The two precisions, as bytes

    A [float] or a [double] as the bytes it has in memory, the least
    significant first. [operator==] reads them as IEEE 754 does: a NaN is
    equal to nothing, the two zeros are equal, and any other two values are
    equal when their bytes are. *)

Module ieee.

Record binary32 : Type := mk32 {
  f0 : byte; f1 : byte; f2 : byte; f3 : byte
}.

Record binary64 : Type := mk64 {
  d0 : byte; d1 : byte; d2 : byte; d3 : byte;
  d4 : byte; d5 : byte; d6 : byte; d7 : byte
}.

(** The unsigned integer a sequence of bytes encodes. *)
Fixpoint bits_of (l : list byte) : Z :=
  match l with
  | [] => 0
  | b :: l' => Z_of_byte b + 256 * bits_of l'
  end.

(** For [ebits] exponent bits and [mbits] mantissa bits. *)
Definition is_nan (ebits mbits u : Z) : bool :=
  ((u / 2 ^ mbits) mod 2 ^ ebits =? 2 ^ ebits - 1) && negb (u mod 2 ^ mbits =? 0).

Definition is_zero (ebits mbits u : Z) : bool :=
  u mod 2 ^ (ebits + mbits) =? 0.

Definition ieee_eq (ebits mbits u v : Z) : bool :=
  negb (is_nan ebits mbits u) && negb (is_nan ebits mbits v)
  && ((u =? v) || (is_zero ebits mbits u && is_zero ebits mbits v)).

#[global] Instance binary32_Pod : Pod binary32 := {|
  sizeof := 4;
  to_bytes := fun x => [f0 x; f1 x; f2 x; f3 x];
  from_bytes := fun l =>
    match l with
    | a :: b :: c :: d :: _ => mk32 a b c d
    | _ => mk32 x00 x00 x00 x00
    end;
  pod_ok := fun _ => True
|}.

#[global] Instance binary64_Pod : Pod binary64 := {|
  sizeof := 8;
  to_bytes := fun x => [d0 x; d1 x; d2 x; d3 x; d4 x; d5 x; d6 x; d7 x];
  from_bytes := fun l =>
    match l with
    | a :: b :: c :: d :: e :: f :: g :: h :: _ => mk64 a b c d e f g h
    | _ => mk64 x00 x00 x00 x00 x00 x00 x00 x00
    end;
  pod_ok := fun _ => True
|}.

#[global] Instance binary32_OpEq : OpEq binary32 :=
  fun x y => ieee_eq 8 23 (bits_of (to_bytes x)) (bits_of (to_bytes y)).

#[global] Instance binary64_OpEq : OpEq binary64 :=
  fun x y => ieee_eq 11 52 (bits_of (to_bytes x)) (bits_of (to_bytes y)).

(** An initialized dN/dt table of [double]: [chi_part] from 0.001 to 1000,
    the bounds of the grid their logarithms, the two samples 1.0 and 2.0. *)
Definition stored_rate_table : dndt.owner_type binary64 :=
  dndt.mk_table
    (dndt.mk_params (mk64 xfc xa9 xf1 xd2 x4d x62 x50 x3f)
                    (mk64 x00 x00 x00 x00 x00 x40 x8f x40) 2)
    true
    (t1d.mk (mk64 xa0 xff x8f x99 x8a xa1 x1b xc0)
            (mk64 xa0 xff x8f x99 x8a xa1 x1b x40)
            [mk64 x00 x00 x00 x00 x00 x00 xf0 x3f;
             mk64 x00 x00 x00 x00 x00 x00 x00 x40]).

(** An initialized photon emission table of [float]: [chi_part] from 0.001 to
    1000, [frac_min] 1e-12, one row of two samples, -1.0 and 0.0. *)
Definition stored_emission_table : photon_emission.owner_type binary32 :=
  photon_emission.mk_table
    (photon_emission.mk_params (mk32 x6f x12 x83 x3a) (mk32 x00 x00 x7a x44)
                               (mk32 xcc xbc x8c x2b) 1 2)
    true
    (t2d.mk (mk32 x55 x0c xdd xc0) (mk32 x55 x0c xdd x40)
            (mk32 x55 x0c xdd xc1) (mk32 x00 x00 x00 x00) 1 2
            [mk32 x00 x00 x80 xbf; mk32 x00 x00 x00 x00]).

(** The same tables before their samples are there. *)
Definition empty_rate_table : dndt.owner_type binary64 :=
  dndt.mk_table (dndt.m_params stored_rate_table) false
    (t1d.mk (t1d.m_x_min (dndt.m_table stored_rate_table))
            (t1d.m_x_max (dndt.m_table stored_rate_table))
            [mk64 x00 x00 x00 x00 x00 x00 x00 x00;
             mk64 x00 x00 x00 x00 x00 x00 x00 x00]).

Definition empty_emission_table : photon_emission.owner_type binary32 :=
  photon_emission.mk_table (photon_emission.m_params stored_emission_table) false
    (t2d.mk (mk32 x55 x0c xdd xc0) (mk32 x55 x0c xdd x40)
            (mk32 x55 x0c xdd xc1) (mk32 x00 x00 x00 x00) 1 2
            [mk32 x00 x00 x00 x00; mk32 x00 x00 x00 x00]).

(** An initialized dN/dt table of [double] with a NaN among its samples, such
    as [set_all_vals] stores for a negative input value. *)
Definition nan_rate_table : dndt.owner_type binary64 :=
  dndt.mk_table (dndt.m_params stored_rate_table) true
    (t1d.mk (t1d.m_x_min (dndt.m_table stored_rate_table))
            (t1d.m_x_max (dndt.m_table stored_rate_table))
            [mk64 x00 x00 x00 x00 x00 x00 xf8 x7f;
             mk64 x00 x00 x00 x00 x00 x00 x00 x40]).

(** An initialized photon emission table of [float] whose [chi_part_min] is
    a NaN. *)
Definition nan_emission_table : photon_emission.owner_type binary32 :=
  photon_emission.mk_table
    (photon_emission.mk_params (mk32 x00 x00 xc0 x7f) (mk32 x00 x00 x7a x44)
                               (mk32 xcc xbc x8c x2b) 1 2)
    true
    (t2d.mk (mk32 x00 x00 xc0 x7f) (mk32 x55 x0c xdd x40)
            (mk32 x55 x0c xdd xc1) (mk32 x00 x00 x00 x00) 1 2
            [mk32 x00 x00 x80 xbf; mk32 x00 x00 x00 x00]).

End ieee.


(** ** Tables that can be written as bytes

    Every scalar and every count of the table is a value of its type, and
    the grid of the photon emission table holds as many samples as its
    resolutions say. *)

Definition dndt_storable {T : Type} `{Pod T} (tb : dndt.owner_type T) : Prop :=
  pod_ok (dndt.m_params tb)
  /\ pod_ok (t1d.m_x_min (dndt.m_table tb)) /\ pod_ok (t1d.m_x_max (dndt.m_table tb))
  /\ Forall pod_ok (t1d.m_values (dndt.m_table tb))
  /\ int_range (Z.of_nat (length (t1d.m_values (dndt.m_table tb)))).

Definition photon_storable {T : Type} `{Pod T} (tb : photon_emission.owner_type T) : Prop :=
  pod_ok (photon_emission.m_params tb)
  /\ pod_ok (t2d.m_x_min (photon_emission.m_table tb))
  /\ pod_ok (t2d.m_x_max (photon_emission.m_table tb))
  /\ pod_ok (t2d.m_y_min (photon_emission.m_table tb))
  /\ pod_ok (t2d.m_y_max (photon_emission.m_table tb))
  /\ int_range (t2d.m_how_many_x (photon_emission.m_table tb))
  /\ int_range (t2d.m_how_many_y (photon_emission.m_table tb))
  /\ Forall pod_ok (t2d.m_values (photon_emission.m_table tb))
  /\ Z.of_nat (length (t2d.m_values (photon_emission.m_table tb)))
     = t2d.m_how_many_x (photon_emission.m_table tb)
       * t2d.m_how_many_y (photon_emission.m_table tb).


(** ** The default parameters

    The constants of the source, read in exact arithmetic. *)

Module defaults.
Local Open Scope R_scope.

Definition default_chi_part_min : R := 1 / 1000.     (* 1.0e-3 *)
Definition default_chi_part_max : R := 1000.         (* 1.0e3 *)
Definition default_chi_part_how_many : Z := 256.
Definition default_frac_how_many : Z := 256.
Definition default_frac_min : R := 1 / 10 ^ 12.      (* 1e-12 *)

Definition default_dndt_lookup_table_params : dndt.dndt_lookup_table_params R :=
  dndt.mk_params default_chi_part_min default_chi_part_max default_chi_part_how_many.

Definition default_photon_emission_lookup_table_params
  : photon_emission.photon_emission_lookup_table_params R :=
  photon_emission.mk_params default_chi_part_min default_chi_part_max default_frac_min
    default_chi_part_how_many default_frac_how_many.
End defaults.

(** [==] of the scalar type does not depend on the order of its operands. *)
Class OpEqSym (T : Type) `{OpEq T} : Prop :=
  r_eq_sym : forall x y : T, r_eq x y = r_eq y x.

(** The signs that the arithmetic of the scalar type keeps, rounding or not:
    the product of two values that are not below zero is not below zero, and
    an exponential is not below zero. With the comparisons of IEEE 754 a NaN
    is below nothing. *)
Class RealSign (T : Type) `{RealOps T} : Prop := {
  r_mul_not_below_zero : forall a b : T,
    r_lt a r_zero = false -> r_lt b r_zero = false -> r_lt (r_mul a b) r_zero = false;
  m_exp_not_below_zero : forall a : T, r_lt (m_exp a) r_zero = false
}.


(** ** Double precision

    The scalar type read as [double]: the binary64 numbers of IEEE 754 with
    their rounding to nearest, as the primitive floating-point numbers have
    them. *)

Module double.
Import PrimFloat FloatOps SpecFloat.

(** The conversion of an [int] to [double], which is exact. *)
Definition of_int (z : Z) : float :=
  if z <? 0 then PrimFloat.opp (PrimFloat.of_uint63 (Uint63.of_Z (- z)))
  else PrimFloat.of_uint63 (Uint63.of_Z z).

(** The logarithm and the exponential are computed in fixed point, with
    [frac_bits] bits after the point, and rounded to the nearest [double]. *)
Definition frac_bits : Z := 192.

Definition round_fixed (m e : Z) : float :=
  SF2Prim (binary_normalize prec emax m e false).

(** [atanh(a/b)] in fixed point, by its series; [|a/b| <= 1/3]. *)
Fixpoint atanh_terms (n : nat) (k pow a2 b2 : Z) : Z :=
  match n with
  | O => 0
  | S n' => pow / (2 * k + 1) + atanh_terms n' (k + 1) (pow * a2 / b2) a2 b2
  end.

Definition atanh_fixed (a b : Z) : Z :=
  atanh_terms 80 0 (a * 2 ^ frac_bits / b) (a * a) (b * b).

Definition ln2_fixed : Z := 2 * atanh_fixed 1 3.

(** Modelled from the spec: [math::m_log] of cmath_overloads.hpp is not among
    the sources; it is the "natural log", which the C library returns to
    within a unit in the last place and which is rounded to the nearest
    [double] here: for a positive [x = f * 2^n] with [f] in [[3/4, 3/2)],
    [n * ln 2 + 2 * atanh((f-1)/(f+1))]; minus infinity at zero, NaN below
    zero. *)
Definition log (x : float) : float :=
  match Prim2SF x with
  | S754_nan => nan
  | S754_zero _ => neg_infinity
  | S754_infinity false => infinity
  | S754_infinity true => nan
  | S754_finite true _ _ => nan
  | S754_finite false m e =>
      let l := Z.log2 (Z.pos m) in
      let l := if 2 * Z.pos m <? 3 * 2 ^ l then l else l + 1 in
      let c := 2 ^ l in
      round_fixed ((e + l) * ln2_fixed + 2 * atanh_fixed (Z.pos m - c) (Z.pos m + c))
                  (- frac_bits)
  end.

(** The series of the exponential in fixed point. *)
Fixpoint exp_terms (n : nat) (j term r : Z) : Z :=
  match n with
  | O => 0
  | S n' => term + exp_terms n' (j + 1) (term * r / 2 ^ frac_bits / j) r
  end.

(** Modelled from the spec: [math::m_exp] of cmath_overloads.hpp is not among
    the sources; it is the exponential, the inverse of the natural log,
    rounded to the nearest [double] as [log] is: for [x = k * ln 2 + r] with
    [|r| <= ln 2 / 2], [2^k * exp(r)]; infinity and zero where the result
    leaves the range of [double]. *)
Definition exp (x : float) : float :=
  match Prim2SF x with
  | S754_nan => nan
  | S754_zero _ => one
  | S754_infinity false => infinity
  | S754_infinity true => zero
  | S754_finite s m e =>
      if 11 <=? Z.log2 (Z.pos m) + e then (if s then zero else infinity)
      else
        let a := Z.shiftl (Z.pos m) (e + frac_bits) in
        let a := if s then - a else a in
        let k := (2 * a + ln2_fixed) / (2 * ln2_fixed) in
        let r := a - k * ln2_fixed in
        round_fixed (exp_terms 60 1 (2 ^ frac_bits) r) (k - frac_bits)
  end.

Definition isinf (x : float) : bool := PrimFloat.eqb (PrimFloat.abs x) infinity.

(** [lowest()] of [double]. *)
Definition lowest : float := (-0x1.fffffffffffffp+1023)%float.

#[global] Instance double_RealOps : RealOps float | 10 := {|
  r_lt := PrimFloat.ltb;
  r_add := PrimFloat.add;
  r_sub := PrimFloat.sub;
  r_mul := PrimFloat.mul;
  r_div := PrimFloat.div;
  r_of_int := of_int;
  r_zero := zero;
  r_one := one;
  m_log := log;
  m_exp := exp;
  r_isinf := isinf;
  r_lowest := lowest
|}.

#[global] Instance double_OpEq : OpEq float | 10 := PrimFloat.eqb.

(** [static_cast<int>(floor(x))] for a finite [x]. *)
Definition floor_int (x : float) : Z :=
  match Prim2SF x with
  | S754_finite s m e =>
      let n := if s then Z.neg m else Z.pos m in
      if 0 <=? e then n * 2 ^ e else n / 2 ^ (- e)
  | _ => 0
  end.

(** Modelled from the spec: the interpolation of the equispaced tables, as
    [ideal.interp_row] has it, every operation rounded as [double] rounds
    it. *)
Definition x_coord (x_min x_max : float) (n i : Z) : float :=
  (of_int i * (x_max - x_min) / of_int (n - 1) + x_min)%float.

Definition interp_row (x_min x_max : float) (n : Z) (row : Z -> float) (where_x : float)
  : float :=
  let idx_left := floor_int (of_int (n - 1) * (where_x - x_min) / (x_max - x_min))%float in
  if idx_left =? n - 1 then row idx_left
  else
    let idx_right := idx_left + 1 in
    linear_interp (x_coord x_min x_max n idx_left) (x_coord x_min x_max n idx_right)
                  (row idx_left) (row idx_right) where_x.

Definition sample (vals : list float) (i : Z) : float := nth (Z.to_nat i) vals zero.

#[global] Instance double_GridInterp : GridInterp float | 10 := {|
  interp_1d := fun x_min x_max vals where_x =>
    interp_row x_min x_max (Z.of_nat (length vals)) (sample vals) where_x;
  interp_first_coord_2d := fun x_min x_max y_min y_max nx ny vals where_x j =>
    interp_row x_min x_max nx (fun i => sample vals (i * ny + j)) where_x
|}.

(** A photon emission table of [double]: [chi_part] from 0.001 to 1000,
    [frac_min] 1e-12, two points on each axis; both rows hold the
    log-probabilities -11 and 0. *)
Definition steep_params : photon_emission.photon_emission_lookup_table_params float :=
  photon_emission.mk_params 0x1.0624dd2f1a9fcp-10%float 1000%float
                            0x1.19799812dea11p-40%float 2 2.

Definition steep_table : photon_emission.owner_type float :=
  photon_emission.make_with_vals steep_params [(-11)%float; 0%float; (-11)%float; 0%float].

(** The draw [2^-53], the smallest above zero that [1 - u] tells from 1. *)
Definition small_draw : float := 0x1p-53%float.

Definition thousand : float := 1000%float.

(** 1000.0000000000035, 31 units in the last place above 1000. *)
Definition above_thousand : float := 0x1.f40000000001fp+9%float.
End double.

(** * Properties *)

(** ** Byte copies *)

Lemma Z_of_byte_of_Z (z : Z) : Z_of_byte (byte_of_Z z) = z mod 256.
Proof.
  unfold Z_of_byte, byte_of_Z.
  pose proof (Z.mod_pos_bound z 256 ltac:(lia)) as Hb.
  destruct (Byte.of_N (Z.to_N (z mod 256))) as [b|] eqn:E.
  - apply Byte.to_of_N in E. rewrite E. lia.
  - apply Byte.of_N_None_iff in E. lia.
Qed.

Lemma byte_of_Z_of_byte (b : byte) : byte_of_Z (Z_of_byte b) = b.
Proof.
  unfold Z_of_byte, byte_of_Z.
  pose proof (Byte.to_N_bounded b) as Hb.
  rewrite Z.mod_small by lia.
  rewrite N2Z.id, Byte.of_to_N. reflexivity.
Qed.

#[export] Instance char_PodLaws : PodLaws byte.
Proof. split; reflexivity. Qed.

Lemma int_from_to_bytes (z : Z) : int_range z -> int_from_bytes (int_to_bytes z) = z.
Proof.
  unfold int_range, int_from_bytes, int_to_bytes. intros Hz.
  rewrite !Z_of_byte_of_Z.
  change (2 ^ 8) with 256 in *. change (2 ^ 16) with (256 * 256).
  change (2 ^ 24) with (256 * 256 * 256).
  change (2 ^ 31) with 2147483648 in *. change (2 ^ 32) with 4294967296.
  rewrite <- !Z.div_div by lia.
  pose proof (Z.div_mod z 256 ltac:(lia)) as E0.
  pose proof (Z.div_mod (z / 256) 256 ltac:(lia)) as E1.
  pose proof (Z.div_mod (z / 256 / 256) 256 ltac:(lia)) as E2.
  pose proof (Z.div_mod (z / 256 / 256 / 256) 256 ltac:(lia)) as E3.
  pose proof (Z.mod_pos_bound z 256 ltac:(lia)).
  pose proof (Z.mod_pos_bound (z / 256) 256 ltac:(lia)).
  pose proof (Z.mod_pos_bound (z / 256 / 256) 256 ltac:(lia)).
  pose proof (Z.mod_pos_bound (z / 256 / 256 / 256) 256 ltac:(lia)).
  destruct (Z.ltb_spec
    (z mod 256 + 256 * ((z / 256) mod 256) + 256 * 256 * ((z / 256 / 256) mod 256)
     + 256 * 256 * 256 * ((z / 256 / 256 / 256) mod 256)) 2147483648); lia.
Qed.

#[export] Instance int_PodLaws : PodLaws Z.
Proof. split; [reflexivity | exact int_from_to_bytes]. Qed.

Lemma get_out_to_bytes {A : Type} `{PodLaws A} (a : A) (rest : list byte) :
  pod_ok a -> get_out A (to_bytes a ++ rest) = Ok (a, rest).
Proof.
  intros Ha. unfold get_out.
  rewrite length_app, length_to_bytes.
  destruct (decide (sizeof A + length rest < sizeof A)%nat) as [Hlt|_]; [lia|].
  rewrite <- (length_to_bytes a) at 1 2.
  rewrite take_app_length, drop_app_length, from_to_bytes by assumption.
  reflexivity.
Qed.

Lemma get_n_out_to_bytes {A : Type} `{PodLaws A} (l : list A) (rest : list byte) :
  Forall pod_ok l ->
  get_n_out A (concat (map to_bytes l) ++ rest) (length l) = Ok (l, rest).
Proof.
  induction 1 as [|a l Ha Hl IH]; simpl; [reflexivity|].
  rewrite <- app_assoc, get_out_to_bytes by assumption. simpl.
  rewrite IH. reflexivity.
Qed.


(** ** The bisection *)

Section algo_props.
Context {T : Type} `{RealOps T}.

(** Whatever [f] is, the index the bisection returns is in range, the
    value is not below [f] just before it, and it is below [f] at it. *)
Lemma upper_bound_loop_spec (val : T) (f : Z -> T) (count : nat) :
  forall first : Z,
    let k := upper_bound_loop val f first count in
    first <= k <= first + Z.of_nat count
    /\ (k <> first -> r_lt val (f (k - 1)) = false)
    /\ (k <> first + Z.of_nat count -> r_lt val (f k) = true).
Proof.
  induction count as [count IH] using lt_wf_ind. intros first.
  destruct count as [|n]; simp upper_bound_loop.
  - cbn zeta. repeat split; lia.
  - set (step := (S n / 2)%nat).
    assert (Hstep : (step < S n)%nat)
      by (apply Nat.div_lt; lia).
    destruct (r_lt val (f (first + Z.of_nat step))) eqn:Hprobe; cbn [negb].
    + specialize (IH step Hstep first). cbn zeta in IH.
      destruct IH as (Hrange & Hleft & Hright). cbn zeta.
      repeat split; try lia; [exact Hleft|].
      intros Hk.
      destruct (decide (upper_bound_loop val f first step = first + Z.of_nat step))
        as [->|Hne]; [exact Hprobe | exact (Hright Hne)].
    + specialize (IH (S n - (step + 1))%nat ltac:(lia) (first + Z.of_nat step + 1)).
      cbn zeta in IH. destruct IH as (Hrange & Hleft & Hright). cbn zeta.
      repeat split; try lia.
      * intros _.
        destruct (decide (upper_bound_loop val f (first + Z.of_nat step + 1)
                            (S n - (step + 1)) = first + Z.of_nat step + 1))
          as [->|Hne]; [|exact (Hleft Hne)].
        replace (first + Z.of_nat step + 1 - 1) with (first + Z.of_nat step) by lia.
        exact Hprobe.
      * intros Hk. apply Hright. lia.
Qed.

Lemma picsar_upper_bound_functor_spec (first last : Z) (val : T) (f : Z -> T) :
  first <= last ->
  let k := picsar_upper_bound_functor first last val f in
  first <= k <= last
  /\ (k <> first -> r_lt val (f (k - 1)) = false)
  /\ (k <> last -> r_lt val (f k) = true).
Proof.
  intros Hle. unfold picsar_upper_bound_functor.
  pose proof (upper_bound_loop_spec val f (Z.to_nat (last - first)) first) as Hs.
  cbn zeta in *. rewrite Z2Nat.id in Hs by lia.
  replace (first + (last - first)) with last in Hs by lia. exact Hs.
Qed.
End algo_props.

(** ** The guarded write through [is_out] *)

Lemma flag_out_nullptr (h : heap) : flag_out nullptr h = Ok h.
Proof. reflexivity. Qed.

Lemma flag_out_valid (a : nat) (h : heap) :
  (a < length h)%nat -> flag_out (Some a) h = Ok (<[a:=true]> h).
Proof.
  intros Ha. unfold flag_out, store. cbn.
  destruct (decide (a < length h)%nat); [reflexivity | contradiction].
Qed.

(** A write through [is_out] never turns a bool into [false]. *)
Lemma flag_out_no_false (is_out : bool_ptr) (h h' : heap) (a : nat) :
  flag_out is_out h = Ok h' -> h' !! a = Some false -> h !! a = Some false.
Proof.
  unfold flag_out, store. destruct is_out as [b|]; cbn.
  - destruct (decide (b < length h)%nat) as [Hb|Hb]; [|discriminate].
    intros [= <-]. destruct (decide (a = b)) as [->|Hne].
    + rewrite list_lookup_insert_eq by assumption. discriminate.
    + rewrite list_lookup_insert_ne by auto. trivial.
  - intros [= <-]. trivial.
Qed.


(** ** [interp] of both tables, by the position of [chi_part] *)

Lemma flag_out_flagged (is_out : bool_ptr) (h : heap) :
  valid_ptr is_out h -> flag_out is_out h = Ok (flagged is_out h).
Proof.
  destruct is_out as [a|]; cbn; intros Hv.
  - apply flag_out_valid, Hv.
  - reflexivity.
Qed.

Section interp_props.
Context {T V : Type} `{RealOps T} `{GridInterp T} `{VectorType T V}.

Lemma clamped_below (lo hi chi : T) : r_lt chi lo = true -> clamped lo hi chi = lo.
Proof. unfold clamped. intros ->. reflexivity. Qed.

Lemma clamped_above (lo hi chi : T) :
  r_lt chi lo = false -> r_lt hi chi = true -> clamped lo hi chi = hi.
Proof. unfold clamped. intros -> ->. reflexivity. Qed.

Lemma clamped_inside (lo hi chi : T) :
  r_lt chi lo = false -> r_lt hi chi = false -> clamped lo hi chi = chi.
Proof. unfold clamped. intros -> ->. reflexivity. Qed.

(** *** dN/dt *)

Lemma dndt_interp_inside (tb : dndt.dndt_lookup_table T V) (chi_part : T)
    (is_out : bool_ptr) (h : heap) :
  r_lt chi_part (dndt.chi_part_min (dndt.m_params tb)) = false ->
  r_lt (dndt.chi_part_max (dndt.m_params tb)) chi_part = false ->
  dndt.interp tb chi_part is_out h
  = Ok (m_exp (t1d.interp (dndt.m_table tb) (m_log chi_part)), h).
Proof. unfold dndt.interp. intros -> ->. reflexivity. Qed.

Lemma dndt_interp_outside (tb : dndt.dndt_lookup_table T V) (chi_part : T)
    (is_out : bool_ptr) (h : heap) :
  r_lt chi_part (dndt.chi_part_min (dndt.m_params tb)) = true
  \/ r_lt (dndt.chi_part_max (dndt.m_params tb)) chi_part = true ->
  dndt.interp tb chi_part is_out h
  = (h' ← flag_out is_out h;
     Ok (m_exp (t1d.interp (dndt.m_table tb)
                  (m_log (clamped (dndt.chi_part_min (dndt.m_params tb))
                                  (dndt.chi_part_max (dndt.m_params tb)) chi_part))),
         h')).
Proof.
  unfold dndt.interp, clamped. intros Hout.
  destruct (r_lt chi_part _) eqn:Hlo.
  - destruct (flag_out is_out h); reflexivity.
  - destruct Hout as [Hout | ->]; [discriminate|].
    destruct (flag_out is_out h); reflexivity.
Qed.

(** *** Photon emission *)

Import photon_emission photon_emission_terms.

(** What [interp] returns once the table has been evaluated at
    [e_chi_part]. *)
Lemma photon_interp_cases (tb : photon_emission_lookup_table T V)
    (chi_part u : T) (is_out : bool_ptr) (h : heap) :
  let e := clamped (chi_part_min (m_params tb)) (chi_part_max (m_params tb)) chi_part in
  let k := upper_frac_index tb e u in
  interp tb chi_part u is_out h
  = (h' ← (if r_lt chi_part (chi_part_min (m_params tb))
              || r_lt (chi_part_max (m_params tb)) chi_part
           then flag_out is_out h else Ok h);
     Ok (if k =? 0 then r_mul (frac_min (m_params tb)) chi_part
         else if k =? frac_how_many (m_params tb) then chi_part
         else r_mul (m_exp (log_frac tb e u k)) chi_part, h')).
Proof.
  cbn zeta. unfold interp, clamped, upper_frac_index, log_frac.
  destruct (r_lt chi_part _) eqn:Hlo; cbn [orb].
  - destruct (flag_out is_out h); cbn; [|reflexivity..].
    repeat (destruct (_ =? _); [reflexivity|]). reflexivity.
  - destruct (r_lt _ chi_part) eqn:Hhi; cbn.
    + destruct (flag_out is_out h); cbn; [|reflexivity..].
      repeat (destruct (_ =? _); [reflexivity|]). reflexivity.
    + repeat (destruct (_ =? _); [reflexivity|]). reflexivity.
Qed.
End interp_props.


(** ** The order of the reals *)

Lemma Rltb_true (x y : R) : ideal.Rltb x y = true <-> (x < y)%R.
Proof. unfold ideal.Rltb. destruct (Rlt_dec x y); split; intros; try lra; discriminate. Qed.

Lemma Rltb_false (x y : R) : ideal.Rltb x y = false <-> (y <= x)%R.
Proof. unfold ideal.Rltb. destruct (Rlt_dec x y); split; intros; try lra; discriminate. Qed.

#[global] Instance real_RealOrder : RealOrder R.
Proof.
  split; cbn.
  - intros x. apply Rltb_false. lra.
  - intros x y z Hxy Hyz. apply Rltb_true in Hxy, Hyz. apply Rltb_true. lra.
Qed.

Ltac real_order :=
  cbn; repeat match goal with
  | |- ideal.Rltb _ _ = true => apply Rltb_true
  | |- ideal.Rltb _ _ = false => apply Rltb_false
  | |- _ /\ _ => split
  end; try lra; try lia.

Section order_props.
Context {T : Type} `{RealOrder T}.

Lemma r_lt_asym (x y : T) : r_lt x y = true -> r_lt y x = false.
Proof.
  intros Hxy. destruct (r_lt y x) eqn:Hyx; [|reflexivity].
  pose proof (r_lt_trans _ _ _ Hxy Hyx) as Hxx.
  rewrite r_lt_irrefl in Hxx. discriminate.
Qed.

End order_props.

(** ** Clamping of the dN/dt table *)

(** C3. For a dN/dt table whose bounds are not inverted (as when
    [chi_part_min < chi_part_max]) and every [chi_part < chi_part_min],
    [interp(chi_part)] returns the value [interp(chi_part_min)] returns, and
    the bool behind a non-null [is_out] is set to true; for every
    [chi_part > chi_part_max] it returns the value of [interp(chi_part_max)],
    with the bool set to true. *)
Theorem dndt_interp_clamping {T V : Type} `{RealOrder T} `{GridInterp T} `{VectorType T V}
    (tb : dndt.dndt_lookup_table T V) (chi_part : T) (is_out : bool_ptr) (h : heap) :
  r_lt (dndt.chi_part_max (dndt.m_params tb)) (dndt.chi_part_min (dndt.m_params tb)) = false ->
  valid_ptr is_out h ->
  (r_lt chi_part (dndt.chi_part_min (dndt.m_params tb)) = true ->
   exists v,
     dndt.interp tb chi_part is_out h = Ok (v, flagged is_out h)
     /\ (forall q h0,
           dndt.interp tb (dndt.chi_part_min (dndt.m_params tb)) q h0 = Ok (v, h0))
     /\ (forall a, is_out = Some a -> flagged is_out h !! a = Some true))
  /\ (r_lt (dndt.chi_part_max (dndt.m_params tb)) chi_part = true ->
      exists v,
        dndt.interp tb chi_part is_out h = Ok (v, flagged is_out h)
        /\ (forall q h0,
              dndt.interp tb (dndt.chi_part_max (dndt.m_params tb)) q h0 = Ok (v, h0))
        /\ (forall a, is_out = Some a -> flagged is_out h !! a = Some true)).
Proof.
  intros Hbounds Hptr.
  assert (Hflag : forall a, is_out = Some a -> flagged is_out h !! a = Some true).
  { intros a ->. cbn in *. apply list_lookup_insert_eq. exact Hptr. }
  split; intros Hout.
  - eexists. split; [|split; [|exact Hflag]].
    + rewrite dndt_interp_outside by (left; exact Hout).
      rewrite flag_out_flagged by exact Hptr. cbn.
      rewrite clamped_below by exact Hout. reflexivity.
    + intros q h0. apply dndt_interp_inside; [apply r_lt_irrefl | exact Hbounds].
  - assert (Hlo : r_lt chi_part (dndt.chi_part_min (dndt.m_params tb)) = false).
    { destruct (r_lt chi_part (dndt.chi_part_min (dndt.m_params tb))) eqn:Hlo;
        [|reflexivity].
      rewrite <- Hbounds. symmetry. exact (r_lt_trans _ _ _ Hout Hlo). }
    eexists. split; [|split; [|exact Hflag]].
    + rewrite dndt_interp_outside by (right; exact Hout).
      rewrite flag_out_flagged by exact Hptr. cbn.
      rewrite clamped_above by assumption. reflexivity.
    + intros q h0. apply dndt_interp_inside; [exact Hbounds | apply r_lt_irrefl].
Qed.

Lemma dndt_interp_clamping_witness :
  r_lt (dndt.chi_part_max (dndt.m_params examples.rate_table))
       (dndt.chi_part_min (dndt.m_params examples.rate_table)) = false
  /\ valid_ptr (Some 0%nat) [false]
  /\ r_lt (/ 2000)%R (dndt.chi_part_min (dndt.m_params examples.rate_table)) = true
  /\ exists v,
       dndt.interp examples.rate_table (/ 2000)%R (Some 0%nat) [false] = Ok (v, [true])
       /\ (forall q h0,
             dndt.interp examples.rate_table
               (dndt.chi_part_min (dndt.m_params examples.rate_table)) q h0 = Ok (v, h0))
       /\ (forall a, Some 0%nat = Some a -> [true] !! a = Some true).
Proof.
  assert (Hb : r_lt (dndt.chi_part_max (dndt.m_params examples.rate_table))
                    (dndt.chi_part_min (dndt.m_params examples.rate_table)) = false)
    by real_order.
  assert (Hp : valid_ptr (Some 0%nat) [false]) by (cbn; lia).
  assert (Hc : r_lt (/ 2000)%R (dndt.chi_part_min (dndt.m_params examples.rate_table)) = true)
    by real_order.
  split; [exact Hb|]. split; [exact Hp|]. split; [exact Hc|].
  exact (proj1 (dndt_interp_clamping examples.rate_table (/ 2000)%R (Some 0%nat) [false] Hb Hp) Hc).
Defined.


(** ** The [is_out] parameter *)

Section is_out_props.
Context {T V : Type} `{RealOps T} `{GridInterp T} `{VectorType T V}.

Lemma dndt_interp_no_false (tb : dndt.dndt_lookup_table T V) (chi_part : T)
    (is_out : bool_ptr) (h h' : heap) (v : T) (a : nat) :
  dndt.interp tb chi_part is_out h = Ok (v, h') ->
  h' !! a = Some false -> h !! a = Some false.
Proof.
  destruct (r_lt chi_part (dndt.chi_part_min (dndt.m_params tb))) eqn:Hlo;
    [|destruct (r_lt (dndt.chi_part_max (dndt.m_params tb)) chi_part) eqn:Hhi].
  1, 2: rewrite dndt_interp_outside by auto;
    destruct (flag_out is_out h) as [h1| |] eqn:Hf; cbn; try discriminate;
    intros [= _ <-]; exact (flag_out_no_false _ _ _ _ Hf).
  rewrite dndt_interp_inside by assumption. intros [= _ <-]. trivial.
Qed.

Lemma dndt_interp_nullptr (tb : dndt.dndt_lookup_table T V) (chi_part : T) (h : heap) :
  exists v, dndt.interp tb chi_part nullptr h = Ok (v, h).
Proof.
  destruct (r_lt chi_part (dndt.chi_part_min (dndt.m_params tb))) eqn:Hlo;
    [|destruct (r_lt (dndt.chi_part_max (dndt.m_params tb)) chi_part) eqn:Hhi].
  1, 2: rewrite dndt_interp_outside by auto; cbn; eexists; reflexivity.
  rewrite dndt_interp_inside by assumption. eexists; reflexivity.
Qed.

Lemma photon_interp_inside (tb : photon_emission.photon_emission_lookup_table T V)
    (chi_part u : T) (is_out : bool_ptr) (h : heap) :
  r_lt chi_part (photon_emission.chi_part_min (photon_emission.m_params tb)) = false ->
  r_lt (photon_emission.chi_part_max (photon_emission.m_params tb)) chi_part = false ->
  exists v, photon_emission.interp tb chi_part u is_out h = Ok (v, h).
Proof.
  intros Hlo Hhi. rewrite photon_interp_cases, Hlo, Hhi. cbn. eexists; reflexivity.
Qed.

Lemma photon_interp_no_false (tb : photon_emission.photon_emission_lookup_table T V)
    (chi_part u : T) (is_out : bool_ptr) (h h' : heap) (v : T) (a : nat) :
  photon_emission.interp tb chi_part u is_out h = Ok (v, h') ->
  h' !! a = Some false -> h !! a = Some false.
Proof.
  rewrite photon_interp_cases.
  destruct (_ || _).
  - destruct (flag_out is_out h) as [h1| |] eqn:Hf; cbn; try discriminate.
    intros [= _ <-]. exact (flag_out_no_false _ _ _ _ Hf).
  - cbn. intros [= _ <-]. trivial.
Qed.

Lemma photon_interp_nullptr (tb : photon_emission.photon_emission_lookup_table T V)
    (chi_part u : T) (h : heap) :
  exists v, photon_emission.interp tb chi_part u nullptr h = Ok (v, h).
Proof.
  rewrite photon_interp_cases. destruct (_ || _); cbn; eexists; reflexivity.
Qed.
End is_out_props.

(** C9. For both tables, [interp] never writes false through [is_out]: when
    [chi_part] is neither below [chi_part_min] nor above [chi_part_max], the
    caller's bools are what they were (whatever [is_out] is); no call turns a
    bool into false; and with a null [is_out] every call returns, leaving the
    caller's bools as they were: a null pointer is never written through. *)
Theorem interp_is_out_frame {T V : Type} `{RealOps T} `{GridInterp T} `{VectorType T V} :
  (forall (tb : dndt.dndt_lookup_table T V) (chi_part : T) (is_out : bool_ptr) (h : heap),
     (r_lt chi_part (dndt.chi_part_min (dndt.m_params tb)) = false ->
      r_lt (dndt.chi_part_max (dndt.m_params tb)) chi_part = false ->
      exists v, dndt.interp tb chi_part is_out h = Ok (v, h))
     /\ (forall v h' a,
           dndt.interp tb chi_part is_out h = Ok (v, h') ->
           h' !! a = Some false -> h !! a = Some false)
     /\ (exists v, dndt.interp tb chi_part nullptr h = Ok (v, h)))
  /\ (forall (tb : photon_emission.photon_emission_lookup_table T V) (chi_part u : T)
        (is_out : bool_ptr) (h : heap),
        (r_lt chi_part (photon_emission.chi_part_min (photon_emission.m_params tb)) = false ->
         r_lt (photon_emission.chi_part_max (photon_emission.m_params tb)) chi_part = false ->
         exists v, photon_emission.interp tb chi_part u is_out h = Ok (v, h))
        /\ (forall v h' a,
              photon_emission.interp tb chi_part u is_out h = Ok (v, h') ->
              h' !! a = Some false -> h !! a = Some false)
        /\ (exists v, photon_emission.interp tb chi_part u nullptr h = Ok (v, h))).
Proof.
  split.
  - intros tb chi_part is_out h. split; [|split].
    + intros Hlo Hhi. eexists. apply dndt_interp_inside; assumption.
    + intros v h' a. apply dndt_interp_no_false.
    + apply dndt_interp_nullptr.
  - intros tb chi_part u is_out h. split; [|split].
    + apply photon_interp_inside.
    + intros v h' a. apply photon_interp_no_false.
    + apply photon_interp_nullptr.
Qed.

Lemma interp_is_out_frame_witness :
  (r_lt 1%R (dndt.chi_part_min (dndt.m_params examples.rate_table)) = false
   /\ r_lt (dndt.chi_part_max (dndt.m_params examples.rate_table)) 1%R = false
   /\ exists v, dndt.interp examples.rate_table 1%R (Some 0%nat) [false] = Ok (v, [false]))
  /\ (r_lt 1%R (photon_emission.chi_part_min
                  (photon_emission.m_params examples.emission_table)) = false
      /\ r_lt (photon_emission.chi_part_max
                 (photon_emission.m_params examples.emission_table)) 1%R = false
      /\ exists v, photon_emission.interp examples.emission_table 1%R (/ 2)%R
                     (Some 0%nat) [false] = Ok (v, [false])).
Proof.
  pose proof (@interp_is_out_frame R (list R) _ _ _) as [Hrate Hemission].
  split.
  - assert (Hlo : r_lt 1%R (dndt.chi_part_min (dndt.m_params examples.rate_table)) = false)
      by real_order.
    assert (Hhi : r_lt (dndt.chi_part_max (dndt.m_params examples.rate_table)) 1%R = false)
      by real_order.
    split; [exact Hlo|]. split; [exact Hhi|].
    exact (proj1 (Hrate examples.rate_table 1%R (Some 0%nat) [false]) Hlo Hhi).
  - assert (Hlo : r_lt 1%R (photon_emission.chi_part_min
                              (photon_emission.m_params examples.emission_table)) = false)
      by real_order.
    assert (Hhi : r_lt (photon_emission.chi_part_max
                          (photon_emission.m_params examples.emission_table)) 1%R = false)
      by real_order.
    split; [exact Hlo|]. split; [exact Hhi|].
    exact (proj1 (Hemission examples.emission_table 1%R (/ 2)%R (Some 0%nat) [false]) Hlo Hhi).
Defined.


(** ** The search when [f] is everywhere on one side of the value *)

Section search_props.
Context {T : Type} `{RealOps T}.

Lemma upper_bound_past_the_end (first last : Z) (val : T) (f : Z -> T) :
  first <= last ->
  (forall i, first <= i < last -> r_lt val (f i) = false) ->
  picsar_upper_bound_functor first last val f = last.
Proof.
  intros Hle Hall.
  destruct (picsar_upper_bound_functor_spec first last val f Hle) as (Hr & _ & Hright).
  destruct (decide (picsar_upper_bound_functor first last val f = last)) as [|Hne];
    [assumption|].
  specialize (Hright Hne). rewrite Hall in Hright by lia. discriminate.
Qed.

Lemma upper_bound_at_the_start (first last : Z) (val : T) (f : Z -> T) :
  first <= last ->
  (forall i, first <= i < last -> r_lt val (f i) = true) ->
  picsar_upper_bound_functor first last val f = first.
Proof.
  intros Hle Hall.
  destruct (picsar_upper_bound_functor_spec first last val f Hle) as (Hr & Hleft & _).
  destruct (decide (picsar_upper_bound_functor first last val f = first)) as [|Hne];
    [assumption|].
  specialize (Hleft Hne). rewrite Hall in Hleft by lia. discriminate.
Qed.
End search_props.

(** ** The interpolation of the reals at the upper bound of the axis *)

Lemma interp_row_at_x_max (x_min x_max : R) (n : Z) (row : Z -> R) :
  (x_min < x_max)%R -> ideal.interp_row x_min x_max n row x_max = row (n - 1).
Proof.
  intros Hlt. unfold ideal.interp_row.
  replace (Int_part (IZR (n - 1) * (x_max - x_min) / (x_max - x_min))) with (n - 1).
  - rewrite Z.eqb_refl. reflexivity.
  - apply Int_part_spec.
    replace (IZR (n - 1) * (x_max - x_min) / (x_max - x_min))%R with (IZR (n - 1))
      by (field; lra).
    lra.
Qed.

(** ** The unclamped [chi_part] in the results of the photon emission table *)

Section scaling.
Context {T V : Type} `{RealOps T} `{GridInterp T} `{VectorType T V}.
Import photon_emission photon_emission_terms.

Lemma photon_interp_outside (tb : photon_emission_lookup_table T V)
    (chi_part u : T) (is_out : bool_ptr) (h : heap) :
  valid_ptr is_out h ->
  r_lt chi_part (chi_part_min (m_params tb)) = true
  \/ r_lt (chi_part_max (m_params tb)) chi_part = true ->
  let e := clamped (chi_part_min (m_params tb)) (chi_part_max (m_params tb)) chi_part in
  let k := upper_frac_index tb e u in
  interp tb chi_part u is_out h
  = Ok (if k =? 0 then r_mul (frac_min (m_params tb)) chi_part
        else if k =? frac_how_many (m_params tb) then chi_part
        else r_mul (m_exp (log_frac tb e u k)) chi_part, flagged is_out h).
Proof.
  intros Hptr Hout. cbn zeta. rewrite photon_interp_cases. cbn zeta.
  replace (r_lt chi_part (chi_part_min (m_params tb))
           || r_lt (chi_part_max (m_params tb)) chi_part) with true
    by (destruct Hout as [-> | ->]; [reflexivity | symmetry; apply orb_true_r]).
  rewrite flag_out_flagged by exact Hptr. reflexivity.
Qed.

Lemma photon_interp_value (tb : photon_emission_lookup_table T V) (chi_part u : T) (h : heap) :
  let e := clamped (chi_part_min (m_params tb)) (chi_part_max (m_params tb)) chi_part in
  let k := upper_frac_index tb e u in
  interp tb chi_part u nullptr h
  = Ok (if k =? 0 then r_mul (frac_min (m_params tb)) chi_part
        else if k =? frac_how_many (m_params tb) then chi_part
        else r_mul (m_exp (log_frac tb e u k)) chi_part, h).
Proof.
  cbn zeta. rewrite photon_interp_cases. cbn zeta.
  destruct (_ || _); reflexivity.
Qed.
End scaling.

(** C10. In [interp] of the photon emission table the clamped [chi_part] is
    used for the evaluation of the table only (the search and [log_frac]);
    every result is taken with the [chi_part] of the call. Above
    [chi_part_max] the saturated result is [chi_part] itself, out of the
    table the result for the index 0 is [frac_min * chi_part], and two
    values of [chi_part] out of the table on the same side get the same
    factor: the result scales linearly with [chi_part]. *)
Theorem photon_interp_scales_with_chi_part
    {T V : Type} `{RealOps T} `{GridInterp T} `{VectorType T V}
    (tb : photon_emission.photon_emission_lookup_table T V) (u : T) :
  let chi_min := photon_emission.chi_part_min (photon_emission.m_params tb) in
  let chi_max := photon_emission.chi_part_max (photon_emission.m_params tb) in
  let frac_min := photon_emission.frac_min (photon_emission.m_params tb) in
  let frac_how_many := photon_emission.frac_how_many (photon_emission.m_params tb) in
  (forall chi_part h,
     let e := clamped chi_min chi_max chi_part in
     let k := photon_emission_terms.upper_frac_index tb e u in
     photon_emission.interp tb chi_part u nullptr h
     = Ok (if k =? 0 then r_mul frac_min chi_part
           else if k =? frac_how_many then chi_part
           else r_mul (m_exp (photon_emission_terms.log_frac tb e u k)) chi_part, h))
  /\ (forall chi_part is_out h,
        valid_ptr is_out h ->
        r_lt chi_part chi_min = false -> r_lt chi_max chi_part = true ->
        photon_emission_terms.upper_frac_index tb chi_max u <> 0 ->
        photon_emission_terms.upper_frac_index tb chi_max u = frac_how_many ->
        photon_emission.interp tb chi_part u is_out h = Ok (chi_part, flagged is_out h))
  /\ (forall chi_part is_out h,
        valid_ptr is_out h ->
        r_lt chi_part chi_min = true \/ r_lt chi_max chi_part = true ->
        photon_emission_terms.upper_frac_index tb (clamped chi_min chi_max chi_part) u = 0 ->
        photon_emission.interp tb chi_part u is_out h
        = Ok (r_mul frac_min chi_part, flagged is_out h))
  /\ (forall chi1 chi2 h,
        (r_lt chi1 chi_min = true /\ r_lt chi2 chi_min = true)
        \/ (r_lt chi1 chi_min = false /\ r_lt chi_max chi1 = true
            /\ r_lt chi2 chi_min = false /\ r_lt chi_max chi2 = true) ->
        (photon_emission.interp tb chi1 u nullptr h = Ok (chi1, h)
         /\ photon_emission.interp tb chi2 u nullptr h = Ok (chi2, h))
        \/ exists frac,
             photon_emission.interp tb chi1 u nullptr h = Ok (r_mul frac chi1, h)
             /\ photon_emission.interp tb chi2 u nullptr h = Ok (r_mul frac chi2, h)).
Proof.
  cbn zeta. split; [|split; [|split]].
  - intros chi_part h. apply photon_interp_value.
  - intros chi_part is_out h Hptr Hlo Hhi Hk0 HkN.
    rewrite photon_interp_outside by auto. cbn zeta.
    rewrite clamped_above by assumption.
    destruct (Z.eqb_spec (photon_emission_terms.upper_frac_index tb
                (photon_emission.chi_part_max (photon_emission.m_params tb)) u) 0);
      [contradiction|].
    rewrite HkN, Z.eqb_refl. reflexivity.
  - intros chi_part is_out h Hptr Hout Hk0.
    rewrite photon_interp_outside by auto. cbn zeta.
    rewrite Hk0. reflexivity.
  - intros chi1 chi2 h Hside.
    assert (He : clamped (photon_emission.chi_part_min (photon_emission.m_params tb))
                   (photon_emission.chi_part_max (photon_emission.m_params tb)) chi1
                 = clamped (photon_emission.chi_part_min (photon_emission.m_params tb))
                     (photon_emission.chi_part_max (photon_emission.m_params tb)) chi2).
    { destruct Hside as [[Hb1 Hb2] | (Ha1 & Ha1' & Ha2 & Ha2')].
      - rewrite !clamped_below by assumption. reflexivity.
      - rewrite !clamped_above by assumption. reflexivity. }
    rewrite !photon_interp_value. cbn zeta. rewrite He.
    destruct (_ =? 0).
    + right. eexists. split; reflexivity.
    + destruct (_ =? _).
      * left. split; reflexivity.
      * right. eexists. split; reflexivity.
Qed.


(** The search in the example table, evaluated at its upper bound, for the
    draw 0: the value [log(1 - 0)] is below no sample of the row. *)
Lemma emission_table_row_at_max (i : Z) :
  0 <= i < 4 ->
  t2d.interp_first_coord (photon_emission.m_table examples.emission_table) (ln 1000) i
  = ideal.sample [-3; -2; -1; 0; -3; -2; -1; 0]%R (1 * 4 + i).
Proof.
  intros Hi. unfold t2d.interp_first_coord. cbn.
  rewrite interp_row_at_x_max; [reflexivity|].
  apply ln_increasing; lra.
Qed.

Lemma emission_table_saturated :
  photon_emission_terms.upper_frac_index examples.emission_table 1000%R 0%R = 4.
Proof.
  unfold photon_emission_terms.upper_frac_index.
  change (photon_emission.frac_how_many (photon_emission.m_params examples.emission_table))
    with 4.
  apply upper_bound_past_the_end; [lia|].
  intros i Hi. change (m_log 1000%R) with (ln 1000).
  rewrite emission_table_row_at_max by exact Hi.
  cbn [m_log r_sub r_one r_lt ideal.real_RealOps].
  replace (1 - 0)%R with 1%R by lra. rewrite ln_1.
  apply Rltb_false.
  assert (Hcases : i = 0 \/ i = 1 \/ i = 2 \/ i = 3) by lia.
  destruct Hcases as [-> | [-> | [-> | ->]]]; vm_compute; lra.
Qed.

Lemma photon_interp_scales_with_chi_part_witness :
  valid_ptr (Some 0%nat) [false]
  /\ r_lt 2000%R (photon_emission.chi_part_min
                    (photon_emission.m_params examples.emission_table)) = false
  /\ r_lt (photon_emission.chi_part_max
             (photon_emission.m_params examples.emission_table)) 2000%R = true
  /\ photon_emission_terms.upper_frac_index examples.emission_table
       (photon_emission.chi_part_max (photon_emission.m_params examples.emission_table))
       0%R <> 0
  /\ photon_emission_terms.upper_frac_index examples.emission_table
       (photon_emission.chi_part_max (photon_emission.m_params examples.emission_table))
       0%R
     = photon_emission.frac_how_many (photon_emission.m_params examples.emission_table)
  /\ photon_emission.interp examples.emission_table 2000%R 0%R (Some 0%nat) [false]
     = Ok (2000%R, [true]).
Proof.
  assert (Hp : valid_ptr (Some 0%nat) [false]) by (cbn; lia).
  assert (Hlo : r_lt 2000%R (photon_emission.chi_part_min
                    (photon_emission.m_params examples.emission_table)) = false)
    by real_order.
  assert (Hhi : r_lt (photon_emission.chi_part_max
             (photon_emission.m_params examples.emission_table)) 2000%R = true)
    by real_order.
  pose proof emission_table_saturated as Hk.
  change 1000%R with (photon_emission.chi_part_max
             (photon_emission.m_params examples.emission_table)) in Hk.
  assert (Hk0 : photon_emission_terms.upper_frac_index examples.emission_table
       (photon_emission.chi_part_max (photon_emission.m_params examples.emission_table))
       0%R <> 0) by (rewrite Hk; lia).
  repeat (split; [assumption|]).
  exact (proj1 (proj2 (photon_interp_scales_with_chi_part examples.emission_table 0%R))
           2000%R (Some 0%nat) [false] Hp Hlo Hhi Hk0 Hk).
Defined.


(** ** [set_all_vals] *)

(** Writing [x] at [i] and then [new] from [i + 1] on is writing [x :: new]
    from [i] on. *)
Lemma overwrite_step {A : Type} (l new : list A) (i n : nat) (x : A) :
  n = length new ->
  (i + S n <= length l)%nat ->
  take (S i) (<[i:=x]> l) ++ new ++ drop (S (i + n)) (<[i:=x]> l)
  = take i l ++ x :: new ++ drop (i + S n) l.
Proof.
  intros -> Hlen.
  rewrite (take_S_r _ i x) by (apply list_lookup_insert_eq; lia).
  rewrite take_insert_ge by lia. rewrite drop_insert_lt by lia.
  replace (i + S (length new))%nat with (S (i + length new)) by lia.
  rewrite <- app_assoc. reflexivity.
Qed.

Section set_all_vals_props.
Context {T : Type} `{RealOps T}.

Lemma dndt_set_all_vals_loop_ok (todo : list T) :
  forall (table : t1d.equispaced_1d_table T (list T)) (i : nat),
    (i + length todo <= length (t1d.m_values table))%nat ->
    dndt.set_all_vals_loop table i todo
    = Ok (t1d.mk (t1d.m_x_min table) (t1d.m_x_max table)
            (take i (t1d.m_values table) ++ map m_log todo
             ++ drop (i + length todo) (t1d.m_values table))).
Proof.
  induction todo as [|v todo IH]; intros table i Hlen; cbn [dndt.set_all_vals_loop].
  - cbn. rewrite Nat.add_0_r, take_drop. destruct table; reflexivity.
  - cbn [length] in Hlen. unfold t1d.set_val.
    destruct (decide (i < length (t1d.m_values table))%nat) as [_|Hge]; [|lia].
    cbn. rewrite IH by (cbn; rewrite length_insert; lia). cbn.
    do 2 f_equal.
    apply overwrite_step; [symmetry; apply length_map | lia].
Qed.

Lemma dndt_set_all_vals_ok (tb : dndt.owner_type T) (vals : list T) :
  Z.of_nat (length vals) = t1d.get_how_many_x (dndt.m_table tb) ->
  dndt.set_all_vals tb vals
  = Ok (true, dndt.mk_table (dndt.m_params tb) true
                (t1d.mk (t1d.m_x_min (dndt.m_table tb)) (t1d.m_x_max (dndt.m_table tb))
                        (map m_log vals))).
Proof.
  intros Hlen. unfold dndt.set_all_vals.
  destruct (decide _) as [_|Hne]; [|contradiction].
  unfold t1d.get_how_many_x, v_content, std_vector_VectorType in Hlen.
  rewrite dndt_set_all_vals_loop_ok by lia. cbn.
  rewrite drop_ge by lia. rewrite app_nil_r. reflexivity.
Qed.

Lemma photon_set_all_vals_loop_ok (todo : list T) :
  forall (table : t2d.equispaced_2d_table T (list T)) (i : nat),
    (i + length todo <= length (t2d.m_values table))%nat ->
    photon_emission.set_all_vals_loop table i todo
    = Ok (t2d.mk (t2d.m_x_min table) (t2d.m_x_max table)
            (t2d.m_y_min table) (t2d.m_y_max table)
            (t2d.m_how_many_x table) (t2d.m_how_many_y table)
            (take i (t2d.m_values table)
             ++ map (fun v => if r_isinf (m_log v) then r_lowest else m_log v) todo
             ++ drop (i + length todo) (t2d.m_values table))).
Proof.
  induction todo as [|v todo IH]; intros table i Hlen;
    cbn [photon_emission.set_all_vals_loop].
  - cbn. rewrite Nat.add_0_r, take_drop. destruct table; reflexivity.
  - cbn [length] in Hlen. cbn zeta. unfold t2d.set_val.
    destruct (decide (i < length (t2d.m_values table))%nat) as [_|Hge]; [|lia].
    cbn. rewrite IH by (cbn; rewrite length_insert; lia). cbn.
    do 2 f_equal.
    apply overwrite_step; [symmetry; apply length_map | lia].
Qed.

Lemma photon_set_all_vals_ok (tb : photon_emission.owner_type T) (vals : list T) :
  length (t2d.m_values (photon_emission.m_table tb)) = length vals ->
  Z.of_nat (length vals)
  = t2d.get_how_many_x (photon_emission.m_table tb)
    * t2d.get_how_many_y (photon_emission.m_table tb) ->
  photon_emission.set_all_vals tb vals
  = Ok (true, photon_emission.mk_table (photon_emission.m_params tb) true
                (t2d.mk (t2d.m_x_min (photon_emission.m_table tb))
                        (t2d.m_x_max (photon_emission.m_table tb))
                        (t2d.m_y_min (photon_emission.m_table tb))
                        (t2d.m_y_max (photon_emission.m_table tb))
                        (t2d.m_how_many_x (photon_emission.m_table tb))
                        (t2d.m_how_many_y (photon_emission.m_table tb))
                        (map (fun v => if r_isinf (m_log v) then r_lowest else m_log v)
                             vals))).
Proof.
  intros Hstore Hlen. unfold photon_emission.set_all_vals.
  destruct (decide _) as [_|Hne]; [|contradiction].
  rewrite photon_set_all_vals_loop_ok by lia. cbn.
  rewrite drop_ge by lia. rewrite app_nil_r. reflexivity.
Qed.
End set_all_vals_props.

(** C4. For both tables, when the length of the input vector is not the
    number of elements of the grid, [set_all_vals] returns false and leaves
    the table as it was: every sample and the initialization flag. For the
    photon emission table the number of elements is the product of the two
    resolutions, which the code takes in [int]: it is to be a value of
    [int]. For a table that follows the data model the number of elements of
    the grid is [chi_part_how_many], and [chi_part_how_many * frac_how_many]
    for the photon emission table. *)
Theorem set_all_vals_wrong_length {T : Type} `{RealOps T} :
  (forall (tb : dndt.owner_type T) (vals : list T),
     (Z.of_nat (length vals) <> t1d.get_how_many_x (dndt.m_table tb) ->
      dndt.set_all_vals tb vals = Ok (false, tb))
     /\ (dndt_model.storage_wf tb ->
         Z.of_nat (length vals) <> dndt.chi_part_how_many (dndt.m_params tb) ->
         dndt.set_all_vals tb vals = Ok (false, tb)))
  /\ (forall (tb : photon_emission.owner_type T) (vals : list T),
        (int_range (t2d.get_how_many_x (photon_emission.m_table tb)
                    * t2d.get_how_many_y (photon_emission.m_table tb)) ->
         Z.of_nat (length vals)
         <> t2d.get_how_many_x (photon_emission.m_table tb)
            * t2d.get_how_many_y (photon_emission.m_table tb) ->
         photon_emission.set_all_vals tb vals = Ok (false, tb))
        /\ (photon_emission_model.storage_wf tb ->
            Z.of_nat (length vals)
            <> photon_emission.chi_part_how_many (photon_emission.m_params tb)
               * photon_emission.frac_how_many (photon_emission.m_params tb) ->
            photon_emission.set_all_vals tb vals = Ok (false, tb))).
Proof.
  split; intros tb vals.
  - assert (Hgrid : Z.of_nat (length vals) <> t1d.get_how_many_x (dndt.m_table tb) ->
                    dndt.set_all_vals tb vals = Ok (false, tb)).
    { intros Hne. unfold dndt.set_all_vals.
      destruct (decide _) as [Heq|_]; [contradiction | reflexivity]. }
    split; [exact Hgrid|].
    intros (_ & _ & Hcount & _) Hne. apply Hgrid.
    unfold t1d.get_how_many_x. rewrite Hcount. exact Hne.
  - assert (Hgrid : Z.of_nat (length vals)
                    <> t2d.get_how_many_x (photon_emission.m_table tb)
                       * t2d.get_how_many_y (photon_emission.m_table tb) ->
                    photon_emission.set_all_vals tb vals = Ok (false, tb)).
    { intros Hne. unfold photon_emission.set_all_vals.
      destruct (decide _) as [Heq|_]; [contradiction | reflexivity]. }
    split; [intros _; exact Hgrid|].
    intros (_ & _ & _ & _ & Hx & Hy & _) Hne. apply Hgrid.
    unfold t2d.get_how_many_x, t2d.get_how_many_y. rewrite Hx, Hy. exact Hne.
Qed.

Lemma set_all_vals_wrong_length_witness :
  (Z.of_nat (length [1; 2; 3]%R) <> t1d.get_how_many_x (dndt.m_table examples.rate_table)
   /\ dndt.set_all_vals examples.rate_table [1; 2; 3]%R = Ok (false, examples.rate_table))
  /\ (int_range (t2d.get_how_many_x (photon_emission.m_table examples.emission_table)
                 * t2d.get_how_many_y (photon_emission.m_table examples.emission_table))
      /\ Z.of_nat (length [1; 2; 3]%R)
         <> t2d.get_how_many_x (photon_emission.m_table examples.emission_table)
            * t2d.get_how_many_y (photon_emission.m_table examples.emission_table)
      /\ photon_emission.set_all_vals examples.emission_table [1; 2; 3]%R
         = Ok (false, examples.emission_table)).
Proof.
  pose proof (@set_all_vals_wrong_length R _) as [Hrate Hemission].
  split.
  - assert (Hne : Z.of_nat (length [1; 2; 3]%R)
                  <> t1d.get_how_many_x (dndt.m_table examples.rate_table))
      by (vm_compute; discriminate).
    split; [exact Hne|].
    exact (proj1 (Hrate examples.rate_table [1; 2; 3]%R) Hne).
  - assert (Hne : Z.of_nat (length [1; 2; 3]%R)
                  <> t2d.get_how_many_x (photon_emission.m_table examples.emission_table)
                     * t2d.get_how_many_y (photon_emission.m_table examples.emission_table))
      by (vm_compute; discriminate).
    assert (Hint : int_range
                     (t2d.get_how_many_x (photon_emission.m_table examples.emission_table)
                      * t2d.get_how_many_y
                          (photon_emission.m_table examples.emission_table)))
      by (change (int_range (2 * 4)); unfold int_range; lia).
    split; [exact Hint|]. split; [exact Hne|].
    exact (proj1 (Hemission examples.emission_table [1; 2; 3]%R) Hint Hne).
Defined.


(** C8. For a photon emission table whose grid holds as many samples as its
    resolutions say and an input vector of that length, [set_all_vals] returns
    true, sets the initialization flag and stores, for each element [v],
    [log(v)], except that [lowest()] is stored when [log(v)] is infinite;
    when the logarithms of the elements are infinite exactly for the elements
    equal to zero, what is stored is [log(v)], and [lowest()] for zero. *)
Theorem photon_set_all_vals_stores_log {T : Type} `{RealOps T} `{OpEq T}
    (tb : photon_emission.owner_type T) (vals : list T) :
  Z.of_nat (length (t2d.m_values (photon_emission.m_table tb)))
  = t2d.get_how_many_x (photon_emission.m_table tb)
    * t2d.get_how_many_y (photon_emission.m_table tb) ->
  Z.of_nat (length vals)
  = t2d.get_how_many_x (photon_emission.m_table tb)
    * t2d.get_how_many_y (photon_emission.m_table tb) ->
  exists tb',
    photon_emission.set_all_vals tb vals = Ok (true, tb')
    /\ photon_emission.is_init tb' = true
    /\ photon_emission.m_params tb' = photon_emission.m_params tb
    /\ length (t2d.m_values (photon_emission.m_table tb')) = length vals
    /\ (forall i v,
          vals !! i = Some v ->
          t2d.m_values (photon_emission.m_table tb') !! i
          = Some (if r_isinf (m_log v) then r_lowest else m_log v))
    /\ ((forall v, v ∈ vals -> r_isinf (m_log v) = r_eq v r_zero) ->
        forall i v,
          vals !! i = Some v ->
          t2d.m_values (photon_emission.m_table tb') !! i
          = Some (if r_eq v r_zero then r_lowest else m_log v)).
Proof.
  intros Hstore Hlen.
  eexists. split; [apply photon_set_all_vals_ok; lia|].
  cbn. split; [reflexivity|]. split; [reflexivity|].
  split; [apply length_map|].
  assert (Hmap : forall i v,
            vals !! i = Some v ->
            map (fun v0 => if r_isinf (m_log v0) then r_lowest else m_log v0) vals !! i
            = Some (if r_isinf (m_log v) then r_lowest else m_log v)).
  { intros i v Hi. rewrite list_lookup_fmap, Hi. reflexivity. }
  split; [exact Hmap|].
  intros Hzero i v Hi. rewrite (Hmap i v Hi).
  rewrite Hzero by (apply list_elem_of_lookup; eauto). reflexivity.
Qed.

Ltac real_cases :=
  repeat match goal with
  | |- context [Req_dec_T ?a ?b] => destruct (Req_dec_T a b); try lra
  | |- context [Rlt_dec ?a ?b] => destruct (Rlt_dec a b); try lra
  end.

Lemma photon_set_all_vals_stores_log_witness :
  Z.of_nat (length (t2d.m_values (photon_emission.m_table extended.small_table)))
  = t2d.get_how_many_x (photon_emission.m_table extended.small_table)
    * t2d.get_how_many_y (photon_emission.m_table extended.small_table)
  /\ Z.of_nat (length [extended.Fin 0; extended.Fin 1])
     = t2d.get_how_many_x (photon_emission.m_table extended.small_table)
       * t2d.get_how_many_y (photon_emission.m_table extended.small_table)
  /\ (forall v, v ∈ [extended.Fin 0; extended.Fin 1] -> r_isinf (m_log v) = r_eq v r_zero)
  /\ exists tb',
       photon_emission.set_all_vals extended.small_table [extended.Fin 0; extended.Fin 1]
       = Ok (true, tb')
       /\ photon_emission.is_init tb' = true
       /\ t2d.m_values (photon_emission.m_table tb') !! 0%nat = Some r_lowest
       /\ t2d.m_values (photon_emission.m_table tb') !! 1%nat = Some (extended.Fin (ln 1)).
Proof.
  assert (Hstore :
    Z.of_nat (length (t2d.m_values (photon_emission.m_table extended.small_table)))
    = t2d.get_how_many_x (photon_emission.m_table extended.small_table)
      * t2d.get_how_many_y (photon_emission.m_table extended.small_table))
    by reflexivity.
  assert (Hlen :
    Z.of_nat (length [extended.Fin 0; extended.Fin 1])
    = t2d.get_how_many_x (photon_emission.m_table extended.small_table)
      * t2d.get_how_many_y (photon_emission.m_table extended.small_table))
    by reflexivity.
  assert (Hzero : forall v, v ∈ [extended.Fin 0; extended.Fin 1] ->
                            r_isinf (m_log v) = r_eq v r_zero).
  { intros v Hv. apply list_elem_of_In in Hv.
    destruct Hv as [<- | [<- | []]]; cbn;
      unfold r_eq, extended.xreal_OpEq, extended.eq, ideal.Reqb; real_cases; reflexivity. }
  split; [exact Hstore|]. split; [exact Hlen|]. split; [exact Hzero|].
  destruct (photon_set_all_vals_stores_log extended.small_table
              [extended.Fin 0; extended.Fin 1] Hstore Hlen)
    as (tb' & Hcall & Hinit & _ & _ & _ & Hvals).
  exists tb'. split; [exact Hcall|]. split; [exact Hinit|].
  split.
  - rewrite (Hvals Hzero 0%nat (extended.Fin 0) eq_refl).
    unfold r_eq, extended.xreal_OpEq, extended.eq, ideal.Reqb. cbn.
    real_cases. reflexivity.
  - rewrite (Hvals Hzero 1%nat (extended.Fin 1) eq_refl).
    unfold r_eq, extended.xreal_OpEq, extended.eq, ideal.Reqb. cbn.
    real_cases. reflexivity.
Defined.

(** An input vector with an infinite element: the element is not zero and
    its logarithm is plus infinity, and what [set_all_vals] stores for it is
    [lowest()], not its logarithm. *)
Lemma photon_set_all_vals_infinite_counterexample :
  r_eq extended.PInf r_zero = false
  /\ m_log extended.PInf = extended.PInf
  /\ exists tb',
       photon_emission.set_all_vals extended.small_table [extended.PInf; extended.Fin 1]
       = Ok (true, tb')
       /\ t2d.m_values (photon_emission.m_table tb') !! 0%nat = Some r_lowest
       /\ t2d.m_values (photon_emission.m_table tb') !! 0%nat <> Some (m_log extended.PInf).
Proof.
  split; [reflexivity|]. split; [reflexivity|].
  eexists. split.
  - apply photon_set_all_vals_ok; reflexivity.
  - cbn. split; [reflexivity | discriminate].
Qed.


(** ** The data model is kept *)

Section data_model.
Context {T : Type} `{RealOps T}.

Lemma size_t_of_count (n : Z) : 0 <= n -> int_range n -> Z.of_nat (size_t_of_int n) = n.
Proof.
  unfold int_range, size_t_of_int. intros Hpos [_ Hhi].
  rewrite Z.mod_small; [lia|].
  split; [lia|]. apply Z.lt_trans with (2 ^ 31); [exact Hhi | reflexivity].
Qed.

Lemma dndt_make_wf (params : dndt.dndt_lookup_table_params T) :
  dndt_model.params_wf params ->
  dndt_model.storage_wf (dndt.make params) /\ dndt.is_init (dndt.make params) = false.
Proof.
  intros (_ & Hpos & Hint). split; [|reflexivity].
  repeat split; cbn; try apply Hint.
  unfold v_content, std_vector_VectorType. rewrite length_replicate.
  apply size_t_of_count; [lia | exact Hint].
Qed.

Lemma dndt_set_all_vals_wf (tb tb' : dndt.owner_type T) (vals : list T) :
  dndt_model.storage_wf tb ->
  dndt.set_all_vals tb vals = Ok (true, tb') ->
  dndt_model.storage_wf tb' /\ dndt.is_init tb' = true
  /\ dndt.m_params tb' = dndt.m_params tb.
Proof.
  intros (Hmin & Hmax & Hcount & Hint) Hcall.
  assert (Hlen : Z.of_nat (length vals) = t1d.get_how_many_x (dndt.m_table tb)).
  { unfold dndt.set_all_vals in Hcall.
    destruct (decide _) as [Hlen|_]; [exact Hlen | discriminate]. }
  rewrite (dndt_set_all_vals_ok tb vals Hlen) in Hcall.
  injection Hcall as <-.
  repeat split; cbn; try assumption; try apply Hint.
  unfold v_content, std_vector_VectorType. rewrite length_map.
  rewrite Hlen. exact Hcount.
Qed.

Lemma photon_make_wf (params : photon_emission.photon_emission_lookup_table_params T) :
  photon_emission_model.params_wf params ->
  photon_emission_model.storage_wf (photon_emission.make params)
  /\ photon_emission.is_init (photon_emission.make params) = false.
Proof.
  intros (_ & _ & _ & Hnx & Hny & Hix & Hiy & Hixy). split; [|reflexivity].
  repeat split; cbn; try apply Hix; try apply Hiy; try apply Hixy.
  unfold v_content, std_vector_VectorType. rewrite length_replicate.
  apply size_t_of_count; [lia | exact Hixy].
Qed.

Lemma photon_set_all_vals_wf (tb tb' : photon_emission.owner_type T) (vals : list T) :
  photon_emission_model.storage_wf tb ->
  photon_emission.set_all_vals tb vals = Ok (true, tb') ->
  photon_emission_model.storage_wf tb' /\ photon_emission.is_init tb' = true
  /\ photon_emission.m_params tb' = photon_emission.m_params tb.
Proof.
  intros (Hxmin & Hxmax & Hymin & Hymax & Hnx & Hny & Hcount & Hix & Hiy & Hixy) Hcall.
  assert (Hlen : Z.of_nat (length vals)
                 = t2d.get_how_many_x (photon_emission.m_table tb)
                   * t2d.get_how_many_y (photon_emission.m_table tb)).
  { unfold photon_emission.set_all_vals in Hcall.
    destruct (decide _) as [Hlen|_]; [exact Hlen | discriminate]. }
  unfold v_content, std_vector_VectorType in Hcount.
  assert (Hstore : length (t2d.m_values (photon_emission.m_table tb)) = length vals).
  { unfold t2d.get_how_many_x, t2d.get_how_many_y in Hlen. lia. }
  rewrite (photon_set_all_vals_ok tb vals Hstore Hlen) in Hcall.
  injection Hcall as <-.
  repeat split; cbn; try assumption; try apply Hix; try apply Hiy; try apply Hixy.
  unfold v_content, std_vector_VectorType. rewrite length_map.
  rewrite Hlen. unfold t2d.get_how_many_x, t2d.get_how_many_y. rewrite Hnx, Hny.
  reflexivity.
Qed.
End data_model.

(** ** The search over a row that is monotone *)

Section monotone_rows.
Context {T : Type} `{RealOps T}.

(** When the indices where the value is below [f] are the last ones, the
    search returns the first of them. *)
Lemma upper_bound_partition (first last : Z) (val : T) (f : Z -> T) :
  first <= last ->
  (forall i j, first <= i <= j -> j < last ->
               r_lt val (f i) = true -> r_lt val (f j) = true) ->
  let k := picsar_upper_bound_functor first last val f in
  first <= k <= last
  /\ (forall i, first <= i < k -> r_lt val (f i) = false)
  /\ (forall i, k <= i < last -> r_lt val (f i) = true).
Proof.
  intros Hle Hmono.
  destruct (picsar_upper_bound_functor_spec first last val f Hle) as (Hrange & Hleft & Hright).
  cbn zeta. split; [exact Hrange|]. split.
  - intros i Hi. destruct (r_lt val (f i)) eqn:Hfi; [|reflexivity].
    rewrite <- (Hleft ltac:(lia)). symmetry.
    apply (Hmono i); [lia | lia | exact Hfi].
  - intros i Hi. apply (Hmono (picsar_upper_bound_functor first last val f)); [lia | lia |].
    apply Hright. lia.
Qed.
End monotone_rows.

(** In exact arithmetic, a row that does not decrease along the fraction axis
    is one the search partitions. *)
Lemma upper_frac_index_monotone_row {V : Type} `{GridInterp R} `{VectorType R V}
    (tb : photon_emission.photon_emission_lookup_table R V) (e u : R) :
  0 <= photon_emission.frac_how_many (photon_emission.m_params tb) ->
  let f := fun i => t2d.interp_first_coord (photon_emission.m_table tb) (ln e) i in
  (forall i j, 0 <= i <= j -> j < photon_emission.frac_how_many (photon_emission.m_params tb) ->
               (f i <= f j)%R) ->
  let k := photon_emission_terms.upper_frac_index tb e u in
  (forall i, 0 <= i < k -> (f i <= ln (1 - u))%R)
  /\ (forall i, k <= i < photon_emission.frac_how_many (photon_emission.m_params tb) ->
                (ln (1 - u) < f i)%R).
Proof.
  intros Hn f Hrows. cbn zeta.
  destruct (upper_bound_partition 0 (photon_emission.frac_how_many (photon_emission.m_params tb))
              (m_log (r_sub r_one u)) f Hn) as (_ & Hbelow & Habove).
  { intros i j Hij Hj Hi. apply Rltb_true in Hi. apply Rltb_true.
    specialize (Hrows i j Hij Hj). cbn in *. lra. }
  split.
  - intros i Hi. apply Rltb_false. exact (Hbelow i Hi).
  - intros i Hi. apply Rltb_true. exact (Habove i Hi).
Qed.


(** ** Views *)

Lemma size_t_of_length (n : Z) (len : nat) :
  Z.of_nat len = n -> int_range n -> size_t_of_int n = len.
Proof.
  unfold int_range, size_t_of_int. intros <- [_ Hhi].
  rewrite Z.mod_small; [apply Nat2Z.id|].
  split; [lia|]. apply Z.lt_trans with (2 ^ 31); [exact Hhi | reflexivity].
Qed.

Section view_props.
Context {T : Type} `{RealOps T}.

(** The span of the view covers the samples of a table that follows the data
    model. *)
Lemma dndt_view_content (tb : dndt.owner_type T) (view : dndt.view_type T) :
  dndt_model.storage_wf tb ->
  dndt.get_view tb = Ok view ->
  v_content (t1d.m_values (dndt.m_table view)) = t1d.m_values (dndt.m_table tb).
Proof.
  intros (_ & _ & Hcount & Hint). unfold dndt.get_view.
  destruct (negb (dndt.m_init_flag tb)); [discriminate|].
  intros [= <-]. cbn. unfold v_content, picsar_span_VectorType. cbn.
  unfold t1d.get_values_reference.
  rewrite (size_t_of_length _ _ Hcount Hint). apply take_ge.
  unfold v_content, std_vector_VectorType. lia.
Qed.

Lemma photon_view_content (tb : photon_emission.owner_type T)
    (view : photon_emission.view_type T) :
  photon_emission_model.storage_wf tb ->
  photon_emission.get_view tb = Ok view ->
  v_content (t2d.m_values (photon_emission.m_table view))
  = t2d.m_values (photon_emission.m_table tb).
Proof.
  intros (_ & _ & _ & _ & _ & _ & Hcount & _ & _ & Hint). unfold photon_emission.get_view.
  destruct (negb (photon_emission.m_init_flag tb)); [discriminate|].
  intros [= <-]. cbn. unfold v_content, picsar_span_VectorType. cbn.
  unfold t2d.get_values_reference.
  rewrite (size_t_of_length _ _ Hcount Hint). apply take_ge.
  unfold v_content, std_vector_VectorType. lia.
Qed.

Lemma dndt_view_interp `{GridInterp T} (tb : dndt.owner_type T) (view : dndt.view_type T) :
  dndt_model.storage_wf tb ->
  dndt.get_view tb = Ok view ->
  forall chi_part is_out h,
    dndt.interp view chi_part is_out h = dndt.interp tb chi_part is_out h.
Proof.
  intros Hwf Hview chi_part is_out h.
  pose proof (dndt_view_content tb view Hwf Hview) as Hcontent.
  destruct Hwf as (Hmin & Hmax & _ & _).
  unfold dndt.get_view in Hview.
  destruct (negb (dndt.m_init_flag tb)); [discriminate|].
  injection Hview as <-.
  unfold dndt.interp, t1d.interp. cbn in *.
  rewrite Hcontent, Hmin, Hmax. reflexivity.
Qed.

Lemma photon_view_interp `{GridInterp T}
    (tb : photon_emission.owner_type T) (view : photon_emission.view_type T) :
  photon_emission_model.storage_wf tb ->
  photon_emission.get_view tb = Ok view ->
  forall chi_part u is_out h,
    photon_emission.interp view chi_part u is_out h
    = photon_emission.interp tb chi_part u is_out h.
Proof.
  intros Hwf Hview chi_part u is_out h.
  pose proof (photon_view_content tb view Hwf Hview) as Hcontent.
  destruct Hwf as (Hxmin & Hxmax & Hymin & Hymax & Hnx & Hny & _).
  unfold photon_emission.get_view in Hview.
  destruct (negb (photon_emission.m_init_flag tb)); [discriminate|].
  injection Hview as <-.
  unfold photon_emission.interp, t2d.interp_first_coord, t2d.get_y_coord. cbn in *.
  rewrite Hcontent, Hxmin, Hxmax, Hymin, Hymax, Hnx, Hny. reflexivity.
Qed.
End view_props.

(** C7. For an initialized table of either kind that follows the data model,
    [get_view] returns a view, and [interp] of the view returns what [interp]
    of the table returns, for every input: inside the table and out of it on
    both sides, for every draw, and with the same effect on [is_out]. *)
Theorem view_interp_agrees {T : Type} `{RealOps T} `{GridInterp T} :
  (forall tb : dndt.owner_type T,
     dndt.m_init_flag tb = true ->
     dndt_model.storage_wf tb ->
     exists view,
       dndt.get_view tb = Ok view
       /\ forall chi_part is_out h,
            dndt.interp view chi_part is_out h = dndt.interp tb chi_part is_out h)
  /\ (forall tb : photon_emission.owner_type T,
        photon_emission.m_init_flag tb = true ->
        photon_emission_model.storage_wf tb ->
        exists view,
          photon_emission.get_view tb = Ok view
          /\ forall chi_part u is_out h,
               photon_emission.interp view chi_part u is_out h
               = photon_emission.interp tb chi_part u is_out h).
Proof.
  split; intros tb Hinit Hwf.
  - assert (Hview : exists view, dndt.get_view tb = Ok view)
      by (unfold dndt.get_view; rewrite Hinit; cbn; eauto).
    destruct Hview as [view Hview]. exists view. split; [exact Hview|].
    exact (dndt_view_interp tb view Hwf Hview).
  - assert (Hview : exists view, photon_emission.get_view tb = Ok view)
      by (unfold photon_emission.get_view; rewrite Hinit; cbn; eauto).
    destruct Hview as [view Hview]. exists view. split; [exact Hview|].
    exact (photon_view_interp tb view Hwf Hview).
Qed.

Lemma rate_table_wf : dndt_model.storage_wf examples.rate_table.
Proof. repeat split; cbn; lia. Qed.

Lemma emission_table_wf : photon_emission_model.storage_wf examples.emission_table.
Proof. repeat split; cbn; lia. Qed.

Lemma view_interp_agrees_witness :
  (dndt.m_init_flag examples.rate_table = true
   /\ dndt_model.storage_wf examples.rate_table
   /\ exists view,
        dndt.get_view examples.rate_table = Ok view
        /\ forall chi_part is_out h,
             dndt.interp view chi_part is_out h
             = dndt.interp examples.rate_table chi_part is_out h)
  /\ (photon_emission.m_init_flag examples.emission_table = true
      /\ photon_emission_model.storage_wf examples.emission_table
      /\ exists view,
           photon_emission.get_view examples.emission_table = Ok view
           /\ forall chi_part u is_out h,
                photon_emission.interp view chi_part u is_out h
                = photon_emission.interp examples.emission_table chi_part u is_out h).
Proof.
  pose proof (@view_interp_agrees R _ _) as [Hrate Hemission].
  split.
  - split; [reflexivity|]. split; [exact rate_table_wf|].
    exact (Hrate examples.rate_table eq_refl rate_table_wf).
  - split; [reflexivity|]. split; [exact emission_table_wf|].
    exact (Hemission examples.emission_table eq_refl emission_table_wf).
Defined.


(** ** Byte copies of the scalars and of the parameter records *)

#[global] Instance binary32_PodLaws : PodLaws ieee.binary32.
Proof. split; [reflexivity | intros [a b c d] _; reflexivity]. Qed.

#[global] Instance binary64_PodLaws : PodLaws ieee.binary64.
Proof. split; [reflexivity | intros [a b c d e f g h] _; reflexivity]. Qed.

Section record_bytes.
Context {T : Type} `{PodLaws T}.

Lemma take_to_bytes {A : Type} `{PodLaws A} (a : A) (rest : list byte) :
  take (sizeof A) (to_bytes a ++ rest) = to_bytes a.
Proof. apply take_app_length'. symmetry. apply length_to_bytes. Qed.

Lemma drop_to_bytes {A : Type} `{PodLaws A} (a : A) (rest : list byte) :
  drop (sizeof A) (to_bytes a ++ rest) = rest.
Proof. apply drop_app_length'. symmetry. apply length_to_bytes. Qed.

Lemma dndt_params_to_bytes (p : dndt.dndt_lookup_table_params T) :
  to_bytes p
  = to_bytes (dndt.chi_part_min p) ++ to_bytes (dndt.chi_part_max p)
    ++ to_bytes (dndt.chi_part_how_many p) ++ replicate dndt.params_padding x00.
Proof. reflexivity. Qed.

Lemma dndt_params_from_bytes (l : list byte) :
  from_bytes l
  = dndt.mk_params
      (from_bytes (take (sizeof T) l))
      (from_bytes (take (sizeof T) (drop (sizeof T) l)))
      (from_bytes (take (sizeof Z) (drop (sizeof T + sizeof T) l))).
Proof. reflexivity. Qed.

#[global] Instance dndt_params_PodLaws : PodLaws (dndt.dndt_lookup_table_params T).
Proof.
  split.
  - intros p. rewrite dndt_params_to_bytes.
    rewrite !length_app, length_replicate, !length_to_bytes. cbn.
    unfold dndt.params_used. cbn. lia.
  - intros [lo hi n] (Hlo & Hhi & Hn).
    rewrite dndt_params_to_bytes, dndt_params_from_bytes.
    cbn [dndt.chi_part_min dndt.chi_part_max dndt.chi_part_how_many] in *.
    rewrite take_to_bytes, from_to_bytes by assumption.
    rewrite <- drop_drop, drop_to_bytes.
    rewrite (drop_to_bytes hi), (take_to_bytes hi), from_to_bytes by assumption.
    rewrite (take_to_bytes n), from_to_bytes by assumption.
    reflexivity.
Qed.

Lemma photon_params_to_bytes (p : photon_emission.photon_emission_lookup_table_params T) :
  to_bytes p
  = to_bytes (photon_emission.chi_part_min p) ++ to_bytes (photon_emission.chi_part_max p)
    ++ to_bytes (photon_emission.frac_min p)
    ++ to_bytes (photon_emission.chi_part_how_many p)
    ++ to_bytes (photon_emission.frac_how_many p)
    ++ replicate photon_emission.params_padding x00.
Proof. reflexivity. Qed.

Lemma photon_params_from_bytes (l : list byte) :
  from_bytes l
  = photon_emission.mk_params
      (from_bytes (take (sizeof T) l))
      (from_bytes (take (sizeof T) (drop (sizeof T) l)))
      (from_bytes (take (sizeof T) (drop (sizeof T + sizeof T) l)))
      (from_bytes (take (sizeof Z) (drop (sizeof T + sizeof T + sizeof T) l)))
      (from_bytes (take (sizeof Z)
                     (drop (sizeof T + sizeof T + sizeof T + sizeof Z) l))).
Proof. reflexivity. Qed.

#[global] Instance photon_params_PodLaws :
  PodLaws (photon_emission.photon_emission_lookup_table_params T).
Proof.
  split.
  - intros p. rewrite photon_params_to_bytes.
    rewrite !length_app, length_replicate, !length_to_bytes. cbn.
    unfold photon_emission.params_used. cbn. lia.
  - intros [lo hi fm n m] (Hlo & Hhi & Hfm & Hn & Hm).
    rewrite photon_params_to_bytes, photon_params_from_bytes.
    cbn [photon_emission.chi_part_min photon_emission.chi_part_max
         photon_emission.frac_min photon_emission.chi_part_how_many
         photon_emission.frac_how_many] in *.
    rewrite take_to_bytes, from_to_bytes by assumption.
    rewrite <- !drop_drop, !drop_to_bytes.
    rewrite (take_to_bytes hi), from_to_bytes by assumption.
    rewrite (take_to_bytes fm), from_to_bytes by assumption.
    rewrite (take_to_bytes n), from_to_bytes by assumption.
    rewrite (take_to_bytes m), from_to_bytes by assumption.
    reflexivity.
Qed.
End record_bytes.

(** The sizes of the parameter records, for [float] and for [double]. *)
Example sizeof_params :
  sizeof (dndt.dndt_lookup_table_params ieee.binary32) = 12%nat
  /\ sizeof (dndt.dndt_lookup_table_params ieee.binary64) = 24%nat
  /\ sizeof (photon_emission.photon_emission_lookup_table_params ieee.binary32) = 20%nat
  /\ sizeof (photon_emission.photon_emission_lookup_table_params ieee.binary64) = 32%nat.
Proof. repeat split; reflexivity. Qed.


(** ** Serialization of the grids *)

Section grid_bytes.
Context {T : Type} `{PodLaws T}.

Lemma t1d_round_trip (table : t1d.equispaced_1d_table T (list T)) :
  pod_ok (t1d.m_x_min table) -> pod_ok (t1d.m_x_max table) ->
  Forall pod_ok (t1d.m_values table) ->
  int_range (Z.of_nat (length (t1d.m_values table))) ->
  t1d.of_bytes (t1d.serialize table) = Ok table.
Proof.
  intros Hmin Hmax Hvals Hlen. destruct table as [x_min x_max vals]. cbn in *.
  unfold t1d.of_bytes, t1d.serialize. cbn [t1d.m_x_min t1d.m_x_max t1d.m_values].
  rewrite get_out_to_bytes by assumption. cbn [mbind outcome_bind].
  rewrite get_out_to_bytes by assumption. cbn [mbind outcome_bind].
  rewrite (get_out_to_bytes (A:=Z)) by exact Hlen. cbn [mbind outcome_bind].
  rewrite Nat2Z.id.
  rewrite <- (app_nil_r (concat _)), get_n_out_to_bytes by assumption.
  reflexivity.
Qed.

Lemma t2d_round_trip (table : t2d.equispaced_2d_table T (list T)) :
  pod_ok (t2d.m_x_min table) -> pod_ok (t2d.m_x_max table) ->
  pod_ok (t2d.m_y_min table) -> pod_ok (t2d.m_y_max table) ->
  int_range (t2d.m_how_many_x table) -> int_range (t2d.m_how_many_y table) ->
  Forall pod_ok (t2d.m_values table) ->
  Z.of_nat (length (t2d.m_values table)) = t2d.m_how_many_x table * t2d.m_how_many_y table ->
  t2d.of_bytes (t2d.serialize table) = Ok table.
Proof.
  intros Hxmin Hxmax Hymin Hymax Hnx Hny Hvals Hlen.
  destruct table as [x_min x_max y_min y_max nx ny vals]. cbn in *.
  unfold t2d.of_bytes, t2d.serialize.
  cbn [t2d.m_x_min t2d.m_x_max t2d.m_y_min t2d.m_y_max
       t2d.m_how_many_x t2d.m_how_many_y t2d.m_values].
  do 4 (rewrite get_out_to_bytes by assumption; cbn [mbind outcome_bind]).
  rewrite (get_out_to_bytes (A:=Z)) by exact Hnx. cbn [mbind outcome_bind].
  rewrite (get_out_to_bytes (A:=Z)) by exact Hny. cbn [mbind outcome_bind].
  rewrite <- Hlen, Nat2Z.id.
  rewrite <- (app_nil_r (concat _)), get_n_out_to_bytes by assumption.
  reflexivity.
Qed.
End grid_bytes.


(** ** The byte buffer of a table *)

Section table_bytes.
Context {T : Type} `{PodLaws T}.

Lemma dndt_serialize_initialized (tb : dndt.owner_type T) :
  dndt.m_init_flag tb = true ->
  dndt.serialize tb
  = (Ok (realtype_tag T :: to_bytes (dndt.m_params tb) ++ t1d.serialize (dndt.m_table tb)),
     tb).
Proof. unfold dndt.serialize. intros ->. reflexivity. Qed.

Lemma photon_serialize_initialized (tb : photon_emission.owner_type T) :
  photon_emission.m_init_flag tb = true ->
  photon_emission.serialize tb
  = (Ok (realtype_tag T :: to_bytes (photon_emission.m_params tb)
         ++ t2d.serialize (photon_emission.m_table tb)), tb).
Proof. unfold photon_emission.serialize. intros ->. reflexivity. Qed.

Lemma dndt_of_bytes_header (params : dndt.dndt_lookup_table_params T) (rest : list byte) :
  pod_ok params ->
  dndt.of_bytes (realtype_tag T :: to_bytes params ++ rest)
  = (table ← t1d.of_bytes rest; Ok (dndt.mk_table params true table)).
Proof.
  intros Hp. unfold dndt.of_bytes.
  destruct (decide _) as [Hshort|_].
  - cbn [length] in Hshort. rewrite length_app, length_to_bytes in Hshort.
    cbn in Hshort. lia.
  - change (get_out byte (realtype_tag T :: to_bytes params ++ rest))
      with (Ok (realtype_tag T, to_bytes params ++ rest) : outcome (byte * list byte)).
    cbn [mbind outcome_bind].
    rewrite (Byte.byte_dec_lb eq_refl). cbn [negb].
    rewrite get_out_to_bytes by exact Hp. reflexivity.
Qed.

Lemma photon_of_bytes_header
    (params : photon_emission.photon_emission_lookup_table_params T) (rest : list byte) :
  pod_ok params ->
  photon_emission.of_bytes (realtype_tag T :: to_bytes params ++ rest)
  = (table ← t2d.of_bytes rest; Ok (photon_emission.mk_table params true table)).
Proof.
  intros Hp. unfold photon_emission.of_bytes.
  destruct (decide _) as [Hshort|_].
  - cbn [length] in Hshort. rewrite length_app, length_to_bytes in Hshort.
    cbn in Hshort. lia.
  - change (get_out byte (realtype_tag T :: to_bytes params ++ rest))
      with (Ok (realtype_tag T, to_bytes params ++ rest) : outcome (byte * list byte)).
    cbn [mbind outcome_bind].
    rewrite (Byte.byte_dec_lb eq_refl). cbn [negb].
    rewrite get_out_to_bytes by exact Hp. reflexivity.
Qed.

Lemma dndt_round_trip (tb : dndt.owner_type T) :
  dndt.m_init_flag tb = true ->
  dndt_storable tb ->
  exists raw_data,
    dndt.serialize tb = (Ok raw_data, tb) /\ dndt.of_bytes raw_data = Ok tb.
Proof.
  intros Hinit (Hp & Hmin & Hmax & Hvals & Hlen).
  eexists. split; [apply dndt_serialize_initialized, Hinit|].
  rewrite dndt_of_bytes_header by exact Hp.
  rewrite t1d_round_trip by assumption. cbn.
  destruct tb as [params flag table]. cbn in Hinit. subst flag. reflexivity.
Qed.

Lemma photon_round_trip (tb : photon_emission.owner_type T) :
  photon_emission.m_init_flag tb = true ->
  photon_storable tb ->
  exists raw_data,
    photon_emission.serialize tb = (Ok raw_data, tb)
    /\ photon_emission.of_bytes raw_data = Ok tb.
Proof.
  intros Hinit (Hp & Hxmin & Hxmax & Hymin & Hymax & Hnx & Hny & Hvals & Hlen).
  eexists. split; [apply photon_serialize_initialized, Hinit|].
  rewrite photon_of_bytes_header by exact Hp.
  rewrite t2d_round_trip by assumption. cbn.
  destruct tb as [params flag table]. cbn in Hinit. subst flag. reflexivity.
Qed.
End table_bytes.

(** C2. For an initialized table of either kind that can be written as bytes
    and is equal to itself under [operator==] (no NaN among its parameters,
    bounds and samples), the constructor from bytes, applied to the bytes
    [serialize] returns, gives the same table, which is equal to the table
    under [operator==]: the same parameters, the same initialization flag and
    the same samples. This holds for every scalar type that is copied byte by
    byte, [float] and [double] among them. *)
Theorem serialize_round_trip {T : Type} `{PodLaws T} `{OpEq T} :
  (forall tb : dndt.owner_type T,
     dndt.m_init_flag tb = true ->
     dndt_storable tb ->
     dndt.op_eq tb tb = true ->
     exists raw_data tb',
       dndt.serialize tb = (Ok raw_data, tb)
       /\ dndt.of_bytes raw_data = Ok tb'
       /\ dndt.op_eq tb' tb = true
       /\ tb' = tb)
  /\ (forall tb : photon_emission.owner_type T,
        photon_emission.m_init_flag tb = true ->
        photon_storable tb ->
        photon_emission.op_eq tb tb = true ->
        exists raw_data tb',
          photon_emission.serialize tb = (Ok raw_data, tb)
          /\ photon_emission.of_bytes raw_data = Ok tb'
          /\ photon_emission.op_eq tb' tb = true
          /\ tb' = tb).
Proof.
  split; intros tb Hinit Hstorable Hself.
  - destruct (dndt_round_trip tb Hinit Hstorable) as (raw_data & Hser & Hback).
    exists raw_data, tb. auto.
  - destruct (photon_round_trip tb Hinit Hstorable) as (raw_data & Hser & Hback).
    exists raw_data, tb. auto.
Qed.

Lemma stored_rate_table_storable : dndt_storable ieee.stored_rate_table.
Proof.
  repeat split; cbn; try lia.
  repeat constructor.
Qed.

Lemma stored_emission_table_storable : photon_storable ieee.stored_emission_table.
Proof.
  repeat split; cbn; try lia.
  repeat constructor.
Qed.

Lemma serialize_round_trip_witness :
  (dndt.m_init_flag ieee.stored_rate_table = true
   /\ dndt_storable ieee.stored_rate_table
   /\ dndt.op_eq ieee.stored_rate_table ieee.stored_rate_table = true
   /\ exists raw_data tb',
        dndt.serialize ieee.stored_rate_table = (Ok raw_data, ieee.stored_rate_table)
        /\ dndt.of_bytes raw_data = Ok tb'
        /\ dndt.op_eq tb' ieee.stored_rate_table = true
        /\ tb' = ieee.stored_rate_table)
  /\ (photon_emission.m_init_flag ieee.stored_emission_table = true
      /\ photon_storable ieee.stored_emission_table
      /\ photon_emission.op_eq ieee.stored_emission_table ieee.stored_emission_table = true
      /\ exists raw_data tb',
           photon_emission.serialize ieee.stored_emission_table
           = (Ok raw_data, ieee.stored_emission_table)
           /\ photon_emission.of_bytes raw_data = Ok tb'
           /\ photon_emission.op_eq tb' ieee.stored_emission_table = true
           /\ tb' = ieee.stored_emission_table).
Proof.
  split.
  - split; [reflexivity|]. split; [exact stored_rate_table_storable|].
    split; [vm_compute; reflexivity|].
    exact (proj1 (@serialize_round_trip ieee.binary64 _ _ _) ieee.stored_rate_table
             eq_refl stored_rate_table_storable eq_refl).
  - split; [reflexivity|]. split; [exact stored_emission_table_storable|].
    split; [vm_compute; reflexivity|].
    exact (proj2 (@serialize_round_trip ieee.binary32 _ _ _) ieee.stored_emission_table
             eq_refl stored_emission_table_storable eq_refl).
Defined.


(** A table with a NaN is written and read back byte for byte, and the table
    read back is not equal to it under [operator==]: the samples of the dN/dt
    table, and the parameters of the photon emission table, are compared with
    [==], and a NaN is equal to nothing. *)
Lemma serialize_round_trip_nan_counterexample :
  (dndt.m_init_flag ieee.nan_rate_table = true
   /\ exists raw_data tb',
        dndt.serialize ieee.nan_rate_table = (Ok raw_data, ieee.nan_rate_table)
        /\ dndt.of_bytes raw_data = Ok tb'
        /\ dndt.op_eq tb' ieee.nan_rate_table = false)
  /\ (photon_emission.m_init_flag ieee.nan_emission_table = true
      /\ exists raw_data tb',
           photon_emission.serialize ieee.nan_emission_table
           = (Ok raw_data, ieee.nan_emission_table)
           /\ photon_emission.of_bytes raw_data = Ok tb'
           /\ photon_emission.params_eq (photon_emission.m_params tb')
                (photon_emission.m_params ieee.nan_emission_table) = false
           /\ photon_emission.op_eq tb' ieee.nan_emission_table = false).
Proof.
  split.
  - split; [reflexivity|].
    eexists. exists ieee.nan_rate_table.
    split; [reflexivity|]. split; [vm_compute; reflexivity|].
    vm_compute; reflexivity.
  - split; [reflexivity|].
    eexists. exists ieee.nan_emission_table.
    split; [reflexivity|]. split; [vm_compute; reflexivity|].
    split; vm_compute; reflexivity.
Qed.


(** ** The checks of the constructor from bytes *)

Section of_bytes_checks.
Context {T : Type} `{Pod T}.

Lemma dndt_of_bytes_too_small (raw_data : list byte) :
  (length raw_data < sizeof byte + sizeof (dndt.dndt_lookup_table_params T))%nat ->
  dndt.of_bytes (T:=T) raw_data = Throw (runtime_error dndt.too_small_what).
Proof.
  intros Hshort. unfold dndt.of_bytes.
  destruct (decide _) as [_|Hlong]; [reflexivity | contradiction].
Qed.

Lemma dndt_of_bytes_mismatch (raw_data : list byte) (tag : byte) :
  (sizeof byte + sizeof (dndt.dndt_lookup_table_params T) <= length raw_data)%nat ->
  head raw_data = Some tag ->
  tag <> realtype_tag T ->
  dndt.of_bytes (T:=T) raw_data = Throw (runtime_error dndt.mismatch_what).
Proof.
  intros Hlong Hhead Htag. unfold dndt.of_bytes.
  destruct (decide _) as [Hshort|_]; [lia|].
  destruct raw_data as [|b rest]; [discriminate|]. injection Hhead as ->.
  change (get_out byte (tag :: rest)) with (Ok (tag, rest) : outcome (byte * list byte)).
  cbn [mbind outcome_bind].
  destruct (Byte.eqb tag (realtype_tag T)) eqn:Heq; [|reflexivity].
  apply Byte.byte_dec_bl in Heq. contradiction.
Qed.

Lemma photon_of_bytes_too_small (raw_data : list byte) :
  (length raw_data
   < sizeof byte + sizeof (photon_emission.photon_emission_lookup_table_params T))%nat ->
  photon_emission.of_bytes (T:=T) raw_data
  = Throw (runtime_error photon_emission.too_small_what).
Proof.
  intros Hshort. unfold photon_emission.of_bytes.
  destruct (decide _) as [_|Hlong]; [reflexivity | contradiction].
Qed.

Lemma photon_of_bytes_mismatch (raw_data : list byte) (tag : byte) :
  (sizeof byte + sizeof (photon_emission.photon_emission_lookup_table_params T)
   <= length raw_data)%nat ->
  head raw_data = Some tag ->
  tag <> realtype_tag T ->
  photon_emission.of_bytes (T:=T) raw_data
  = Throw (runtime_error photon_emission.mismatch_what).
Proof.
  intros Hlong Hhead Htag. unfold photon_emission.of_bytes.
  destruct (decide _) as [Hshort|_]; [lia|].
  destruct raw_data as [|b rest]; [discriminate|]. injection Hhead as ->.
  change (get_out byte (tag :: rest)) with (Ok (tag, rest) : outcome (byte * list byte)).
  cbn [mbind outcome_bind].
  destruct (Byte.eqb tag (realtype_tag T)) eqn:Heq; [|reflexivity].
  apply Byte.byte_dec_bl in Heq. contradiction.
Qed.
End of_bytes_checks.

(** C5, as the code has it. For both tables the constructor from bytes
    throws the error of the binary data that is too small, before it reads
    any field, whenever the buffer is shorter than [1 + sizeof(parameters)]
    bytes; and whenever the buffer has at least that many bytes and its first
    byte is not [sizeof(RealType)], it throws the error of the mismatch of
    [RealType]. In both cases no table is built. *)
Theorem of_bytes_checks_size_then_tag {T : Type} `{Pod T} (raw_data : list byte) :
  ((length raw_data < 1 + sizeof (dndt.dndt_lookup_table_params T))%nat ->
   dndt.of_bytes (T:=T) raw_data = Throw (runtime_error dndt.too_small_what))
  /\ (forall tag,
        (1 + sizeof (dndt.dndt_lookup_table_params T) <= length raw_data)%nat ->
        head raw_data = Some tag -> tag <> realtype_tag T ->
        dndt.of_bytes (T:=T) raw_data = Throw (runtime_error dndt.mismatch_what))
  /\ ((length raw_data
       < 1 + sizeof (photon_emission.photon_emission_lookup_table_params T))%nat ->
      photon_emission.of_bytes (T:=T) raw_data
      = Throw (runtime_error photon_emission.too_small_what))
  /\ (forall tag,
        (1 + sizeof (photon_emission.photon_emission_lookup_table_params T)
         <= length raw_data)%nat ->
        head raw_data = Some tag -> tag <> realtype_tag T ->
        photon_emission.of_bytes (T:=T) raw_data
        = Throw (runtime_error photon_emission.mismatch_what)).
Proof.
  split; [|split; [|split]].
  - apply dndt_of_bytes_too_small.
  - intros tag. apply dndt_of_bytes_mismatch.
  - apply photon_of_bytes_too_small.
  - intros tag. apply photon_of_bytes_mismatch.
Qed.

(** The bytes of a table of [double], read as a table of [float]; and a
    buffer of five bytes. *)
Lemma of_bytes_checks_size_then_tag_witness :
  ((length [x04; x00; x00; x00; x00]
    < 1 + sizeof (dndt.dndt_lookup_table_params ieee.binary32))%nat
   /\ dndt.of_bytes (T:=ieee.binary32) [x04; x00; x00; x00; x00]
      = Throw (runtime_error dndt.too_small_what))
  /\ (forall raw_data,
        fst (dndt.serialize ieee.stored_rate_table) = Ok raw_data ->
        (1 + sizeof (dndt.dndt_lookup_table_params ieee.binary32) <= length raw_data)%nat
        /\ head raw_data = Some x08 /\ x08 <> realtype_tag ieee.binary32
        /\ dndt.of_bytes (T:=ieee.binary32) raw_data
           = Throw (runtime_error dndt.mismatch_what)).
Proof.
  split.
  - assert (Hshort : (length [x04; x00; x00; x00; x00]
                      < 1 + sizeof (dndt.dndt_lookup_table_params ieee.binary32))%nat)
      by (vm_compute; lia).
    split; [exact Hshort|].
    exact (proj1 (of_bytes_checks_size_then_tag (T:=ieee.binary32) _) Hshort).
  - intros raw_data [= <-].
    assert (Hlong : (1 + sizeof (dndt.dndt_lookup_table_params ieee.binary32)
                     <= length (realtype_tag ieee.binary64
                                :: to_bytes (dndt.m_params ieee.stored_rate_table)
                                ++ t1d.serialize (dndt.m_table ieee.stored_rate_table)))%nat)
      by (vm_compute; lia).
    assert (Htag : x08 <> realtype_tag ieee.binary32) by (vm_compute; discriminate).
    split; [exact Hlong|]. split; [reflexivity|]. split; [exact Htag|].
    exact (proj1 (proj2 (of_bytes_checks_size_then_tag (T:=ieee.binary32) _))
             x08 Hlong eq_refl Htag).
Defined.

(** A buffer of one byte, the size of a [double], read as a table of [float]:
    its first byte is not the size of a [float], and the error is the one of
    the binary data that is too small, not the one of the mismatch. *)
Lemma of_bytes_short_buffer_counterexample :
  head [x08] = Some x08
  /\ x08 <> realtype_tag ieee.binary32
  /\ dndt.of_bytes (T:=ieee.binary32) [x08] = Throw (runtime_error dndt.too_small_what)
  /\ dndt.of_bytes (T:=ieee.binary32) [x08] <> Throw (runtime_error dndt.mismatch_what)
  /\ photon_emission.of_bytes (T:=ieee.binary32) [x08]
     = Throw (runtime_error photon_emission.too_small_what)
  /\ photon_emission.of_bytes (T:=ieee.binary32) [x08]
     <> Throw (runtime_error photon_emission.mismatch_what).
Proof.
  split; [reflexivity|]. split; [vm_compute; discriminate|].
  split; [reflexivity|]. split; [vm_compute; discriminate|].
  split; [reflexivity|]. vm_compute; discriminate.
Qed.


(** ** Tables that are not initialized *)

(** C6. For both tables, when the initialization flag is false [get_view]
    and [serialize] throw at once: no value is returned, and the table after
    [serialize] is the table before it. When the flag is true [get_view]
    returns a table over a span: it has the parameters of the table, and its
    span points at the samples of the table, with the length the parameters
    give (for the photon emission table the product of the two counts, which
    the code takes in [int]: it is to be a value of [int]); for a table that
    follows the data model the span covers exactly the samples of the
    table. *)
Theorem uninitialized_table_throws :
  (forall (T : Type) (HR : RealOps T) (tb : dndt.owner_type T),
     (dndt.m_init_flag tb = false ->
      dndt.get_view tb = Throw (runtime_error dndt.view_what))
     /\ (dndt.m_init_flag tb = true ->
         exists view,
           dndt.get_view tb = Ok view
           /\ dndt.m_params view = dndt.m_params tb
           /\ span_data (t1d.m_values (dndt.m_table view)) = t1d.m_values (dndt.m_table tb)
           /\ span_size (t1d.m_values (dndt.m_table view))
              = size_t_of_int (dndt.chi_part_how_many (dndt.m_params tb))
           /\ (dndt_model.storage_wf tb ->
               v_content (t1d.m_values (dndt.m_table view))
               = t1d.m_values (dndt.m_table tb))))
  /\ (forall (T : Type) (HP : Pod T) (tb : dndt.owner_type T),
        dndt.m_init_flag tb = false ->
        dndt.serialize tb = (Throw (runtime_error dndt.serialize_what), tb))
  /\ (forall (T : Type) (HR : RealOps T) (tb : photon_emission.owner_type T),
        (photon_emission.m_init_flag tb = false ->
         photon_emission.get_view tb = Throw (runtime_error photon_emission.view_what))
        /\ (photon_emission.m_init_flag tb = true ->
            int_range (photon_emission.chi_part_how_many (photon_emission.m_params tb)
                       * photon_emission.frac_how_many (photon_emission.m_params tb)) ->
            exists view,
              photon_emission.get_view tb = Ok view
              /\ photon_emission.m_params view = photon_emission.m_params tb
              /\ span_data (t2d.m_values (photon_emission.m_table view))
                 = t2d.m_values (photon_emission.m_table tb)
              /\ span_size (t2d.m_values (photon_emission.m_table view))
                 = size_t_of_int
                     (photon_emission.chi_part_how_many (photon_emission.m_params tb)
                      * photon_emission.frac_how_many (photon_emission.m_params tb))
              /\ (photon_emission_model.storage_wf tb ->
                  v_content (t2d.m_values (photon_emission.m_table view))
                  = t2d.m_values (photon_emission.m_table tb))))
  /\ (forall (T : Type) (HP : Pod T) (tb : photon_emission.owner_type T),
        photon_emission.m_init_flag tb = false ->
        photon_emission.serialize tb
        = (Throw (runtime_error photon_emission.serialize_what), tb)).
Proof.
  split; [|split; [|split]].
  - intros T HR tb. split; intros Hflag.
    + unfold dndt.get_view. rewrite Hflag. reflexivity.
    + assert (Hview : exists view, dndt.get_view tb = Ok view)
        by (unfold dndt.get_view; rewrite Hflag; cbn; eauto).
      destruct Hview as [view Hview]. exists view.
      split; [exact Hview|].
      pose proof Hview as Hdef. unfold dndt.get_view in Hdef. rewrite Hflag in Hdef.
      cbn in Hdef. injection Hdef as <-. cbn.
      repeat (split; [reflexivity|]).
      intros Hwf. exact (dndt_view_content tb _ Hwf Hview).
  - intros T HP tb Hflag. unfold dndt.serialize. rewrite Hflag. reflexivity.
  - intros T HR tb. split; [intros Hflag | intros Hflag _].
    + unfold photon_emission.get_view. rewrite Hflag. reflexivity.
    + assert (Hview : exists view, photon_emission.get_view tb = Ok view)
        by (unfold photon_emission.get_view; rewrite Hflag; cbn; eauto).
      destruct Hview as [view Hview]. exists view.
      split; [exact Hview|].
      pose proof Hview as Hdef. unfold photon_emission.get_view in Hdef.
      rewrite Hflag in Hdef. cbn in Hdef. injection Hdef as <-. cbn.
      repeat (split; [reflexivity|]).
      intros Hwf. exact (photon_view_content tb _ Hwf Hview).
  - intros T HP tb Hflag. unfold photon_emission.serialize. rewrite Hflag. reflexivity.
Qed.

Lemma uninitialized_table_throws_witness :
  (dndt.m_init_flag (dndt.make examples.rate_params) = false
   /\ dndt.get_view (dndt.make examples.rate_params)
      = Throw (runtime_error dndt.view_what))
  /\ (dndt.m_init_flag ieee.empty_rate_table = false
      /\ dndt.serialize ieee.empty_rate_table
         = (Throw (runtime_error dndt.serialize_what), ieee.empty_rate_table))
  /\ (photon_emission.m_init_flag (photon_emission.make examples.emission_params) = false
      /\ photon_emission.get_view (photon_emission.make examples.emission_params)
         = Throw (runtime_error photon_emission.view_what))
  /\ (photon_emission.m_init_flag ieee.empty_emission_table = false
      /\ photon_emission.serialize ieee.empty_emission_table
         = (Throw (runtime_error photon_emission.serialize_what),
            ieee.empty_emission_table))
  /\ (dndt.m_init_flag examples.rate_table = true
      /\ exists view,
           dndt.get_view examples.rate_table = Ok view
           /\ dndt.m_params view = dndt.m_params examples.rate_table
           /\ span_data (t1d.m_values (dndt.m_table view))
              = t1d.m_values (dndt.m_table examples.rate_table))
  /\ (photon_emission.m_init_flag examples.emission_table = true
      /\ int_range (photon_emission.chi_part_how_many
                      (photon_emission.m_params examples.emission_table)
                    * photon_emission.frac_how_many
                        (photon_emission.m_params examples.emission_table))
      /\ exists view,
           photon_emission.get_view examples.emission_table = Ok view
           /\ photon_emission.m_params view
              = photon_emission.m_params examples.emission_table
           /\ span_data (t2d.m_values (photon_emission.m_table view))
              = t2d.m_values (photon_emission.m_table examples.emission_table)).
Proof.
  destruct uninitialized_table_throws as (Hrate_view & Hrate_ser & Hem_view & Hem_ser).
  split; [|split; [|split; [|split; [|split]]]].
  - split; [reflexivity|].
    exact (proj1 (Hrate_view R _ (dndt.make examples.rate_params)) eq_refl).
  - split; [reflexivity|].
    exact (Hrate_ser ieee.binary64 _ ieee.empty_rate_table eq_refl).
  - split; [reflexivity|].
    exact (proj1 (Hem_view R _ (photon_emission.make examples.emission_params)) eq_refl).
  - split; [reflexivity|].
    exact (Hem_ser ieee.binary32 _ ieee.empty_emission_table eq_refl).
  - split; [reflexivity|].
    destruct (proj2 (Hrate_view R _ examples.rate_table) eq_refl)
      as (view & Hview & Hparams & Hdata & _).
    exists view. auto.
  - assert (Hint : int_range (photon_emission.chi_part_how_many
                                (photon_emission.m_params examples.emission_table)
                              * photon_emission.frac_how_many
                                  (photon_emission.m_params examples.emission_table)))
      by (change (int_range (2 * 4)); unfold int_range; lia).
    split; [reflexivity|]. split; [exact Hint|].
    destruct (proj2 (Hem_view R _ examples.emission_table) eq_refl Hint)
      as (view & Hview & Hparams & Hdata & _).
    exists view. auto.
Defined.


(** ** The range of the sampled photon, in exact arithmetic *)

Section range.
Local Open Scope R_scope.

(** Between the brackets [x0 <= x < x1] the interpolation stays between
    [y0] and [y1]. *)
Lemma linear_interp_between (x0 x1 y0 y1 x : R) :
  x0 <= x < x1 -> y0 <= y1 ->
  y0 <= linear_interp x0 x1 y0 y1 x <= y1.
Proof.
  intros [Hlo Hhi] Hy. unfold linear_interp. cbn.
  assert (Hd : 0 < x1 - x0) by lra.
  assert (Hslope : 0 <= (y1 - y0) / (x1 - x0))
    by (apply Rmult_le_pos; [lra | left; apply Rinv_0_lt_compat, Hd]).
  assert (Hstep : (y1 - y0) / (x1 - x0) * (x - x0) <= y1 - y0).
  { replace (y1 - y0) with ((y1 - y0) / (x1 - x0) * (x1 - x0)) at 2 by (field; lra).
    apply Rmult_le_compat_l; [exact Hslope | lra]. }
  assert (Hpos : 0 <= (y1 - y0) / (x1 - x0) * (x - x0))
    by (apply Rmult_le_pos; [exact Hslope | lra]).
  lra.
Qed.

(** The coordinates of the fraction axis, from [log(frac_min)] up to
    [log(1)]. *)
Lemma y_coord_step (y_min : R) (n j : Z) :
  y_min <= 0 -> (2 <= n)%Z -> (1 <= j <= n - 1)%Z ->
  y_min + IZR (j - 1) * (0 - y_min) / IZR (n - 1)
  <= y_min + IZR j * (0 - y_min) / IZR (n - 1)
  <= 0.
Proof.
  intros Hy Hn Hj.
  assert (Hm : 0 < IZR (n - 1)) by (apply IZR_lt; lia).
  assert (Hjm : IZR j <= IZR (n - 1)) by (apply IZR_le; lia).
  rewrite minus_IZR.
  assert (Hunit : 0 <= (0 - y_min) / IZR (n - 1))
    by (apply Rmult_le_pos; [lra | left; apply Rinv_0_lt_compat, Hm]).
  replace ((IZR j - 1) * (0 - y_min) / IZR (n - 1))
    with (IZR j * (0 - y_min) / IZR (n - 1) - (0 - y_min) / IZR (n - 1))
    by (field; lra).
  split; [lra|].
  assert (Htop : IZR j * (0 - y_min) / IZR (n - 1) <= 0 - y_min).
  { replace (0 - y_min) with (IZR (n - 1) * ((0 - y_min) / IZR (n - 1))) at 2
      by (field; lra).
    replace (IZR j * (0 - y_min) / IZR (n - 1))
      with (IZR j * ((0 - y_min) / IZR (n - 1))) by (field; lra).
    apply Rmult_le_compat_r; assumption. }
  lra.
Qed.

Lemma exp_le_1 (x : R) : x <= 0 -> 0 < exp x <= 1.
Proof.
  intros Hx. split; [apply exp_pos|].
  rewrite <- exp_0. destruct Hx as [Hlt | ->]; [left; apply exp_increasing, Hlt | lra].
Qed.
End range.

Section photon_range.
Context {V : Type} `{GridInterp R} `{VectorType R V}.
Import photon_emission photon_emission_terms.
Local Open Scope R_scope.

(** For a table that follows the data model, the two coordinates of the
    fraction axis that [interp] uses are in order and at most [log(1)]. *)
Lemma photon_y_coords (tb : photon_emission_lookup_table R V) (k : Z) :
  photon_emission_model.params_wf (m_params tb) ->
  photon_emission_model.storage_wf tb ->
  (0 < k < frac_how_many (m_params tb))%Z ->
  t2d.get_y_coord (m_table tb) (k - 1) <= t2d.get_y_coord (m_table tb) k <= ln 1.
Proof.
  intros (_ & Hfpos & Hfone & _) (_ & _ & Hymin & Hymax & _ & Hny & _) Hk.
  apply Rltb_true in Hfpos, Hfone. cbn in Hfpos, Hfone.
  unfold t2d.get_y_coord. rewrite Hymin, Hymax, Hny. cbn. rewrite ln_1.
  apply y_coord_step; [|lia|lia].
  rewrite <- ln_1. left. apply ln_increasing; assumption.
Qed.

(** What the search leaves around the index it returns. *)
Lemma photon_search_brackets (tb : photon_emission_lookup_table R V) (e u : R) :
  (0 <= frac_how_many (m_params tb))%Z ->
  let k := upper_frac_index tb e u in
  let f := fun i => t2d.interp_first_coord (m_table tb) (ln e) i in
  (0 <= k <= frac_how_many (m_params tb))%Z
  /\ (k <> 0%Z -> f (k - 1)%Z <= ln (1 - u))
  /\ (k <> frac_how_many (m_params tb) -> ln (1 - u) < f k).
Proof.
  intros Hn. cbn zeta. unfold upper_frac_index.
  destruct (picsar_upper_bound_functor_spec 0 (frac_how_many (m_params tb))
              (m_log (r_sub r_one u))
              (fun i => t2d.interp_first_coord (m_table tb) (m_log e) i) Hn)
    as (Hrange & Hleft & Hright).
  split; [exact Hrange|]. split.
  - intros Hk. apply Rltb_false. exact (Hleft Hk).
  - intros Hk. apply Rltb_true. exact (Hright Hk).
Qed.
End photon_range.


(** ** The range of the sampled photon

    In exact arithmetic, for a photon emission table that follows the data
    model ([0 < frac_min < 1], the fraction axis from [log(frac_min)] to
    [log(1)]), every [chi_part > 0] and every draw [u] in [[0,1)], the value
    [interp] returns is in [[0, chi_part]], and [log_frac], interpolated
    between the two points of the fraction axis, is at most [log(1) = 0]. *)
Lemma photon_interp_exact_range {V : Type} `{GridInterp R} `{VectorType R V}
    (tb : photon_emission.photon_emission_lookup_table R V)
    (chi_part u : R) (is_out : bool_ptr) (h : heap) :
  photon_emission_model.params_wf (photon_emission.m_params tb) ->
  photon_emission_model.storage_wf tb ->
  (0 < chi_part)%R ->
  (0 <= u < 1)%R ->
  valid_ptr is_out h ->
  let e := clamped (photon_emission.chi_part_min (photon_emission.m_params tb))
                   (photon_emission.chi_part_max (photon_emission.m_params tb)) chi_part in
  let k := photon_emission_terms.upper_frac_index tb e u in
  exists v h',
    photon_emission.interp tb chi_part u is_out h = Ok (v, h')
    /\ (0 <= v <= chi_part)%R
    /\ (k = 0 -> v = (photon_emission.frac_min (photon_emission.m_params tb) * chi_part)%R)
    /\ (k <> 0 -> k = photon_emission.frac_how_many (photon_emission.m_params tb) ->
        v = chi_part)
    /\ (k <> 0 -> k <> photon_emission.frac_how_many (photon_emission.m_params tb) ->
        v = (exp (photon_emission_terms.log_frac tb e u k) * chi_part)%R
        /\ (photon_emission_terms.log_frac tb e u k <= ln 1)%R
        /\ ln 1 = 0%R)
    /\ (let f := fun i => t2d.interp_first_coord (photon_emission.m_table tb) (ln e) i in
        (forall i j,
           0 <= i <= j ->
           j < photon_emission.frac_how_many (photon_emission.m_params tb) ->
           (f i <= f j)%R) ->
        (forall i, 0 <= i < k -> (f i <= ln (1 - u))%R)
        /\ (forall i,
              k <= i < photon_emission.frac_how_many (photon_emission.m_params tb) ->
              (ln (1 - u) < f i)%R)).
Proof.
  intros Hparams Hstorage Hchi Hu Hptr. cbn zeta.
  set (e := clamped _ _ chi_part).
  set (k := photon_emission_terms.upper_frac_index tb e u).
  pose proof Hparams as (_ & Hfpos & Hfone & _ & Hny & _).
  apply Rltb_true in Hfpos, Hfone. cbn in Hfpos, Hfone.
  destruct (photon_search_brackets tb e u ltac:(lia)) as (Hrange & Hleft & Hright).
  fold k in Hrange, Hleft, Hright.
  assert (Hcall : exists h',
    photon_emission.interp tb chi_part u is_out h
    = Ok (if k =? 0 then r_mul (photon_emission.frac_min (photon_emission.m_params tb)) chi_part
          else if k =? photon_emission.frac_how_many (photon_emission.m_params tb)
               then chi_part
               else r_mul (m_exp (photon_emission_terms.log_frac tb e u k)) chi_part, h')).
  { rewrite photon_interp_cases. cbn zeta. fold e. fold k.
    destruct (_ || _).
    - rewrite flag_out_flagged by exact Hptr. eexists. reflexivity.
    - eexists. reflexivity. }
  destruct Hcall as [h' Hcall]. eexists. exists h'. split; [exact Hcall|].
  assert (Hmono :
    let f := fun i => t2d.interp_first_coord (photon_emission.m_table tb) (ln e) i in
    (forall i j,
       0 <= i <= j ->
       j < photon_emission.frac_how_many (photon_emission.m_params tb) ->
       (f i <= f j)%R) ->
    (forall i, 0 <= i < k -> (f i <= ln (1 - u))%R)
    /\ (forall i,
          k <= i < photon_emission.frac_how_many (photon_emission.m_params tb) ->
          (ln (1 - u) < f i)%R))
    by (apply upper_frac_index_monotone_row; lia).
  destruct (Z.eqb_spec k 0) as [Hk0|Hk0].
  - cbn. repeat split; try contradiction; try nra; apply Hmono; assumption.
  - destruct (Z.eqb_spec k (photon_emission.frac_how_many (photon_emission.m_params tb)))
      as [HkN|HkN].
    + cbn. repeat split; try contradiction; try lra; apply Hmono; assumption.
    + assert (Hlog : (photon_emission_terms.log_frac tb e u k <= ln 1)%R).
      { destruct (photon_y_coords tb k Hparams Hstorage ltac:(lia)) as [Hstep Htop].
        unfold photon_emission_terms.log_frac.
        pose proof (linear_interp_between _ _ _ _ _ (conj (Hleft Hk0) (Hright HkN)) Hstep)
          as [_ Hle].
        apply Rle_trans
          with (t2d.get_y_coord (photon_emission.m_table tb) k); [exact Hle | exact Htop]. }
      assert (Hexp := exp_le_1 (photon_emission_terms.log_frac tb e u k)
                        ltac:(rewrite <- ln_1; exact Hlog)).
      remember (photon_emission_terms.log_frac tb e u k) as lf eqn:Hlf.
      cbn. repeat split; try contradiction; try exact ln_1; try exact Hlog; try nra;
        apply Hmono; assumption.
Qed.

(** The real numbers keep the signs. *)
#[global] Instance real_RealSign : RealSign R.
Proof.
  split.
  - intros a b Ha Hb. apply Rltb_false in Ha, Hb. apply Rltb_false.
    cbn in *. nra.
  - intros a. apply Rltb_false. cbn. pose proof (exp_pos a). lra.
Qed.

(** So do the real numbers with the infinities and NaN: the product of an
    infinity and zero is a NaN, which is not below zero. *)
#[global] Instance xreal_RealSign : RealSign extended.xreal.
Proof.
  split.
  - intros [a| | |] [b| | |] Ha Hb; cbn in *; try reflexivity; try discriminate.
    + apply Rltb_false in Ha, Hb. apply Rltb_false. nra.
    + apply Rltb_false in Ha. unfold extended.inf_times.
      destruct (Req_dec_T a 0); [reflexivity|].
      destruct (Rlt_dec 0 a); [reflexivity | lra].
    + apply Rltb_false in Hb. unfold extended.inf_times.
      destruct (Req_dec_T b 0); [reflexivity|].
      destruct (Rlt_dec 0 b); [reflexivity | lra].
  - intros [a| | |]; cbn; try reflexivity.
    + apply Rltb_false. pose proof (exp_pos a). lra.
    + apply Rltb_false. lra.
Qed.

Section cases.
Context {T V : Type} `{RealSign T} `{GridInterp T} `{VectorType T V}.
Import photon_emission photon_emission_terms.

(** For every scalar type: the three results of [interp], and the sign of
    the value. *)
Lemma photon_interp_not_below_zero (tb : photon_emission_lookup_table T V)
    (chi_part u : T) (is_out : bool_ptr) (h : heap) :
  r_lt chi_part r_zero = false ->
  r_lt (frac_min (m_params tb)) r_zero = false ->
  valid_ptr is_out h ->
  let e := clamped (chi_part_min (m_params tb)) (chi_part_max (m_params tb)) chi_part in
  let k := upper_frac_index tb e u in
  exists v h',
    interp tb chi_part u is_out h = Ok (v, h')
    /\ r_lt v r_zero = false
    /\ (k = 0 -> v = r_mul (frac_min (m_params tb)) chi_part)
    /\ (k <> 0 -> k = frac_how_many (m_params tb) -> v = chi_part)
    /\ (k <> 0 -> k <> frac_how_many (m_params tb) ->
        v = r_mul (m_exp (log_frac tb e u k)) chi_part).
Proof.
  intros Hchi Hfrac Hptr. cbn zeta.
  rewrite photon_interp_cases. cbn zeta.
  assert (Hflag : exists h',
    (if r_lt chi_part (chi_part_min (m_params tb))
        || r_lt (chi_part_max (m_params tb)) chi_part
     then flag_out is_out h else Ok h) = Ok h').
  { destruct (_ || _); [|eauto]. rewrite flag_out_flagged by exact Hptr. eauto. }
  destruct Hflag as [h' ->]. eexists. exists h'. split; [reflexivity|].
  destruct (Z.eqb_spec (upper_frac_index tb
              (clamped (chi_part_min (m_params tb)) (chi_part_max (m_params tb)) chi_part)
              u) 0) as [Hk0|Hk0].
  - split; [apply r_mul_not_below_zero; assumption|].
    repeat split; try contradiction; reflexivity.
  - destruct (Z.eqb_spec (upper_frac_index tb
                (clamped (chi_part_min (m_params tb)) (chi_part_max (m_params tb)) chi_part)
                u) (frac_how_many (m_params tb))) as [HkN|HkN].
    + split; [exact Hchi|]. repeat split; try contradiction; reflexivity.
    + split; [apply r_mul_not_below_zero; [apply m_exp_not_below_zero | exact Hchi]|].
      repeat split; try contradiction; reflexivity.
Qed.
End cases.


Lemma emission_params_wf :
  photon_emission_model.params_wf (photon_emission.m_params examples.emission_table).
Proof. repeat split; real_order. Qed.




(** * Further properties of the code *)

(** ** Importing values *)

Section import_props.
Context {T : Type} `{RealOps T}.

(** A write past the end of the storage is undefined, wherever it happens in
    the loop. *)
Lemma photon_set_all_vals_loop_past_end (todo : list T) :
  forall (table : t2d.equispaced_2d_table T (list T)) (i : nat),
    todo <> [] ->
    (length (t2d.m_values table) < i + length todo)%nat ->
    photon_emission.set_all_vals_loop table i todo = Undefined.
Proof.
  induction todo as [|v todo IH]; intros table i Hne Hlen; [contradiction|].
  cbn [photon_emission.set_all_vals_loop]. cbn zeta. unfold t2d.set_val.
  destruct (decide (i < length (t2d.m_values table))%nat) as [Hi|Hi]; [|reflexivity].
  cbn [mbind outcome_bind].
  apply IH.
  - destruct todo; [cbn in Hlen; lia | discriminate].
  - cbn [t2d.m_values length] in *. rewrite length_insert. lia.
Qed.

(** The call of the photon emission table when the storage holds at least
    the samples of the grid: what is beyond them stays. *)
Lemma photon_set_all_vals_fits (tb : photon_emission.owner_type T) (vals : list T) :
  Z.of_nat (length vals)
  = t2d.get_how_many_x (photon_emission.m_table tb)
    * t2d.get_how_many_y (photon_emission.m_table tb) ->
  (length vals <= length (t2d.m_values (photon_emission.m_table tb)))%nat ->
  photon_emission.set_all_vals tb vals
  = Ok (true, photon_emission.mk_table (photon_emission.m_params tb) true
                (t2d.mk (t2d.m_x_min (photon_emission.m_table tb))
                        (t2d.m_x_max (photon_emission.m_table tb))
                        (t2d.m_y_min (photon_emission.m_table tb))
                        (t2d.m_y_max (photon_emission.m_table tb))
                        (t2d.m_how_many_x (photon_emission.m_table tb))
                        (t2d.m_how_many_y (photon_emission.m_table tb))
                        (map (fun v => if r_isinf (m_log v) then r_lowest else m_log v) vals
                         ++ drop (length vals)
                              (t2d.m_values (photon_emission.m_table tb))))).
Proof.
  intros Hlen Hfit. unfold photon_emission.set_all_vals.
  destruct (decide _) as [_|Hne]; [|contradiction].
  rewrite photon_set_all_vals_loop_ok by lia. reflexivity.
Qed.

(** What a successful call of the photon emission table says about its
    arguments, and the table it leaves. *)
Lemma photon_set_all_vals_success (tb tb' : photon_emission.owner_type T) (vals : list T) :
  photon_emission.set_all_vals tb vals = Ok (true, tb') ->
  Z.of_nat (length vals)
  = t2d.get_how_many_x (photon_emission.m_table tb)
    * t2d.get_how_many_y (photon_emission.m_table tb)
  /\ (length vals <= length (t2d.m_values (photon_emission.m_table tb)))%nat
  /\ tb' = photon_emission.mk_table (photon_emission.m_params tb) true
             (t2d.mk (t2d.m_x_min (photon_emission.m_table tb))
                     (t2d.m_x_max (photon_emission.m_table tb))
                     (t2d.m_y_min (photon_emission.m_table tb))
                     (t2d.m_y_max (photon_emission.m_table tb))
                     (t2d.m_how_many_x (photon_emission.m_table tb))
                     (t2d.m_how_many_y (photon_emission.m_table tb))
                     (map (fun v => if r_isinf (m_log v) then r_lowest else m_log v) vals
                      ++ drop (length vals) (t2d.m_values (photon_emission.m_table tb)))).
Proof.
  intros Hcall.
  assert (Hlen : Z.of_nat (length vals)
                 = t2d.get_how_many_x (photon_emission.m_table tb)
                   * t2d.get_how_many_y (photon_emission.m_table tb)).
  { unfold photon_emission.set_all_vals in Hcall.
    destruct (decide _) as [Hlen|_]; [exact Hlen | discriminate]. }
  split; [exact Hlen|].
  assert (Hfit : (length vals <= length (t2d.m_values (photon_emission.m_table tb)))%nat).
  { destruct (le_lt_dec (length vals)
                (length (t2d.m_values (photon_emission.m_table tb)))) as [Hle|Hlt];
      [exact Hle|].
    unfold photon_emission.set_all_vals in Hcall.
    destruct (decide _) as [_|Hne]; [|contradiction].
    rewrite photon_set_all_vals_loop_past_end in Hcall; [discriminate| |lia].
    intros ->. cbn in Hlt. lia. }
  split; [exact Hfit|].
  unfold photon_emission.set_all_vals in Hcall.
  destruct (decide _) as [_|Hne]; [|contradiction].
  rewrite photon_set_all_vals_loop_ok in Hcall by lia.
  cbn in Hcall. injection Hcall as <-. reflexivity.
Qed.

Lemma dndt_set_all_vals_success (tb tb' : dndt.owner_type T) (vals : list T) :
  dndt.set_all_vals tb vals = Ok (true, tb') ->
  length vals = length (t1d.m_values (dndt.m_table tb))
  /\ tb' = dndt.mk_table (dndt.m_params tb) true
             (t1d.mk (t1d.m_x_min (dndt.m_table tb)) (t1d.m_x_max (dndt.m_table tb))
                     (map m_log vals)).
Proof.
  intros Hcall.
  assert (Hlen : Z.of_nat (length vals) = t1d.get_how_many_x (dndt.m_table tb)).
  { unfold dndt.set_all_vals in Hcall.
    destruct (decide _) as [Hlen|_]; [exact Hlen | discriminate]. }
  rewrite (dndt_set_all_vals_ok tb vals Hlen) in Hcall. injection Hcall as <-.
  split; [|reflexivity].
  unfold t1d.get_how_many_x, v_content, std_vector_VectorType in Hlen. lia.
Qed.
End import_props.

(** X1. For a dN/dt table and an input vector with as many elements as the
    grid has samples, [set_all_vals] returns true, sets the initialization
    flag, keeps the parameters and the bounds of the grid, and stores
    [log(v)] for every element [v]: there is no special case, the logarithm
    of zero is stored as it is. *)
Theorem dndt_set_all_vals_stores_log {T : Type} `{RealOps T}
    (tb : dndt.owner_type T) (vals : list T) :
  Z.of_nat (length vals) = t1d.get_how_many_x (dndt.m_table tb) ->
  exists tb',
    dndt.set_all_vals tb vals = Ok (true, tb')
    /\ dndt.is_init tb' = true
    /\ dndt.m_params tb' = dndt.m_params tb
    /\ t1d.m_x_min (dndt.m_table tb') = t1d.m_x_min (dndt.m_table tb)
    /\ t1d.m_x_max (dndt.m_table tb') = t1d.m_x_max (dndt.m_table tb)
    /\ length (t1d.m_values (dndt.m_table tb')) = length vals
    /\ (forall i v,
          vals !! i = Some v ->
          t1d.m_values (dndt.m_table tb') !! i = Some (m_log v)).
Proof.
  intros Hlen. eexists. split; [apply dndt_set_all_vals_ok, Hlen|].
  cbn. repeat split; [apply length_map|].
  intros i v Hi. rewrite list_lookup_fmap, Hi. reflexivity.
Qed.

(** A table of three samples over the extended reals, and the import of a
    zero. *)
Lemma dndt_set_all_vals_stores_log_witness :
  let tb := dndt.make (dndt.mk_params (extended.Fin (/ 1000)) (extended.Fin 1000) 2) in
  Z.of_nat (length [extended.Fin 0; extended.Fin 1]) = t1d.get_how_many_x (dndt.m_table tb)
  /\ exists tb',
       dndt.set_all_vals tb [extended.Fin 0; extended.Fin 1] = Ok (true, tb')
       /\ dndt.is_init tb' = true
       /\ t1d.m_values (dndt.m_table tb') !! 0%nat = Some (m_log (extended.Fin 0)).
Proof.
  cbn zeta.
  assert (Hlen : Z.of_nat (length [extended.Fin 0; extended.Fin 1])
                 = t1d.get_how_many_x
                     (dndt.m_table (dndt.make (dndt.mk_params (extended.Fin (/ 1000))
                                                 (extended.Fin 1000) 2))))
    by reflexivity.
  split; [exact Hlen|].
  destruct (dndt_set_all_vals_stores_log _ _ Hlen)
    as (tb' & Hcall & Hinit & _ & _ & _ & _ & Hvals).
  exists tb'. split; [exact Hcall|]. split; [exact Hinit|].
  exact (Hvals 0%nat (extended.Fin 0) eq_refl).
Defined.

(** X2. An import replaces what an earlier import stored: for both tables,
    after a successful [set_all_vals(vals1)], [set_all_vals(vals2)] with a
    vector of the same length gives the result and the table that
    [set_all_vals(vals2)] gives on the table before the first import. *)
Theorem set_all_vals_twice {T : Type} `{RealOps T} :
  (forall (tb tb1 : dndt.owner_type T) (vals1 vals2 : list T),
     dndt.set_all_vals tb vals1 = Ok (true, tb1) ->
     length vals2 = length vals1 ->
     dndt.set_all_vals tb1 vals2 = dndt.set_all_vals tb vals2
     /\ exists tb2, dndt.set_all_vals tb1 vals2 = Ok (true, tb2))
  /\ (forall (tb tb1 : photon_emission.owner_type T) (vals1 vals2 : list T),
        photon_emission.set_all_vals tb vals1 = Ok (true, tb1) ->
        length vals2 = length vals1 ->
        photon_emission.set_all_vals tb1 vals2 = photon_emission.set_all_vals tb vals2
        /\ exists tb2, photon_emission.set_all_vals tb1 vals2 = Ok (true, tb2)).
Proof.
  split; intros tb tb1 vals1 vals2 Hfirst Hsame.
  - destruct (dndt_set_all_vals_success tb tb1 vals1 Hfirst) as [Hlen ->].
    rewrite (dndt_set_all_vals_ok tb vals2)
      by (unfold t1d.get_how_many_x, v_content, std_vector_VectorType; lia).
    rewrite dndt_set_all_vals_ok
      by (unfold t1d.get_how_many_x, v_content, std_vector_VectorType; cbn;
          rewrite length_map; lia).
    cbn. split; [reflexivity | eexists; reflexivity].
  - destruct (photon_set_all_vals_success tb tb1 vals1 Hfirst) as (Hlen & Hfit & ->).
    rewrite (photon_set_all_vals_fits tb vals2) by lia.
    unfold t2d.get_how_many_x, t2d.get_how_many_y in Hlen.
    rewrite photon_set_all_vals_fits
      by (unfold t2d.get_how_many_x, t2d.get_how_many_y; cbn;
          rewrite ?length_app, ?length_map, ?length_drop; lia).
    cbn. rewrite Hsame.
    rewrite (drop_app_length' _ _ (length vals1)) by (symmetry; apply length_map).
    split; [reflexivity | eexists; reflexivity].
Qed.

Lemma set_all_vals_twice_witness :
  dndt.set_all_vals examples.rate_table [1; 1; 1; 1; 1; 1; 1; 1]%R
  = Ok (true, dndt.mk_table examples.rate_params true
                (t1d.mk (ln (/ 1000)) (ln 1000) (map ln [1; 1; 1; 1; 1; 1; 1; 1]%R)))
  /\ length [2; 2; 2; 2; 2; 2; 2; 2]%R = length [1; 1; 1; 1; 1; 1; 1; 1]%R
  /\ dndt.set_all_vals
       (dndt.mk_table examples.rate_params true
          (t1d.mk (ln (/ 1000)) (ln 1000) (map ln [1; 1; 1; 1; 1; 1; 1; 1]%R)))
       [2; 2; 2; 2; 2; 2; 2; 2]%R
     = dndt.set_all_vals examples.rate_table [2; 2; 2; 2; 2; 2; 2; 2]%R.
Proof.
  assert (Hfirst :
    dndt.set_all_vals examples.rate_table [1; 1; 1; 1; 1; 1; 1; 1]%R
    = Ok (true, dndt.mk_table examples.rate_params true
                  (t1d.mk (ln (/ 1000)) (ln 1000) (map ln [1; 1; 1; 1; 1; 1; 1; 1]%R))))
    by exact (dndt_set_all_vals_ok examples.rate_table
                [1; 1; 1; 1; 1; 1; 1; 1]%R eq_refl).
  split; [exact Hfirst|]. split; [reflexivity|].
  exact (proj1 (proj1 (@set_all_vals_twice R _) _ _ _ [2; 2; 2; 2; 2; 2; 2; 2]%R
                  Hfirst eq_refl)).
Defined.


(** X3. After a successful [set_all_vals] of the photon emission table no
    imported sample is infinite, provided [lowest()] is not: the first
    [vals.size()] samples of the storage are finite or NaN, and so is every
    sample when the storage holds exactly the samples of the grid. *)
Theorem photon_set_all_vals_no_infinity {T : Type} `{RealOps T}
    (tb tb' : photon_emission.owner_type T) (vals : list T) :
  r_isinf r_lowest = false ->
  photon_emission.set_all_vals tb vals = Ok (true, tb') ->
  (forall i x,
     (i < length vals)%nat ->
     t2d.m_values (photon_emission.m_table tb') !! i = Some x ->
     r_isinf x = false)
  /\ (length (t2d.m_values (photon_emission.m_table tb)) = length vals ->
      Forall (fun x => r_isinf x = false) (t2d.m_values (photon_emission.m_table tb'))).
Proof.
  intros Hlowest Hcall.
  destruct (photon_set_all_vals_success tb tb' vals Hcall) as (_ & Hfit & ->). cbn.
  assert (Hstored : Forall (fun x => r_isinf x = false)
            (map (fun v => if r_isinf (m_log v) then r_lowest else m_log v) vals)).
  { clear Hfit Hcall. induction vals as [|v vals IH]; cbn; constructor; [|exact IH].
    destruct (r_isinf (m_log v)) eqn:Hv; [exact Hlowest | exact Hv]. }
  split.
  - intros i x Hi Hx. rewrite lookup_app_l in Hx by (rewrite length_map; exact Hi).
    exact (proj1 (Forall_lookup _ _) Hstored i x Hx).
  - intros Hexact. rewrite drop_ge, app_nil_r by lia. exact Hstored.
Qed.

Lemma photon_set_all_vals_no_infinity_witness :
  r_isinf (r_lowest : extended.xreal) = false
  /\ exists tb',
       photon_emission.set_all_vals extended.small_table [extended.Fin 0; extended.PInf]
       = Ok (true, tb')
       /\ Forall (fun x => r_isinf x = false)
            (t2d.m_values (photon_emission.m_table tb')).
Proof.
  split; [reflexivity|].
  assert (Hcall :
    photon_emission.set_all_vals extended.small_table [extended.Fin 0; extended.PInf]
    = Ok (true, _))
    by exact (photon_set_all_vals_fits extended.small_table
                [extended.Fin 0; extended.PInf] eq_refl (le_n 2)).
  eexists. split; [exact Hcall|].
  exact (proj2 (photon_set_all_vals_no_infinity _ _ _ eq_refl Hcall) eq_refl).
Defined.

(** X4. When the storage of a photon emission table holds fewer samples than
    its two resolutions say (the constructor from values takes any vector),
    [set_all_vals] with a vector of the length that the resolutions ask for
    writes past the end of the storage: the call is undefined. *)
Theorem photon_set_all_vals_short_storage {T : Type} `{RealOps T}
    (tb : photon_emission.owner_type T) (vals : list T) :
  Z.of_nat (length vals)
  = t2d.get_how_many_x (photon_emission.m_table tb)
    * t2d.get_how_many_y (photon_emission.m_table tb) ->
  (length (t2d.m_values (photon_emission.m_table tb)) < length vals)%nat ->
  photon_emission.set_all_vals tb vals = Undefined.
Proof.
  intros Hlen Hshort. unfold photon_emission.set_all_vals.
  destruct (decide _) as [_|Hne]; [|contradiction].
  rewrite photon_set_all_vals_loop_past_end; [reflexivity| |lia].
  intros ->. cbn in Hshort. lia.
Qed.

Lemma photon_set_all_vals_short_storage_witness :
  let tb := photon_emission.make_with_vals extended.small_params [extended.Fin 0] in
  Z.of_nat (length [extended.Fin 1; extended.Fin 1])
  = t2d.get_how_many_x (photon_emission.m_table tb)
    * t2d.get_how_many_y (photon_emission.m_table tb)
  /\ (length (t2d.m_values (photon_emission.m_table tb))
      < length [extended.Fin 1; extended.Fin 1])%nat
  /\ photon_emission.set_all_vals tb [extended.Fin 1; extended.Fin 1] = Undefined.
Proof.
  cbn zeta.
  assert (Hlen :
    Z.of_nat (length [extended.Fin 1; extended.Fin 1])
    = t2d.get_how_many_x
        (photon_emission.m_table
           (photon_emission.make_with_vals extended.small_params [extended.Fin 0]))
      * t2d.get_how_many_y
          (photon_emission.m_table
             (photon_emission.make_with_vals extended.small_params [extended.Fin 0])))
    by reflexivity.
  assert (Hshort :
    (length (t2d.m_values
               (photon_emission.m_table
                  (photon_emission.make_with_vals extended.small_params [extended.Fin 0])))
     < length [extended.Fin 1; extended.Fin 1])%nat)
    by (cbn; lia).
  split; [exact Hlen|]. split; [exact Hshort|].
  exact (photon_set_all_vals_short_storage _ _ Hlen Hshort).
Defined.

(** ** From the parameters to a view *)

Section lifecycle.
Context {T : Type} `{RealOps T} `{GridInterp T}.

Lemma dndt_fill (params : dndt.dndt_lookup_table_params T) (vals : list T) :
  dndt_model.params_wf params ->
  Z.of_nat (length vals) = dndt.chi_part_how_many params ->
  exists tb view,
    dndt.set_all_vals (dndt.make params) vals = Ok (true, tb)
    /\ dndt.get_view tb = Ok view
    /\ dndt.m_params view = params
    /\ v_content (t1d.m_values (dndt.m_table view)) = map m_log vals
    /\ (forall chi_part is_out h,
          dndt.interp view chi_part is_out h = dndt.interp tb chi_part is_out h).
Proof.
  intros Hparams Hlen.
  destruct (dndt_make_wf params Hparams) as [Hwf _].
  assert (Hgrid : Z.of_nat (length vals) = t1d.get_how_many_x (dndt.m_table (dndt.make params))).
  { destruct Hwf as (_ & _ & Hcount & _). unfold t1d.get_how_many_x.
    rewrite Hcount. exact Hlen. }
  pose proof (dndt_set_all_vals_ok (dndt.make params) vals Hgrid) as Hcall.
  destruct (dndt_set_all_vals_wf _ _ _ Hwf Hcall) as (Hwf' & Hinit & Hsame).
  eexists. eexists (dndt.make_with_vals params _).
  split; [exact Hcall|].
  assert (Hview : dndt.get_view
            (dndt.mk_table (dndt.m_params (dndt.make params)) true
               (t1d.mk (t1d.m_x_min (dndt.m_table (dndt.make params)))
                       (t1d.m_x_max (dndt.m_table (dndt.make params)))
                       (map m_log vals)))
          = Ok (dndt.make_with_vals params
                  (mk_span (size_t_of_int (dndt.chi_part_how_many params)) (map m_log vals))))
    by reflexivity.
  split; [exact Hview|]. split; [reflexivity|].
  split.
  - exact (dndt_view_content _ _ Hwf' Hview).
  - exact (dndt_view_interp _ _ Hwf' Hview).
Qed.

Lemma photon_fill (params : photon_emission.photon_emission_lookup_table_params T)
    (vals : list T) :
  photon_emission_model.params_wf params ->
  Z.of_nat (length vals)
  = photon_emission.chi_part_how_many params * photon_emission.frac_how_many params ->
  exists tb view,
    photon_emission.set_all_vals (photon_emission.make params) vals = Ok (true, tb)
    /\ photon_emission.get_view tb = Ok view
    /\ photon_emission.m_params view = params
    /\ v_content (t2d.m_values (photon_emission.m_table view))
       = map (fun v => if r_isinf (m_log v) then r_lowest else m_log v) vals
    /\ (forall chi_part u is_out h,
          photon_emission.interp view chi_part u is_out h
          = photon_emission.interp tb chi_part u is_out h).
Proof.
  intros Hparams Hlen.
  destruct (photon_make_wf params Hparams) as [Hwf _].
  pose proof Hwf as (_ & _ & _ & _ & Hnx & Hny & Hcount & _).
  unfold v_content, std_vector_VectorType in Hcount.
  assert (Hstore : length (t2d.m_values (photon_emission.m_table (photon_emission.make params)))
                   = length vals)
    by (apply Nat2Z.inj; rewrite Hcount, Hlen; reflexivity).
  assert (Hgrid : Z.of_nat (length vals)
                  = t2d.get_how_many_x (photon_emission.m_table (photon_emission.make params))
                    * t2d.get_how_many_y
                        (photon_emission.m_table (photon_emission.make params)))
    by exact Hlen.
  pose proof (photon_set_all_vals_ok (photon_emission.make params) vals Hstore Hgrid) as Hcall.
  destruct (photon_set_all_vals_wf _ _ _ Hwf Hcall) as (Hwf' & Hinit & Hsame).
  eexists. eexists (photon_emission.make_with_vals params _).
  split; [exact Hcall|].
  assert (Hview : photon_emission.get_view
            (photon_emission.mk_table
               (photon_emission.m_params (photon_emission.make params)) true
               (t2d.mk (t2d.m_x_min (photon_emission.m_table (photon_emission.make params)))
                       (t2d.m_x_max (photon_emission.m_table (photon_emission.make params)))
                       (t2d.m_y_min (photon_emission.m_table (photon_emission.make params)))
                       (t2d.m_y_max (photon_emission.m_table (photon_emission.make params)))
                       (t2d.m_how_many_x (photon_emission.m_table (photon_emission.make params)))
                       (t2d.m_how_many_y (photon_emission.m_table (photon_emission.make params)))
                       (map (fun v => if r_isinf (m_log v) then r_lowest else m_log v) vals)))
          = Ok (photon_emission.make_with_vals params
                  (mk_span (size_t_of_int (photon_emission.chi_part_how_many params
                                           * photon_emission.frac_how_many params))
                           (map (fun v => if r_isinf (m_log v) then r_lowest else m_log v)
                                vals))))
    by reflexivity.
  split; [exact Hview|]. split; [reflexivity|].
  split.
  - exact (photon_view_content _ _ Hwf' Hview).
  - exact (photon_view_interp _ _ Hwf' Hview).
Qed.
End lifecycle.

(** X5. A table built from parameters that follow the data model is not
    initialized and has no view; once [set_all_vals] is given as many values
    as the parameters ask for, it returns true, [get_view] returns a view
    with these parameters, the view reads exactly the logarithms that were
    stored, and [interp] of the view is [interp] of the table. *)
Theorem table_from_params_to_view {T : Type} `{RealOps T} `{GridInterp T} :
  (forall (params : dndt.dndt_lookup_table_params T) (vals : list T),
     dndt_model.params_wf params ->
     Z.of_nat (length vals) = dndt.chi_part_how_many params ->
     dndt.get_view (dndt.make params) = Throw (runtime_error dndt.view_what)
     /\ exists tb view,
          dndt.set_all_vals (dndt.make params) vals = Ok (true, tb)
          /\ dndt.get_view tb = Ok view
          /\ dndt.m_params view = params
          /\ v_content (t1d.m_values (dndt.m_table view)) = map m_log vals
          /\ (forall chi_part is_out h,
                dndt.interp view chi_part is_out h = dndt.interp tb chi_part is_out h))
  /\ (forall (params : photon_emission.photon_emission_lookup_table_params T)
        (vals : list T),
        photon_emission_model.params_wf params ->
        Z.of_nat (length vals)
        = photon_emission.chi_part_how_many params * photon_emission.frac_how_many params ->
        photon_emission.get_view (photon_emission.make params)
        = Throw (runtime_error photon_emission.view_what)
        /\ exists tb view,
             photon_emission.set_all_vals (photon_emission.make params) vals = Ok (true, tb)
             /\ photon_emission.get_view tb = Ok view
             /\ photon_emission.m_params view = params
             /\ v_content (t2d.m_values (photon_emission.m_table view))
                = map (fun v => if r_isinf (m_log v) then r_lowest else m_log v) vals
             /\ (forall chi_part u is_out h,
                   photon_emission.interp view chi_part u is_out h
                   = photon_emission.interp tb chi_part u is_out h)).
Proof.
  split; intros params vals Hparams Hlen.
  - split; [reflexivity | exact (dndt_fill params vals Hparams Hlen)].
  - split; [reflexivity | exact (photon_fill params vals Hparams Hlen)].
Qed.

Lemma rate_params_wf : dndt_model.params_wf examples.rate_params.
Proof. repeat split; real_order. Qed.

Lemma table_from_params_to_view_witness :
  dndt_model.params_wf examples.rate_params
  /\ Z.of_nat (length [1; 2; 3; 4; 5; 6; 7; 8]%R) = dndt.chi_part_how_many examples.rate_params
  /\ exists tb view,
       dndt.set_all_vals (dndt.make examples.rate_params) [1; 2; 3; 4; 5; 6; 7; 8]%R
       = Ok (true, tb)
       /\ dndt.get_view tb = Ok view
       /\ v_content (t1d.m_values (dndt.m_table view))
          = map m_log [1; 2; 3; 4; 5; 6; 7; 8]%R.
Proof.
  split; [exact rate_params_wf|]. split; [reflexivity|].
  destruct (proj2 (proj1 (@table_from_params_to_view R _ _) examples.rate_params
                     [1; 2; 3; 4; 5; 6; 7; 8]%R rate_params_wf eq_refl))
    as (tb & view & Hcall & Hview & _ & Hcontent & _).
  exists tb, view. auto.
Defined.


(** ** What the constructor from bytes returns *)

Section of_bytes_result.
Context {T : Type} `{Pod T}.

Lemma dndt_of_bytes_result (raw_data : list byte) (tb : dndt.owner_type T) :
  dndt.of_bytes raw_data = Ok tb ->
  dndt.m_init_flag tb = true
  /\ (sizeof byte + sizeof (dndt.dndt_lookup_table_params T) <= length raw_data)%nat
  /\ head raw_data = Some (realtype_tag T)
  /\ dndt.m_params tb
     = from_bytes (take (sizeof (dndt.dndt_lookup_table_params T)) (drop 1 raw_data)).
Proof.
  unfold dndt.of_bytes. destruct (decide _) as [|Hlong]; [discriminate|].
  destruct raw_data as [|tag rest]; [cbn in Hlong; lia|].
  change (get_out byte (tag :: rest)) with (Ok (tag, rest) : outcome (byte * list byte)).
  cbn [mbind outcome_bind].
  destruct (Byte.eqb tag (realtype_tag T)) eqn:Htag; [|discriminate]. cbn [negb].
  apply Byte.byte_dec_bl in Htag. subst tag.
  unfold get_out at 1. destruct (decide _) as [|_]; [discriminate|].
  cbn [mbind outcome_bind].
  destruct (t1d.of_bytes _) as [table| |]; cbn; [|discriminate..].
  intros [= <-]. split; [reflexivity|].
  split; [exact (proj1 (Nat.nlt_ge _ _) Hlong)|]. split; reflexivity.
Qed.

Lemma photon_of_bytes_result (raw_data : list byte) (tb : photon_emission.owner_type T) :
  photon_emission.of_bytes raw_data = Ok tb ->
  photon_emission.m_init_flag tb = true
  /\ (sizeof byte + sizeof (photon_emission.photon_emission_lookup_table_params T)
      <= length raw_data)%nat
  /\ head raw_data = Some (realtype_tag T)
  /\ photon_emission.m_params tb
     = from_bytes (take (sizeof (photon_emission.photon_emission_lookup_table_params T))
                        (drop 1 raw_data)).
Proof.
  unfold photon_emission.of_bytes. destruct (decide _) as [|Hlong]; [discriminate|].
  destruct raw_data as [|tag rest]; [cbn in Hlong; lia|].
  change (get_out byte (tag :: rest)) with (Ok (tag, rest) : outcome (byte * list byte)).
  cbn [mbind outcome_bind].
  destruct (Byte.eqb tag (realtype_tag T)) eqn:Htag; [|discriminate]. cbn [negb].
  apply Byte.byte_dec_bl in Htag. subst tag.
  unfold get_out at 1. destruct (decide _) as [|_]; [discriminate|].
  cbn [mbind outcome_bind].
  destruct (t2d.of_bytes _) as [table| |]; cbn; [|discriminate..].
  intros [= <-]. split; [reflexivity|].
  split; [exact (proj1 (Nat.nlt_ge _ _) Hlong)|]. split; reflexivity.
Qed.
End of_bytes_result.

(** X6. Whenever the constructor from bytes of either table returns a table,
    that table is initialized, so [serialize] on it does not throw; the
    buffer had at least [1 + sizeof(parameters)] bytes, its first byte was
    [sizeof(RealType)], and the parameters of the table are the bytes that
    follow the first. *)
Theorem of_bytes_gives_initialized {T : Type} `{Pod T} :
  (forall (raw_data : list byte) (tb : dndt.owner_type T),
     dndt.of_bytes raw_data = Ok tb ->
     dndt.is_init tb = true
     /\ (exists bytes, dndt.serialize tb = (Ok bytes, tb))
     /\ (sizeof byte + sizeof (dndt.dndt_lookup_table_params T) <= length raw_data)%nat
     /\ head raw_data = Some (realtype_tag T)
     /\ dndt.m_params tb
        = from_bytes (take (sizeof (dndt.dndt_lookup_table_params T)) (drop 1 raw_data)))
  /\ (forall (raw_data : list byte) (tb : photon_emission.owner_type T),
        photon_emission.of_bytes raw_data = Ok tb ->
        photon_emission.is_init tb = true
        /\ (exists bytes, photon_emission.serialize tb = (Ok bytes, tb))
        /\ (sizeof byte + sizeof (photon_emission.photon_emission_lookup_table_params T)
            <= length raw_data)%nat
        /\ head raw_data = Some (realtype_tag T)
        /\ photon_emission.m_params tb
           = from_bytes
               (take (sizeof (photon_emission.photon_emission_lookup_table_params T))
                     (drop 1 raw_data))).
Proof.
  split; intros raw_data tb Hread.
  - destruct (dndt_of_bytes_result raw_data tb Hread) as (Hinit & Hlong & Hhead & Hparams).
    split; [exact Hinit|]. split; [|auto].
    unfold dndt.serialize. rewrite Hinit. cbn [negb]. eauto.
  - destruct (photon_of_bytes_result raw_data tb Hread) as (Hinit & Hlong & Hhead & Hparams).
    split; [exact Hinit|]. split; [|auto].
    unfold photon_emission.serialize. rewrite Hinit. cbn [negb]. eauto.
Qed.

Lemma of_bytes_gives_initialized_witness :
  exists raw_data tb,
    dndt.of_bytes (T:=ieee.binary64) raw_data = Ok tb
    /\ dndt.is_init tb = true
    /\ head raw_data = Some (realtype_tag ieee.binary64).
Proof.
  destruct (dndt_round_trip ieee.stored_rate_table eq_refl stored_rate_table_storable)
    as (raw_data & _ & Hread).
  exists raw_data, ieee.stored_rate_table. split; [exact Hread|].
  destruct (proj1 (@of_bytes_gives_initialized ieee.binary64 _) raw_data _ Hread)
    as (Hinit & _ & _ & Hhead & _).
  split; [exact Hinit | exact Hhead].
Defined.

(** ** Tables written in one precision and read in the other *)

Section serialized_header.
Context {T : Type} `{PodLaws T}.

Lemma t1d_serialize_length (table : t1d.equispaced_1d_table T (list T)) :
  (sizeof T + sizeof T + sizeof Z <= length (t1d.serialize table))%nat.
Proof.
  unfold t1d.serialize. rewrite !length_app, !length_to_bytes.
  pose proof (length_to_bytes (A:=Z) (Z.of_nat (length (t1d.m_values table)))). lia.
Qed.

Lemma t2d_serialize_length (table : t2d.equispaced_2d_table T (list T)) :
  (4 * sizeof T + 2 * sizeof Z <= length (t2d.serialize table))%nat.
Proof.
  unfold t2d.serialize. rewrite !length_app, !length_to_bytes.
  pose proof (length_to_bytes (A:=Z) (t2d.m_how_many_x table)).
  pose proof (length_to_bytes (A:=Z) (t2d.m_how_many_y table)). lia.
Qed.
End serialized_header.

(** The sizes of the scalars and of the parameter records. *)
Ltac known_sizes :=
  change (sizeof (dndt.dndt_lookup_table_params ieee.binary32)) with 12%nat in *;
  change (sizeof (dndt.dndt_lookup_table_params ieee.binary64)) with 24%nat in *;
  change (sizeof (photon_emission.photon_emission_lookup_table_params ieee.binary32))
    with 20%nat in *;
  change (sizeof (photon_emission.photon_emission_lookup_table_params ieee.binary64))
    with 32%nat in *;
  change (sizeof ieee.binary32) with 4%nat in *;
  change (sizeof ieee.binary64) with 8%nat in *;
  change (sizeof Z) with 4%nat in *;
  change (sizeof byte) with 1%nat in *.

(** X7. The bytes of an initialized table written with [double] are refused
    by the constructor from bytes for [float], and the bytes of a table
    written with [float] by the constructor for [double]: for both kinds of
    table and whatever the table holds, the buffer is long enough for the
    size check and the constructor throws the error of the mismatch of the
    scalar types. *)
Theorem other_precision_is_refused :
  (forall tb : dndt.owner_type ieee.binary64,
     dndt.is_init tb = true ->
     exists raw_data,
       dndt.serialize tb = (Ok raw_data, tb)
       /\ dndt.of_bytes (T:=ieee.binary32) raw_data
          = Throw (runtime_error dndt.mismatch_what))
  /\ (forall tb : dndt.owner_type ieee.binary32,
        dndt.is_init tb = true ->
        exists raw_data,
          dndt.serialize tb = (Ok raw_data, tb)
          /\ dndt.of_bytes (T:=ieee.binary64) raw_data
             = Throw (runtime_error dndt.mismatch_what))
  /\ (forall tb : photon_emission.owner_type ieee.binary64,
        photon_emission.is_init tb = true ->
        exists raw_data,
          photon_emission.serialize tb = (Ok raw_data, tb)
          /\ photon_emission.of_bytes (T:=ieee.binary32) raw_data
             = Throw (runtime_error photon_emission.mismatch_what))
  /\ (forall tb : photon_emission.owner_type ieee.binary32,
        photon_emission.is_init tb = true ->
        exists raw_data,
          photon_emission.serialize tb = (Ok raw_data, tb)
          /\ photon_emission.of_bytes (T:=ieee.binary64) raw_data
             = Throw (runtime_error photon_emission.mismatch_what)).
Proof.
  repeat split; intros tb Hinit.
  - eexists. split; [exact (dndt_serialize_initialized tb Hinit)|].
    apply dndt_of_bytes_mismatch with (tag := realtype_tag ieee.binary64);
      [|reflexivity|discriminate].
    cbn [length]. rewrite length_app, length_to_bytes.
    pose proof (t1d_serialize_length (dndt.m_table tb)) as Hlen. known_sizes. lia.
  - eexists. split; [exact (dndt_serialize_initialized tb Hinit)|].
    apply dndt_of_bytes_mismatch with (tag := realtype_tag ieee.binary32);
      [|reflexivity|discriminate].
    cbn [length]. rewrite length_app, length_to_bytes.
    pose proof (t1d_serialize_length (dndt.m_table tb)) as Hlen. known_sizes. lia.
  - eexists. split; [exact (photon_serialize_initialized tb Hinit)|].
    apply photon_of_bytes_mismatch with (tag := realtype_tag ieee.binary64);
      [|reflexivity|discriminate].
    cbn [length]. rewrite length_app, length_to_bytes.
    pose proof (t2d_serialize_length (photon_emission.m_table tb)) as Hlen.
    known_sizes. lia.
  - eexists. split; [exact (photon_serialize_initialized tb Hinit)|].
    apply photon_of_bytes_mismatch with (tag := realtype_tag ieee.binary32);
      [|reflexivity|discriminate].
    cbn [length]. rewrite length_app, length_to_bytes.
    pose proof (t2d_serialize_length (photon_emission.m_table tb)) as Hlen.
    known_sizes. lia.
Qed.

Lemma other_precision_is_refused_witness :
  dndt.is_init ieee.stored_rate_table = true
  /\ exists raw_data,
       dndt.serialize ieee.stored_rate_table = (Ok raw_data, ieee.stored_rate_table)
       /\ dndt.of_bytes (T:=ieee.binary32) raw_data
          = Throw (runtime_error dndt.mismatch_what).
Proof.
  split; [reflexivity|].
  exact (proj1 other_precision_is_refused ieee.stored_rate_table eq_refl).
Defined.

(** X8. [serialize] loses nothing: two initialized tables of the same kind
    that can be written as bytes and give the same bytes are the same table,
    field by field and bit by bit (NaN samples included); tables that differ
    are never written as the same bytes. *)
Theorem serialize_injective {T : Type} `{PodLaws T} :
  (forall (tb1 tb2 : dndt.owner_type T) (raw1 raw2 : list byte),
     dndt.is_init tb1 = true -> dndt.is_init tb2 = true ->
     dndt_storable tb1 -> dndt_storable tb2 ->
     dndt.serialize tb1 = (Ok raw1, tb1) ->
     dndt.serialize tb2 = (Ok raw2, tb2) ->
     raw1 = raw2 -> tb1 = tb2)
  /\ (forall (tb1 tb2 : photon_emission.owner_type T) (raw1 raw2 : list byte),
        photon_emission.is_init tb1 = true -> photon_emission.is_init tb2 = true ->
        photon_storable tb1 -> photon_storable tb2 ->
        photon_emission.serialize tb1 = (Ok raw1, tb1) ->
        photon_emission.serialize tb2 = (Ok raw2, tb2) ->
        raw1 = raw2 -> tb1 = tb2).
Proof.
  split; intros tb1 tb2 raw1 raw2 Hinit1 Hinit2 Hst1 Hst2 Hser1 Hser2 Hsame.
  - destruct (dndt_round_trip tb1 Hinit1 Hst1) as (raw1' & Hw1 & Hr1).
    destruct (dndt_round_trip tb2 Hinit2 Hst2) as (raw2' & Hw2 & Hr2).
    rewrite Hser1 in Hw1. rewrite Hser2 in Hw2.
    injection Hw1 as <-. injection Hw2 as <-. congruence.
  - destruct (photon_round_trip tb1 Hinit1 Hst1) as (raw1' & Hw1 & Hr1).
    destruct (photon_round_trip tb2 Hinit2 Hst2) as (raw2' & Hw2 & Hr2).
    rewrite Hser1 in Hw1. rewrite Hser2 in Hw2.
    injection Hw1 as <-. injection Hw2 as <-. congruence.
Qed.

Lemma nan_rate_table_storable : dndt_storable ieee.nan_rate_table.
Proof.
  repeat split; cbn; try lia.
  repeat constructor.
Qed.

Lemma serialize_injective_witness :
  dndt.is_init ieee.stored_rate_table = true
  /\ dndt.is_init ieee.nan_rate_table = true
  /\ dndt_storable ieee.stored_rate_table
  /\ dndt_storable ieee.nan_rate_table
  /\ exists raw1 raw2,
       dndt.serialize ieee.stored_rate_table = (Ok raw1, ieee.stored_rate_table)
       /\ dndt.serialize ieee.nan_rate_table = (Ok raw2, ieee.nan_rate_table)
       /\ raw1 <> raw2.
Proof.
  split; [reflexivity|]. split; [reflexivity|].
  split; [exact stored_rate_table_storable|]. split; [exact nan_rate_table_storable|].
  eexists. eexists.
  split; [exact (dndt_serialize_initialized ieee.stored_rate_table eq_refl)|].
  split; [exact (dndt_serialize_initialized ieee.nan_rate_table eq_refl)|].
  intros Hsame.
  pose proof (proj1 (@serialize_injective ieee.binary64 _ _)
                ieee.stored_rate_table ieee.nan_rate_table _ _
                eq_refl eq_refl
                stored_rate_table_storable nan_rate_table_storable
                (dndt_serialize_initialized ieee.stored_rate_table eq_refl)
                (dndt_serialize_initialized ieee.nan_rate_table eq_refl)
                Hsame) as Htables.
  discriminate Htables.
Defined.


(** ** [operator==] *)

Section op_eq_props.
Context {T : Type} `{OpEq T}.

Lemma values_eq_sym `{!OpEqSym T} (l1 l2 : list T) : values_eq l1 l2 = values_eq l2 l1.
Proof.
  revert l2. induction l1 as [|a l1 IH]; intros [|b l2]; cbn; try reflexivity.
  rewrite (r_eq_sym a b), IH. reflexivity.
Qed.

Lemma values_eq_length (l1 l2 : list T) : values_eq l1 l2 = true -> length l1 = length l2.
Proof.
  revert l2. induction l1 as [|a l1 IH]; intros [|b l2]; cbn; try discriminate;
    [reflexivity|].
  intros Heq. apply andb_true_iff in Heq. destruct Heq as [_ Heq].
  rewrite (IH l2 Heq). reflexivity.
Qed.

Lemma values_eq_refl (l : list T) :
  values_eq l l = true <-> Forall (fun x => r_eq x x = true) l.
Proof.
  induction l as [|a l IH]; cbn.
  - split; [constructor | reflexivity].
  - rewrite andb_true_iff, IH. split.
    + intros [Ha Hl]. constructor; assumption.
    + intros Hall. inversion Hall; subst. auto.
Qed.

Lemma values_eq_lookup (l1 l2 : list T) (i : nat) (a b : T) :
  values_eq l1 l2 = true -> l1 !! i = Some a -> l2 !! i = Some b -> r_eq a b = true.
Proof.
  revert l2 i. induction l1 as [|x l1 IH]; intros [|y l2] i; cbn; try discriminate.
  intros Heq. apply andb_true_iff in Heq. destruct Heq as [Hxy Heq].
  destruct i as [|i]; cbn.
  - intros [= <-] [= <-]. exact Hxy.
  - apply IH. exact Heq.
Qed.
End op_eq_props.

(** X9. When [==] of the scalar type does not depend on the order of its
    operands, neither does [operator==] of the two kinds of table, of their
    parameters included. Two tables that are equal have the same
    initialization flag, the same resolutions and as many samples, and their
    samples are equal under [==] one by one. *)
Theorem op_eq_symmetric {T : Type} `{OpEqSym T} :
  (forall a b : dndt.owner_type T,
     dndt.op_eq a b = dndt.op_eq b a
     /\ dndt.params_eq (dndt.m_params a) (dndt.m_params b)
        = dndt.params_eq (dndt.m_params b) (dndt.m_params a)
     /\ (dndt.op_eq a b = true ->
         dndt.is_init a = dndt.is_init b
         /\ dndt.chi_part_how_many (dndt.m_params a)
            = dndt.chi_part_how_many (dndt.m_params b)
         /\ length (t1d.m_values (dndt.m_table a)) = length (t1d.m_values (dndt.m_table b))
         /\ forall i x y,
              t1d.m_values (dndt.m_table a) !! i = Some x ->
              t1d.m_values (dndt.m_table b) !! i = Some y ->
              r_eq x y = true))
  /\ (forall a b : photon_emission.owner_type T,
        photon_emission.op_eq a b = photon_emission.op_eq b a
        /\ photon_emission.params_eq (photon_emission.m_params a) (photon_emission.m_params b)
           = photon_emission.params_eq (photon_emission.m_params b)
               (photon_emission.m_params a)
        /\ (photon_emission.op_eq a b = true ->
            photon_emission.is_init a = photon_emission.is_init b
            /\ photon_emission.chi_part_how_many (photon_emission.m_params a)
               = photon_emission.chi_part_how_many (photon_emission.m_params b)
            /\ photon_emission.frac_how_many (photon_emission.m_params a)
               = photon_emission.frac_how_many (photon_emission.m_params b)
            /\ length (t2d.m_values (photon_emission.m_table a))
               = length (t2d.m_values (photon_emission.m_table b))
            /\ forall i x y,
                 t2d.m_values (photon_emission.m_table a) !! i = Some x ->
                 t2d.m_values (photon_emission.m_table b) !! i = Some y ->
                 r_eq x y = true)).
Proof.
  split; intros a b.
  - assert (Hparams : dndt.params_eq (dndt.m_params a) (dndt.m_params b)
                      = dndt.params_eq (dndt.m_params b) (dndt.m_params a)).
    { unfold dndt.params_eq.
      rewrite (r_eq_sym (dndt.chi_part_min (dndt.m_params a))),
        (r_eq_sym (dndt.chi_part_max (dndt.m_params a))), Z.eqb_sym. reflexivity. }
    split; [|split; [exact Hparams|]].
    + unfold dndt.op_eq, t1d.op_eq. rewrite Hparams.
      rewrite (r_eq_sym (t1d.m_x_min (dndt.m_table a))),
        (r_eq_sym (t1d.m_x_max (dndt.m_table a))), values_eq_sym.
      destruct (dndt.m_init_flag a), (dndt.m_init_flag b); reflexivity.
    + unfold dndt.op_eq, t1d.op_eq, dndt.params_eq, dndt.is_init.
      rewrite !andb_true_iff.
      intros [[[[_ _] Hn] Hflag] [[_ _] Hvals]].
      split; [apply Bool.eqb_prop, Hflag|]. split; [apply Z.eqb_eq, Hn|].
      split; [exact (values_eq_length _ _ Hvals)|].
      intros i x y. exact (values_eq_lookup _ _ i x y Hvals).
  - assert (Hparams :
      photon_emission.params_eq (photon_emission.m_params a) (photon_emission.m_params b)
      = photon_emission.params_eq (photon_emission.m_params b) (photon_emission.m_params a)).
    { unfold photon_emission.params_eq.
      rewrite (r_eq_sym (photon_emission.chi_part_min (photon_emission.m_params a))),
        (r_eq_sym (photon_emission.chi_part_max (photon_emission.m_params a))),
        (r_eq_sym (photon_emission.frac_min (photon_emission.m_params a))),
        (Z.eqb_sym (photon_emission.chi_part_how_many (photon_emission.m_params a))),
        (Z.eqb_sym (photon_emission.frac_how_many (photon_emission.m_params a))).
      reflexivity. }
    split; [|split; [exact Hparams|]].
    + unfold photon_emission.op_eq, t2d.op_eq. rewrite Hparams.
      rewrite (r_eq_sym (t2d.m_x_min (photon_emission.m_table a))),
        (r_eq_sym (t2d.m_x_max (photon_emission.m_table a))),
        (r_eq_sym (t2d.m_y_min (photon_emission.m_table a))),
        (r_eq_sym (t2d.m_y_max (photon_emission.m_table a))),
        (Z.eqb_sym (t2d.m_how_many_x (photon_emission.m_table a))),
        (Z.eqb_sym (t2d.m_how_many_y (photon_emission.m_table a))),
        values_eq_sym.
      destruct (photon_emission.m_init_flag a), (photon_emission.m_init_flag b);
        reflexivity.
    + unfold photon_emission.op_eq, t2d.op_eq, photon_emission.params_eq,
        photon_emission.is_init.
      rewrite !andb_true_iff.
      intros [[Hp Hflag] [_ Hvals]].
      split; [apply Bool.eqb_prop, Hflag|].
      split; [apply Z.eqb_eq; tauto|]. split; [apply Z.eqb_eq; tauto|].
      split; [exact (values_eq_length _ _ Hvals)|].
      intros i x y. exact (values_eq_lookup _ _ i x y Hvals).
Qed.

Lemma ieee_eq_sym (ebits mbits u v : Z) :
  ieee.ieee_eq ebits mbits u v = ieee.ieee_eq ebits mbits v u.
Proof.
  unfold ieee.ieee_eq. rewrite (Z.eqb_sym u v).
  destruct (ieee.is_nan ebits mbits u), (ieee.is_nan ebits mbits v),
    (v =? u), (ieee.is_zero ebits mbits u), (ieee.is_zero ebits mbits v); reflexivity.
Qed.

#[global] Instance binary32_OpEqSym : OpEqSym ieee.binary32.
Proof. intros x y. apply ieee_eq_sym. Qed.

#[global] Instance binary64_OpEqSym : OpEqSym ieee.binary64.
Proof. intros x y. apply ieee_eq_sym. Qed.

Lemma op_eq_symmetric_witness :
  dndt.op_eq ieee.stored_rate_table ieee.nan_rate_table
  = dndt.op_eq ieee.nan_rate_table ieee.stored_rate_table.
Proof.
  exact (proj1 (proj1 (@op_eq_symmetric ieee.binary64 _ binary64_OpEqSym)
                  ieee.stored_rate_table ieee.nan_rate_table)).
Defined.

(** X10. A table is equal to itself under [operator==] exactly when each of
    its scalars is equal to itself under [==]: the bounds in the parameters,
    the bounds of the grid and every sample. One scalar that is not (a NaN)
    among them makes the table differ from itself. *)
Theorem op_eq_reflexive_iff {T : Type} `{OpEq T} :
  (forall tb : dndt.owner_type T,
     dndt.op_eq tb tb = true
     <-> Forall (fun x => r_eq x x = true)
           (dndt.chi_part_min (dndt.m_params tb) :: dndt.chi_part_max (dndt.m_params tb)
            :: t1d.m_x_min (dndt.m_table tb) :: t1d.m_x_max (dndt.m_table tb)
            :: t1d.m_values (dndt.m_table tb)))
  /\ (forall tb : photon_emission.owner_type T,
        photon_emission.op_eq tb tb = true
        <-> Forall (fun x => r_eq x x = true)
              (photon_emission.chi_part_min (photon_emission.m_params tb)
               :: photon_emission.chi_part_max (photon_emission.m_params tb)
               :: photon_emission.frac_min (photon_emission.m_params tb)
               :: t2d.m_x_min (photon_emission.m_table tb)
               :: t2d.m_x_max (photon_emission.m_table tb)
               :: t2d.m_y_min (photon_emission.m_table tb)
               :: t2d.m_y_max (photon_emission.m_table tb)
               :: t2d.m_values (photon_emission.m_table tb))).
Proof.
  split; intros tb.
  - unfold dndt.op_eq, dndt.params_eq, t1d.op_eq.
    rewrite Z.eqb_refl, Bool.eqb_reflx, !andb_true_r, !andb_true_iff, values_eq_refl.
    rewrite !Forall_cons. unfold v_content, std_vector_VectorType. tauto.
  - unfold photon_emission.op_eq, photon_emission.params_eq, t2d.op_eq.
    rewrite !Z.eqb_refl, Bool.eqb_reflx, !andb_true_r, !andb_true_iff, values_eq_refl.
    rewrite !Forall_cons. unfold v_content, std_vector_VectorType. tauto.
Qed.


(** ** What [is_out] tells the caller *)

Section is_out_iff.
Context {T V : Type} `{RealOps T} `{GridInterp T} `{VectorType T V}.

Lemma flag_cases (out : bool) (a : nat) (h : heap) :
  h !! a = Some false ->
  exists h',
    (if out then flag_out (Some a) h else Ok h) = Ok h'
    /\ (h' !! a = Some true <-> out = true)
    /\ (forall b, b <> a -> h' !! b = h !! b)
    /\ length h' = length h.
Proof.
  intros Hcell. pose proof (lookup_lt_Some _ _ _ Hcell) as Hlt.
  destruct out.
  - exists (<[a:=true]> h). split; [apply flag_out_valid, Hlt|].
    split; [|split].
    + rewrite list_lookup_insert_eq by exact Hlt. tauto.
    + intros b Hb. apply list_lookup_insert_ne. auto.
    + apply length_insert.
  - exists h. split; [reflexivity|]. split; [|split; [reflexivity..]].
    rewrite Hcell. split; discriminate.
Qed.

Lemma dndt_interp_flag (tb : dndt.dndt_lookup_table T V) (chi_part : T)
    (is_out : bool_ptr) (h : heap) :
  dndt.interp tb chi_part is_out h
  = (h' ← (if r_lt chi_part (dndt.chi_part_min (dndt.m_params tb))
              || r_lt (dndt.chi_part_max (dndt.m_params tb)) chi_part
           then flag_out is_out h else Ok h);
     Ok (m_exp (t1d.interp (dndt.m_table tb)
                  (m_log (clamped (dndt.chi_part_min (dndt.m_params tb))
                                  (dndt.chi_part_max (dndt.m_params tb)) chi_part))),
         h')).
Proof.
  destruct (r_lt chi_part (dndt.chi_part_min (dndt.m_params tb))) eqn:Hlo; cbn [orb].
  - apply dndt_interp_outside. left. exact Hlo.
  - destruct (r_lt (dndt.chi_part_max (dndt.m_params tb)) chi_part) eqn:Hhi.
    + apply dndt_interp_outside. right. exact Hhi.
    + rewrite dndt_interp_inside by assumption.
      rewrite clamped_inside by assumption. reflexivity.
Qed.
End is_out_iff.

(** X11. For both tables and a bool of the caller that holds false before
    the call, [interp] with the address of this bool returns the value it
    returns with a null [is_out]; after the call the bool is true exactly
    when [chi_part < chi_part_min] or [chi_part > chi_part_max]; no other
    bool of the caller is changed. *)
Theorem interp_is_out_iff {T V : Type} `{RealOps T} `{GridInterp T} `{VectorType T V} :
  (forall (tb : dndt.dndt_lookup_table T V) (chi_part : T) (a : nat) (h : heap),
     h !! a = Some false ->
     exists v h',
       dndt.interp tb chi_part (Some a) h = Ok (v, h')
       /\ dndt.interp tb chi_part nullptr h = Ok (v, h)
       /\ (h' !! a = Some true
           <-> r_lt chi_part (dndt.chi_part_min (dndt.m_params tb)) = true
               \/ r_lt (dndt.chi_part_max (dndt.m_params tb)) chi_part = true)
       /\ (forall b, b <> a -> h' !! b = h !! b)
       /\ length h' = length h)
  /\ (forall (tb : photon_emission.photon_emission_lookup_table T V) (chi_part u : T)
        (a : nat) (h : heap),
        h !! a = Some false ->
        exists v h',
          photon_emission.interp tb chi_part u (Some a) h = Ok (v, h')
          /\ photon_emission.interp tb chi_part u nullptr h = Ok (v, h)
          /\ (h' !! a = Some true
              <-> r_lt chi_part
                    (photon_emission.chi_part_min (photon_emission.m_params tb)) = true
                  \/ r_lt (photon_emission.chi_part_max (photon_emission.m_params tb))
                       chi_part = true)
          /\ (forall b, b <> a -> h' !! b = h !! b)
          /\ length h' = length h).
Proof.
  split.
  - intros tb chi_part a h Hcell.
    destruct (flag_cases
                (r_lt chi_part (dndt.chi_part_min (dndt.m_params tb))
                 || r_lt (dndt.chi_part_max (dndt.m_params tb)) chi_part) a h Hcell)
      as (h' & Hflag & Hiff & Hframe & Hlen).
    eexists. exists h'. rewrite !dndt_interp_flag, Hflag.
    split; [reflexivity|]. split.
    + destruct (_ || _); reflexivity.
    + rewrite Hiff, orb_true_iff. auto.
  - intros tb chi_part u a h Hcell.
    destruct (flag_cases
                (r_lt chi_part (photon_emission.chi_part_min (photon_emission.m_params tb))
                 || r_lt (photon_emission.chi_part_max (photon_emission.m_params tb))
                      chi_part) a h Hcell)
      as (h' & Hflag & Hiff & Hframe & Hlen).
    eexists. exists h'. rewrite !photon_interp_cases. cbn zeta. rewrite Hflag.
    split; [reflexivity|]. split.
    + destruct (_ || _); reflexivity.
    + rewrite Hiff, orb_true_iff. auto.
Qed.

Lemma interp_is_out_iff_witness :
  [false; false] !! 1%nat = Some false
  /\ exists v h',
       dndt.interp examples.rate_table 2000%R (Some 1%nat) [false; false] = Ok (v, h')
       /\ h' !! 1%nat = Some true
       /\ h' !! 0%nat = Some false.
Proof.
  split; [reflexivity|].
  destruct (proj1 (@interp_is_out_iff R (list R) _ _ _) examples.rate_table 2000%R
              1%nat [false; false] eq_refl)
    as (v & h' & Hcall & _ & Hiff & Hframe & _).
  exists v, h'. split; [exact Hcall|]. split.
  - apply Hiff. right. real_order.
  - rewrite Hframe by lia. reflexivity.
Defined.


(** ** The default parameters *)

(** X14. The default parameters of the source follow the data model of both
    tables: [chi_part_min < chi_part_max], [0 < frac_min < 1], positive
    numbers of points whose product is a value of [int]. The tables built
    from them are not initialized, hold 256 and 65536 samples, and take that
    many values in [set_all_vals]. *)
Theorem default_params_wf :
  dndt_model.params_wf defaults.default_dndt_lookup_table_params
  /\ photon_emission_model.params_wf defaults.default_photon_emission_lookup_table_params
  /\ (let tb := dndt.make defaults.default_dndt_lookup_table_params in
      dndt_model.storage_wf tb /\ dndt.is_init tb = false
      /\ Z.of_nat (length (t1d.m_values (dndt.m_table tb))) = 256
      /\ forall vals, Z.of_nat (length vals) = 256 ->
           exists tb', dndt.set_all_vals tb vals = Ok (true, tb'))
  /\ (let tb := photon_emission.make defaults.default_photon_emission_lookup_table_params in
      photon_emission_model.storage_wf tb /\ photon_emission.is_init tb = false
      /\ Z.of_nat (length (t2d.m_values (photon_emission.m_table tb))) = 65536
      /\ forall vals, Z.of_nat (length vals) = 65536 ->
           exists tb', photon_emission.set_all_vals tb vals = Ok (true, tb')).
Proof.
  assert (Hmin : (defaults.default_chi_part_min < defaults.default_chi_part_max)%R)
    by (unfold defaults.default_chi_part_min, defaults.default_chi_part_max; lra).
  assert (Hfrac : (0 < defaults.default_frac_min < 1)%R).
  { unfold defaults.default_frac_min.
    assert (Hpow : (1 < 10 ^ 12)%R) by (simpl; lra).
    split.
    - apply Rdiv_lt_0_compat; lra.
    - apply Rmult_lt_reg_r with (10 ^ 12)%R; [lra|].
      unfold Rdiv. rewrite Rmult_assoc, Rinv_l by lra. lra. }
  assert (Hrate : dndt_model.params_wf defaults.default_dndt_lookup_table_params).
  { split; [apply Rltb_true; exact Hmin|].
    change (0 < 256 /\ int_range 256). unfold int_range. lia. }
  assert (Hemission :
    photon_emission_model.params_wf defaults.default_photon_emission_lookup_table_params).
  { split; [apply Rltb_true; exact Hmin|].
    split; [apply Rltb_true; apply Hfrac|]. split; [apply Rltb_true; apply Hfrac|].
    change (0 < 256 /\ 0 < 256 /\ int_range 256 /\ int_range 256 /\ int_range (256 * 256)).
    unfold int_range. lia. }
  split; [exact Hrate|]. split; [exact Hemission|]. split; cbn zeta.
  - destruct (dndt_make_wf _ Hrate) as [Hwf Hinit].
    split; [exact Hwf|]. split; [exact Hinit|].
    pose proof Hwf as (_ & _ & Hlen & _).
    unfold v_content, std_vector_VectorType in Hlen.
    split; [exact Hlen|].
    intros vals Hvals. eexists. apply dndt_set_all_vals_ok.
    unfold t1d.get_how_many_x, v_content, std_vector_VectorType. rewrite Hlen, Hvals.
    reflexivity.
  - destruct (photon_make_wf _ Hemission) as [Hwf Hinit].
    split; [exact Hwf|]. split; [exact Hinit|].
    pose proof Hwf as (_ & _ & _ & _ & _ & _ & Hlen & _).
    unfold v_content, std_vector_VectorType in Hlen.
    split; [exact Hlen|].
    intros vals Hvals. eexists. apply photon_set_all_vals_ok.
    + apply Nat2Z.inj. rewrite Hlen, Hvals. reflexivity.
    + rewrite Hvals. reflexivity.
Qed.

(** ** The coordinates of the samples *)

Section coordinates.
Context {T : Type} `{RealOps T}.

Lemma length_flat_map_const {A B : Type} (f : A -> list B) (l : list A) (m : nat) :
  (forall a, length (f a) = m) -> length (flat_map f l) = (length l * m)%nat.
Proof.
  intros Hf. induction l as [|a l IH]; cbn; [reflexivity|].
  rewrite length_app, Hf, IH. reflexivity.
Qed.

Lemma dndt_coordinates_length {V : Type} `{VectorType T V} (tb : dndt.dndt_lookup_table T V) :
  length (dndt.get_all_coordinates tb)
  = length (v_content (t1d.m_values (dndt.m_table tb))).
Proof.
  unfold dndt.get_all_coordinates, t1d.get_all_coordinates, t1d.get_how_many_x. cbn zeta.
  rewrite !length_map, length_seq. apply Nat2Z.id.
Qed.

Lemma photon_coordinates_length {V : Type} `{VectorType T V}
    (tb : photon_emission.photon_emission_lookup_table T V) :
  length (photon_emission.get_all_coordinates tb)
  = (Z.to_nat (t2d.m_how_many_x (photon_emission.m_table tb))
     * Z.to_nat (t2d.m_how_many_y (photon_emission.m_table tb)))%nat.
Proof.
  unfold photon_emission.get_all_coordinates, t2d.get_all_coordinates. cbn zeta.
  rewrite length_map.
  rewrite (length_flat_map_const _ _
             (Z.to_nat (t2d.m_how_many_y (photon_emission.m_table tb)))).
  - rewrite length_seq. reflexivity.
  - intros a. rewrite length_map, length_seq. reflexivity.
Qed.
End coordinates.

(** X15. [get_all_coordinates] gives one coordinate for each sample that
    [set_all_vals] takes: the values of any function, computed at the
    coordinates a table exports and given to [set_all_vals] of this table,
    are accepted, and the table is initialized afterwards. For the photon
    emission table this needs resolutions that are not negative and a
    storage that holds as many samples as they say. *)
Theorem coordinates_fit_set_all_vals {T : Type} `{RealOps T} :
  (forall (tb : dndt.owner_type T) (g : T -> T),
     exists tb',
       dndt.set_all_vals tb (map g (dndt.get_all_coordinates tb)) = Ok (true, tb')
       /\ dndt.is_init tb' = true
       /\ t1d.m_values (dndt.m_table tb')
          = map (fun c => m_log (g c)) (dndt.get_all_coordinates tb))
  /\ (forall (tb : photon_emission.owner_type T) (g : T * T -> T),
        0 <= t2d.m_how_many_x (photon_emission.m_table tb) ->
        0 <= t2d.m_how_many_y (photon_emission.m_table tb) ->
        Z.of_nat (length (t2d.m_values (photon_emission.m_table tb)))
        = t2d.m_how_many_x (photon_emission.m_table tb)
          * t2d.m_how_many_y (photon_emission.m_table tb) ->
        exists tb',
          photon_emission.set_all_vals tb (map g (photon_emission.get_all_coordinates tb))
          = Ok (true, tb')
          /\ photon_emission.is_init tb' = true
          /\ length (t2d.m_values (photon_emission.m_table tb'))
             = length (photon_emission.get_all_coordinates tb)).
Proof.
  split.
  - intros tb g. eexists. split; [|split].
    + apply dndt_set_all_vals_ok. unfold t1d.get_how_many_x.
      rewrite length_map, dndt_coordinates_length. reflexivity.
    + reflexivity.
    + cbn. rewrite map_map. reflexivity.
  - intros tb g Hnx Hny Hstore.
    assert (Hlen : length (map g (photon_emission.get_all_coordinates tb))
                   = length (t2d.m_values (photon_emission.m_table tb))).
    { rewrite length_map, photon_coordinates_length. apply Nat2Z.inj.
      rewrite Hstore, Nat2Z.inj_mul, !Z2Nat.id by assumption. reflexivity. }
    eexists. split; [|split].
    + apply photon_set_all_vals_ok; [symmetry; exact Hlen|].
      rewrite Hlen. exact Hstore.
    + reflexivity.
    + cbn. rewrite !length_map. reflexivity.
Qed.

Lemma coordinates_fit_set_all_vals_witness :
  0 <= t2d.m_how_many_x (photon_emission.m_table extended.small_table)
  /\ 0 <= t2d.m_how_many_y (photon_emission.m_table extended.small_table)
  /\ exists tb',
       photon_emission.set_all_vals extended.small_table
         (map snd (photon_emission.get_all_coordinates extended.small_table))
       = Ok (true, tb')
       /\ photon_emission.is_init tb' = true.
Proof.
  assert (Hnx : 0 <= t2d.m_how_many_x (photon_emission.m_table extended.small_table))
    by (cbn; lia).
  assert (Hny : 0 <= t2d.m_how_many_y (photon_emission.m_table extended.small_table))
    by (cbn; lia).
  split; [exact Hnx|]. split; [exact Hny|].
  destruct (proj2 (@coordinates_fit_set_all_vals extended.xreal _)
              extended.small_table snd Hnx Hny eq_refl) as (tb' & Hcall & Hinit & _).
  exists tb'. split; [exact Hcall | exact Hinit].
Defined.


(** ** The constructor from values and [set_all_vals] *)

(** X18. The constructor from parameters and values keeps the values as they
    are given, where [set_all_vals] stores their logarithms: for parameters
    that follow the data model and as many values as they ask for, building
    the table from the parameters and importing the values gives the table
    that the constructor builds from the parameters and the logarithms of
    the values (for the photon emission table, with [lowest()] for the
    logarithms that are infinite). *)
Theorem set_all_vals_is_make_with_logs {T : Type} `{RealOps T} :
  (forall (params : dndt.dndt_lookup_table_params T) (vals : list T),
     dndt_model.params_wf params ->
     Z.of_nat (length vals) = dndt.chi_part_how_many params ->
     dndt.set_all_vals (dndt.make params) vals
     = Ok (true, dndt.make_with_vals params (map m_log vals)))
  /\ (forall (params : photon_emission.photon_emission_lookup_table_params T)
        (vals : list T),
        photon_emission_model.params_wf params ->
        Z.of_nat (length vals)
        = photon_emission.chi_part_how_many params * photon_emission.frac_how_many params ->
        photon_emission.set_all_vals (photon_emission.make params) vals
        = Ok (true,
              photon_emission.make_with_vals params
                (map (fun v => if r_isinf (m_log v) then r_lowest else m_log v) vals))).
Proof.
  split; intros params vals Hparams Hlen.
  - destruct (dndt_make_wf params Hparams) as [(_ & _ & Hcount & _) _].
    rewrite dndt_set_all_vals_ok; [reflexivity|].
    unfold t1d.get_how_many_x. rewrite Hcount. exact Hlen.
  - destruct (photon_make_wf params Hparams) as [(_ & _ & _ & _ & _ & _ & Hcount & _) _].
    unfold v_content, std_vector_VectorType in Hcount.
    rewrite photon_set_all_vals_ok; [reflexivity| |exact Hlen].
    apply Nat2Z.inj. rewrite Hcount, Hlen. reflexivity.
Qed.

Lemma set_all_vals_is_make_with_logs_witness :
  dndt.set_all_vals (dndt.make examples.rate_params) [1; 2; 3; 4; 5; 6; 7; 8]%R
  = Ok (true, dndt.make_with_vals examples.rate_params
                (map m_log [1; 2; 3; 4; 5; 6; 7; 8]%R)).
Proof.
  exact (proj1 (@set_all_vals_is_make_with_logs R _) examples.rate_params
           [1; 2; 3; 4; 5; 6; 7; 8]%R rate_params_wf eq_refl).
Defined.

(** ** A [chi_part] that is not a number *)

(** X19. With the comparisons of IEEE 754, a [chi_part] that is a NaN is
    below no bound and above none: [interp] of both tables evaluates the
    table at the NaN and writes nothing through [is_out], whatever the
    pointer is; the photon emission table returns a NaN. *)
Theorem nan_chi_part_is_not_flagged {V : Type}
    `{GridInterp extended.xreal} `{VectorType extended.xreal V} :
  (forall (tb : dndt.dndt_lookup_table extended.xreal V) (is_out : bool_ptr) (h : heap),
     dndt.interp tb extended.NaN is_out h
     = Ok (m_exp (t1d.interp (dndt.m_table tb) extended.NaN), h))
  /\ (forall (tb : photon_emission.photon_emission_lookup_table extended.xreal V)
        (u : extended.xreal) (is_out : bool_ptr) (h : heap),
        photon_emission.interp tb extended.NaN u is_out h = Ok (extended.NaN, h)).
Proof.
  split.
  - intros tb is_out h. rewrite dndt_interp_inside; [reflexivity| |].
    + reflexivity.
    + cbn. destruct (dndt.chi_part_max (dndt.m_params tb)); reflexivity.
  - intros tb u is_out h. rewrite photon_interp_cases. cbn zeta.
    replace (r_lt extended.NaN (photon_emission.chi_part_min (photon_emission.m_params tb))
             || r_lt (photon_emission.chi_part_max (photon_emission.m_params tb))
                  extended.NaN) with false
      by (cbn; destruct (photon_emission.chi_part_max (photon_emission.m_params tb));
          reflexivity).
    cbn [mbind outcome_bind]. f_equal. f_equal.
    repeat (destruct (_ =? _)); cbn.
    + destruct (photon_emission.frac_min (photon_emission.m_params tb)); reflexivity.
    + reflexivity.
    + destruct (extended.exp _); reflexivity.
Qed.

